(** * Wave spectrum estimation: a shallow embedding of the C sources

    The development follows the sources file by file:
    - [utils.c]            : heap buffers, CSV ingestion, the double integrator;
    - [signalProcessing.c] : the radix-2 FFT, the periodogram, the power-of-two
                             rounding of buffer sizes;
    - [waveEstimation.c]   : the element-wise spectral ratio;
    - [main.c]             : the two pipelines [characteriseRAO] and
                             [estimateWaveSpectrum].

    [size_t] values are integers of [Z] reduced modulo [2 ^ size_bits];
    [float] and [double] are IEEE-754 binary32 and binary64 values with the
    operations of [SpecFloat] (round to nearest, ties to even); heap blocks are
    lists, read and written by index, and an access outside a block has no
    result ([None]). *)

From Stdlib Require Import ZArith List Bool Lia String.
From Stdlib Require Import Floats.SpecFloat.
From Stdlib Require Import Ascii.
From stdpp Require Import base option list.

Local Open Scope Z_scope.

(** ** IEEE-754 arithmetic *)

Record format := Format { prec : Z; emax : Z }.

Section IEEE.
Variable fmt : format.

Definition fadd : spec_float -> spec_float -> spec_float := SFadd (prec fmt) (emax fmt).
Definition fsub : spec_float -> spec_float -> spec_float := SFsub (prec fmt) (emax fmt).
Definition fmul : spec_float -> spec_float -> spec_float := SFmul (prec fmt) (emax fmt).
Definition fdiv : spec_float -> spec_float -> spec_float := SFdiv (prec fmt) (emax fmt).
Definition fsqrt : spec_float -> spec_float := SFsqrt (prec fmt) (emax fmt).
(** Conversion of an integer to the format. *)
Definition of_Z (n : Z) : spec_float := binary_normalize (prec fmt) (emax fmt) n 0 false.
(** Conversion of a value of another binary format to this one. *)
Definition fround (x : spec_float) : spec_float :=
  match x with
  | S754_finite s m e =>
      binary_normalize (prec fmt) (emax fmt) (cond_Zopp s (Zpos m)) e s
  | _ => x
  end.
End IEEE.

Definition binary32 : format := Format 24 128.
Definition binary64 : format := Format 53 1024.

(** The C types [float] and [double]. *)
Abbreviation float := spec_float.
Abbreviation double := spec_float.

(** ** Data of the program *)

(** [struct Complex] of signalProcessing.c. *)
Record Complex := mkComplex { real : float; imaginary : float }.

(** [State] of integrate.h, with the two fields utils.c reads and writes. *)
Record State := mkState { position : float; speed : float }.

(** [struct Buffer] of utils.h. A null [heapPointer] is [None]; a non-null
    one carries the cells of the heap block it points to. *)
Record Buffer := mkBuffer { heapPointer : option (list float); size : Z }.

(** A stream open for reading, as the two passes of the ingestion see it:
    [firstPass] are the values [fscanf(stream, "%f,", ...)] reads before it
    first reports end of file or a matching failure, [secondPass] the values
    it reads after the [rewind] that follows. *)
Record FILE := mkFILE { firstPass : list float; secondPass : list float }.

(** ** Heap blocks *)

(** The cells reachable through a pointer: none through a null pointer. *)
Definition block {A : Type} (p : option (list A)) : list A :=
  match p with
  | Some cells => cells
  | None => []
  end.

(** The pointer after the cells of its block have been rewritten in place. *)
Definition rewritten {A : Type} (p : option (list A)) (cells : list A) : option (list A) :=
  match p with
  | Some _ => Some cells
  | None => None
  end.

Definition load {A : Type} (p : list A) (i : Z) : option A :=
  if 0 <=? i then p !! Z.to_nat i else None.

Definition store {A : Type} (p : list A) (i : Z) (v : A) : option (list A) :=
  if (0 <=? i) && (i <? Z.of_nat (length p)) then Some (<[Z.to_nat i := v]> p) else None.

(** [for (size_t i = first; ...; i++)] run for [count] iterations over a loop
    state [S]; an iteration without result ends the run without result. *)
Fixpoint for_loop {S : Type} (count : nat) (i : Z) (body : Z -> S -> option S) (s : S)
  : option S :=
  match count with
  | O => Some s
  | S count' => s' ← body i s; for_loop count' (i + 1) body s'
  end.

(** ** The environment: allocator, console, uncertainty source *)

(** What the C library answers to one allocation request: no memory, or a
    block whose cells hold [junk i] wherever the call does not define them. *)
Inductive AllocOutcome :=
  | AllocFails
  | AllocSucceeds (junk : nat -> float).

Definition granted (o : AllocOutcome) : bool :=
  match o with
  | AllocFails => false
  | AllocSucceeds _ => true
  end.

(** The diagnostics the program prints, one constructor per [printf]. *)
Inductive Message :=
  | MsgNullPointer
  | MsgOutOfHeapMemory
  | MsgCouldNotOpen (path : string)
  | MsgNoDataFound (path : string)
  | MsgFailedToRead (path : string)
  | MsgHeaveDisplacementUnreadable (path : string)
  | MsgWaveElevationUnreadable (path : string)
  | MsgLengthMismatch (heave elevation : Z)
  | MsgHeavePowerSpectrumFailed
  | MsgWavePowerSpectrumFailed
  | MsgHeaveAccelerationUnreadable (path : string)
  | MsgTooManyValues (found maximum : Z)
  | MsgHeaveMotionSpectrumFailed.

Inductive Event :=
  | EvCalloc (nmemb : Z) (ok : bool)
  | EvReallocarray (nmemb : Z) (ok : bool)
  | EvFree
  | EvPrintf (m : Message)
  | EvUniformDist (lowerBound upperBound : float).

(** The part of the world the program acts on: how many allocation requests
    and how many uncertainty draws it has made, and what it has done so far,
    oldest event first. *)
Record World := mkWorld { allocations : nat; draws : nat; trace : list Event }.

(** A computation acts on the world and yields a value, or has no outcome
    (an access outside a block, a recursion that never ends). *)
Definition M (A : Type) : Type := World -> option (A * World).

Definition ret {A : Type} (a : A) : M A := fun w => Some (a, w).

Definition bind {A B : Type} (m : M A) (k : A -> M B) : M B :=
  fun w => match m w with
           | Some (a, w') => k a w'
           | None => None
           end.

Definition lift {A : Type} (o : option A) : M A :=
  fun w => match o with
           | Some a => Some (a, w)
           | None => None
           end.

Declare Scope M_scope.
Delimit Scope M_scope with M.
Notation "'let*' x := m 'in' k" := (bind m (fun x => k))
  (at level 10, x pattern, m at level 100, k at level 200) : M_scope.
Notation "m ;; k" := (bind m (fun _ => k))
  (at level 100, k at level 200, right associativity) : M_scope.

(** The [for] loop of [for_loop], for a body that acts on the world. *)
Fixpoint for_loopM {S : Type} (count : nat) (i : Z) (body : Z -> S -> M S) (s : S) : M S :=
  match count with
  | O => ret s
  | S count' => bind (body i s) (for_loopM count' (i + 1) body)
  end.

Definition emit (e : Event) : M unit :=
  fun w => Some (tt, mkWorld (allocations w) (draws w) (trace w ++ [e])).

Definition printf (m : Message) : M unit := emit (EvPrintf m).

Definition free : M unit := emit EvFree.

(** C truth of an [int] return code. *)
Definition failed (returnCode : Z) : bool := negb (returnCode =? 0).

(** ** Test doubles for the external functions

    The program is linked against [integrate] (integrate.h), the uncertainty
    source [libUncertainFloatUniformDist] (uncertain.h) and the C library.
    The sources below take them as parameters; these are the stand-ins used
    when a property is evaluated on concrete data. *)

Definition f32_one : float := S754_finite false 8388608 (-23).
Definition f32_two : float := S754_finite false 8388608 (-22).
Definition f32_half : float := S754_finite false 8388608 (-24).

(** Modelled from the spec: integrate.h and its implementation are not part
    of the sources at hand. The spec gives the step as
    [speed[i] = speed[i-1] + dt * (accel[i-1] + accel[i]) / 2] and
    [position[i] = position[i-1] + dt * (speed[i-1] + speed[i]) / 2]. *)
Definition integrate_trapezoidal
  (oldState : State) (newAcceleration oldAcceleration dt : float) : State :=
  let newSpeed :=
    fadd binary32 (speed oldState)
      (fdiv binary32
         (fmul binary32 dt (fadd binary32 oldAcceleration newAcceleration)) f32_two) in
  let newPosition :=
    fadd binary32 (position oldState)
      (fdiv binary32
         (fmul binary32 dt (fadd binary32 (speed oldState) newSpeed)) f32_two) in
  mkState newPosition newSpeed.

(** An uncertainty source that always answers the midpoint of the support. *)
Definition uniform_midpoint (draw : nat) (lowerBound upperBound : float) : float :=
  fdiv binary32 (fadd binary32 lowerBound upperBound) f32_two.

(** The double nearest to pi, which is what [acos(-1)] evaluates to. *)
Definition f64_pi : double := S754_finite false 7074237752028440 (-51).

Definition acos_minus_one (x : double) : double := f64_pi.

(** Truncated Maclaurin series standing in for [cosf] and [sinf]. *)
Definition cosf_series (x : float) : float :=
  let x2 := fmul binary32 x x in
  let term k := fdiv binary32 x2 (of_Z binary32 k) in
  fsub binary32 f32_one
    (fmul binary32 (term 2)
       (fsub binary32 f32_one
          (fmul binary32 (term 12)
             (fsub binary32 f32_one
                (fmul binary32 (term 30) (fsub binary32 f32_one (term 56))))))).

Definition sinf_series (x : float) : float :=
  let x2 := fmul binary32 x x in
  let term k := fdiv binary32 x2 (of_Z binary32 k) in
  fmul binary32 x
    (fsub binary32 f32_one
       (fmul binary32 (term 6)
          (fsub binary32 f32_one
             (fmul binary32 (term 20)
                (fsub binary32 f32_one
                   (fmul binary32 (term 42) (fsub binary32 f32_one (term 72)))))))).

(** An allocator that always succeeds and hands out recycled cells holding 1.0. *)
Definition allocator_recycling (request : nat) : AllocOutcome :=
  AllocSucceeds (fun _ => f32_one).

(** An allocator that always succeeds and whose fresh cells happen to be zero. *)
Definition allocator_zeroing (request : nat) : AllocOutcome :=
  AllocSucceeds (fun _ => S754_zero false).

Definition world0 : World := mkWorld 0 0 [].

Definition f32_quarter : float := S754_finite false 8388608 (-25).

(** Files for a heave record of four values, an elevation record of three
    and an acceleration record of two. *)
Definition files_small (path : string) : option (list float) :=
  if String.eqb path "testingHeave.csv"%string then
    Some [f32_one; f32_two; f32_one; S754_zero false]
  else if String.eqb path "testingWaveElevation.csv"%string then
    Some [f32_half; f32_one; f32_half]
  else if String.eqb path "oceanHeaveAcceleration.csv"%string then
    Some [f32_one; f32_one]
  else None.

(** Files of 32768 values each: more than half the largest size where
    [size_t] has 16 bits. *)
Definition files_oversized (path : string) : option (list float) :=
  Some (replicate (Z.to_nat 32768) f32_one).

(** A machine where every path is a regular file or nothing. *)
Definition no_pipes (path : string) : option FILE := None.

(** A machine with one pipe, which delivers three values and is closed by
    its writer: nothing is left to read after the first pass. *)
Definition pipes_closed (path : string) : option FILE :=
  if String.eqb path "/dev/stdin"%string then
    Some (mkFILE [f32_one; f32_two; f32_half] [])
  else None.

(** An allocator without memory to give. *)
Definition allocator_exhausted (request : nat) : AllocOutcome := AllocFails.

(** ** The sources *)

Section Sources.
(** Width in bits of [size_t] on the target. *)
Variable size_bits : positive.
(** The answer of the C library to the n-th allocation request. *)
Variable allocator : nat -> AllocOutcome.
(** The values [fscanf(stream, "%f,", ...)] reads from the regular file at
    a path before it reports end of file or a matching failure; [None] when
    no regular file can be opened at the path. *)
Variable filesystem : string -> option (list float).
(** The streams at the paths that hold no regular file but can be opened all
    the same (a pipe, a terminal): they cannot be repositioned, so that
    [rewind] leaves them where the first pass ended and the second pass reads
    what arrives after that. *)
Variable pipes : string -> option FILE.
(** uncertain.h; the first argument counts the draws made before. *)
Variable libUncertainFloatUniformDist : nat -> float -> float -> float.
(** integrate.h: the new state from the old state, the new and the old
    acceleration and the time step. *)
Variable integrate : State -> float -> float -> float -> State.
(** math.h *)
Variable cosf : float -> float.
Variable sinf : float -> float.
Variable acos : double -> double.

Local Open Scope M_scope.

Definition SIZE_MAX : Z := 2 ^ Z.pos size_bits - 1.

(** Reduction of an arithmetic result to [size_t]. *)
Definition wrap (n : Z) : Z := n mod 2 ^ Z.pos size_bits.

(** *** stdlib.h *)

(** [calloc(nmemb, sizeof *p)]: every cell of a granted block is zero. *)
Definition calloc {A : Type} (zero : A) (nmemb : Z) : M (option (list A)) :=
  fun w =>
    let ok := granted (allocator (allocations w)) in
    Some (if ok then Some (replicate (Z.to_nat nmemb) zero) else None,
          mkWorld (S (allocations w)) (draws w) (trace w ++ [EvCalloc nmemb ok])).

(** [reallocarray(ptr, nmemb, sizeof(float))]: a granted block keeps the
    cells of the old block that fit; the cells beyond them are not
    initialised and hold whatever the allocator left there. *)
Definition reallocarray (ptr : option (list float)) (nmemb : Z)
  : M (option (list float)) :=
  fun w =>
    let old := take (Z.to_nat nmemb) (block ptr) in
    let cells :=
      match allocator (allocations w) with
      | AllocFails => None
      | AllocSucceeds junk =>
          Some (old ++ map junk (seq (length old) (Z.to_nat nmemb - length old)))
      end in
    Some (cells,
          mkWorld (S (allocations w)) (draws w)
            (trace w ++ [EvReallocarray nmemb (granted (allocator (allocations w)))])).

(** [sizeof(float)], in bytes. *)
Definition sizeof_float : Z := 4.

(** *** stdio.h *)

(** [fopen(filePath, "r")]: a null stream is [None]. A regular file is read
    from its start again after [rewind]. *)
Definition fopen (filePath : string) : option FILE :=
  match filesystem filePath with
  | Some values => Some (mkFILE values values)
  | None => pipes filePath
  end.

(** [fclose(stream)]: closing a null stream has no defined outcome. *)
Definition fclose (stream : option FILE) : M unit :=
  lift (match stream with
        | Some _ => Some tt
        | None => None
        end).

(** *** utils.c *)

(** The [do ... while] loop of [determineBufferSize]: one [fscanf] and one
    [count++] per iteration. *)
Fixpoint count_values (stream : list float) (count : Z) : Z :=
  let count := wrap (count + 1) in
  if count =? 0 then
    (* Overflow *)
    count
  else
    match stream with
    | [] => count
    | _ :: stream' => count_values stream' count
    end.

(** [stream] holds the values of the first pass; the [rewind(stream)] that
    ends the function decides what the second pass reads ([secondPass]). *)
Definition determineBufferSize (stream : list float) : Z :=
  wrap (count_values stream 0 - 1).

Fixpoint getFloatsFromCSV_loop (count : nat) (i : Z) (stream cells : list float)
  : option (Z * list float) :=
  match count with
  | O => Some (0, cells)
  | S count' =>
      match stream with
      | [] => Some (1, cells)
      | v :: stream' =>
          cells' ← store cells i v;
          getFloatsFromCSV_loop count' (i + 1) stream' cells'
      end
  end.

Definition getFloatsFromCSV (stream : list float) (buf : Buffer) : option (Z * Buffer) :=
  '(returnCode, cells) ←
    getFloatsFromCSV_loop (Z.to_nat (size buf)) 0 stream (block (heapPointer buf));
  Some (returnCode, mkBuffer (rewritten (heapPointer buf) cells) (size buf)).

Definition subtractMean (buf : Buffer) : option Buffer :=
  let cells := block (heapPointer buf) in
  total ← for_loop (Z.to_nat (size buf)) 0
             (fun i total => v ← load cells i; Some (fadd binary32 total v))
             (S754_zero false);
  let mean := fdiv binary32 total (of_Z binary32 (size buf)) in
  cells' ← for_loop (Z.to_nat (size buf)) 0
              (fun i cells => v ← load cells i; store cells i (fsub binary32 v mean))
              cells;
  Some (mkBuffer (rewritten (heapPointer buf) cells') (size buf)).

(** [buf] is the pointer the function receives: [None] when it is null,
    else the buffer it points to; the function returns that buffer as it
    leaves it. *)
Definition readFloatsFromFileToHeapBuffer (filePath : string) (buf : option Buffer)
  : M (Z * option Buffer) :=
  let stream := fopen filePath in
  match buf with
  | None =>
      fclose stream;;
      printf MsgNullPointer;;
      ret (1, None)
  | Some buf =>
      match stream with
      | None =>
          printf (MsgCouldNotOpen filePath);;
          ret (1, Some buf)
      | Some file =>
          let buf := mkBuffer (heapPointer buf) (determineBufferSize (firstPass file)) in
          if size buf =? 0 then
            fclose stream;;
            printf (MsgNoDataFound filePath);;
            ret (1, Some buf)
          else
            let* p := calloc (S754_zero false) (size buf) in
            let buf := mkBuffer p (size buf) in
            match p with
            | None =>
                fclose stream;;
                printf MsgOutOfHeapMemory;;
                ret (1, Some buf)
            | Some _ =>
                let* (returnCode, buf) := lift (getFloatsFromCSV (secondPass file) buf) in
                if failed returnCode then
                  fclose stream;;
                  printf (MsgFailedToRead filePath);;
                  ret (1, Some buf)
                else
                  fclose stream;;
                  ret (0, Some buf)
            end
      end
  end.

(** A call [f(..., &local)]: the callee receives a pointer that is not null,
    and the local holds afterwards what the callee left in it. *)
Definition by_reference {A : Type} (f : option Buffer -> M (A * option Buffer))
    (local : Buffer) : M (A * Buffer) :=
  let* (a, p) := f (Some local) in
  ret (a, match p with
          | Some written => written
          | None => local
          end).

Definition extendHeapBuffer (buf : Buffer) (newSize : Z) : M (Z * Buffer) :=
  if newSize <=? size buf then ret (0, buf)
  else
    let* p := reallocarray (heapPointer buf) newSize in
    match p with
    | None =>
        printf MsgOutOfHeapMemory;;
        ret (1, mkBuffer None 0)
    | Some _ => ret (0, mkBuffer p newSize)
    end.

Definition freeHeapBuffer (buf : Buffer) : M unit := free.

(** One iteration of the loop of [numericalIntegration]; the loop state is
    the block, [oldState] and [oldAcceleration]. *)
Definition integration_step (dt : float) (i : Z) (s : list float * State * float)
  : option (list float * State * float) :=
  let '(cells, oldState, oldAcceleration) := s in
  newAcceleration ← load cells i;
  let newState := integrate oldState newAcceleration oldAcceleration dt in
  oldAcceleration ← load cells i;
  cells ← store cells i (position newState);
  Some (cells, mkState (position newState) (speed newState), oldAcceleration).

Definition integration_loop (dt : float) (count : nat) (cells : list float)
  : option (list float * State * float) :=
  for_loop count 0 (integration_step dt)
    (cells, mkState (S754_zero false) (S754_zero false), S754_zero false).

Definition numericalIntegration (timeSeriesData : Buffer) (dt : float) : option Buffer :=
  let cells := block (heapPointer timeSeriesData) in
  _ ← load cells 0;
  '(cells, _, _) ← integration_loop dt (Z.to_nat (size timeSeriesData)) cells;
  subtractMean
    (mkBuffer (rewritten (heapPointer timeSeriesData) cells) (size timeSeriesData)).

(** *** signalProcessing.c *)

Definition complexAdd (A B : Complex) : Complex :=
  mkComplex (fadd binary32 (real A) (real B)) (fadd binary32 (imaginary A) (imaginary B)).

Definition complexSubtract (A B : Complex) : Complex :=
  mkComplex (fsub binary32 (real A) (real B)) (fsub binary32 (imaginary A) (imaginary B)).

Definition complexMultiply (A B : Complex) : Complex :=
  let a := real A in
  let b := imaginary A in
  let c := real B in
  let d := imaginary B in
  mkComplex (fsub binary32 (fmul binary32 a c) (fmul binary32 b d))
            (fadd binary32 (fmul binary32 a d) (fmul binary32 b c)).

Definition complexExponent (angle : float) : Complex :=
  mkComplex (cosf angle) (sinf angle).

Definition complexMagnitude (A : Complex) : float :=
  let a := real A in
  let b := imaginary A in
  fsqrt binary32 (fadd binary32 (fmul binary32 a a) (fmul binary32 b b)).

(** [-2.0 * PI * k / N] in [double], passed as a [float]. *)
Definition twiddle_angle (k N : Z) : float :=
  let PI := acos (of_Z binary64 (-1)) in
  fround binary32
    (fdiv binary64
       (fmul binary64 (fmul binary64 (of_Z binary64 (-2)) PI) (of_Z binary64 k))
       (of_Z binary64 N)).

(** The body of the combining loop of [dit2FFT] on the block of [F], whose
    first cell for this call is at offset [Fo]. *)
Definition butterfly (Fo N : Z) (k : Z) (F : list Complex) : option (list Complex) :=
  p ← load F (Fo + k);
  let temp := complexExponent (twiddle_angle k N) in
  odd ← load F (Fo + wrap (k + N / 2));
  let q := complexMultiply temp odd in
  F ← store F (Fo + k) (complexAdd p q);
  store F (Fo + wrap (k + N / 2)) (complexSubtract p q).

(** [F] and [x] point into blocks at offsets [Fo] and [xo]. Each unit of
    fuel pays for one level of recursion. *)
Fixpoint dit2FFT (fuel : nat) (F : list Complex) (Fo : Z) (x : list Complex) (xo : Z)
    (N stride : Z) : option (list Complex) :=
  match fuel with
  | O => None
  | S fuel' =>
      if N =? 1 then
        x0 ← load x xo;
        store F Fo (mkComplex (real x0) (imaginary x0))
      else
        F ← dit2FFT fuel' F Fo x xo (N / 2) (wrap (2 * stride));
        F ← dit2FFT fuel' F (Fo + N / 2) x (xo + stride) (N / 2) (wrap (2 * stride));
        for_loop (Z.to_nat (N / 2)) 0 (butterfly Fo N) F
  end.

(** The loop [while (returnValue < arg) returnValue *= 2;]. Each unit of
    fuel pays for one iteration. *)
Fixpoint doubling_loop (fuel : nat) (arg returnValue : Z) : option Z :=
  if returnValue <? arg then
    match fuel with
    | O => None
    | S fuel' => doubling_loop fuel' arg (wrap (returnValue * 2))
    end
  else Some returnValue.

Definition roundUpToNextHighestPowerOfTwo (arg : Z) : option Z :=
  let maximumArgument := wrap (SIZE_MAX / 2 + 1) in
  let returnValue := 1 in
  if arg >=? maximumArgument then
    (* Error: argument too large *)
    Some 0
  else doubling_loop (Pos.to_nat size_bits) arg returnValue.

Definition periodogram (S F : list float) (N : Z) : option (list float) :=
  for_loop (Z.to_nat N) 0
    (fun i S => f ← load F i; store S i (fmul binary32 f f)) S.

Definition fft (F x : list float) (N : Z) : M (Z * list float) :=
  let* spectrumSize := lift (roundUpToNextHighestPowerOfTwo N) in
  let* paddedX := calloc (mkComplex (S754_zero false) (S754_zero false)) spectrumSize in
  let* Fcplx := calloc (mkComplex (S754_zero false) (S754_zero false)) spectrumSize in
  match paddedX, Fcplx with
  | Some paddedX, Some Fcplx =>
      let* paddedX :=
        lift (for_loop (Z.to_nat N) 0
                (fun i paddedX =>
                   v ← load x i;
                   c ← load paddedX i;
                   store paddedX i (mkComplex v (imaginary c)))
                paddedX) in
      let* Fcplx :=
        lift (dit2FFT (S (Pos.to_nat size_bits)) Fcplx 0 paddedX 0 spectrumSize 1) in
      let* F :=
        lift (for_loop (Z.to_nat spectrumSize) 0
                (fun i F => c ← load Fcplx i; store F i (complexMagnitude c))
                F) in
      free;;
      free;;
      ret (0, F)
  | _, _ => ret (1, F)
  end.

Definition calculatePowerSpectrum (powerSpectrum timeSeriesData : list float) (N : Z)
  : M (Z * list float) :=
  let* spectrumSize := lift (roundUpToNextHighestPowerOfTwo N) in
  let* frequencySpectrum := calloc (S754_zero false) spectrumSize in
  let outOfMemory :=
    (* Failed to allocate heap memory *)
    printf MsgOutOfHeapMemory;;
    ret (1, powerSpectrum) in
  match frequencySpectrum with
  | None => outOfMemory
  | Some frequencySpectrum =>
      let* (returnCode, frequencySpectrum) := fft frequencySpectrum timeSeriesData N in
      if failed returnCode then outOfMemory
      else
        let* powerSpectrum :=
          lift (periodogram powerSpectrum frequencySpectrum spectrumSize) in
        free;;
        ret (0, powerSpectrum)
  end.

(** *** waveEstimation.c *)

Definition elementWiseDivide (result numerator denominator : list float) (N : Z)
  : option (list float) :=
  for_loop (Z.to_nat N) 0
    (fun i result =>
       d ← load denominator i;
       if SFeqb d (S754_zero false) then store result i (S754_infinity false)
       else
         n ← load numerator i;
         store result i (fdiv binary32 n d))
    result.

Definition calculateRAO (RAO heaveSpectrum waveSpectrum : list float) (N : Z)
  : option (list float) :=
  elementWiseDivide RAO heaveSpectrum waveSpectrum N.

Definition calculateWaveEnergySpectrum (waveSpectrum heaveSpectrum RAO : list float) (N : Z)
  : option (list float) :=
  elementWiseDivide waveSpectrum heaveSpectrum RAO N.
(** *** main.c *)

(** One call of the uncertainty source. *)
Definition uniformDist (lowerBound upperBound : float) : M float :=
  fun w =>
    Some (libUncertainFloatUniformDist (draws w) lowerBound upperBound,
          mkWorld (allocations w) (S (draws w))
            (trace w ++ [EvUniformDist lowerBound upperBound])).

Definition applyUncertainty (buffer : Buffer) (uncertainty : float) : M Buffer :=
  let* cells :=
    for_loopM (Z.to_nat (size buffer)) 0
      (fun i cells =>
         let* value := lift (load cells i) in
         let lowerBound :=
           fround binary32
             (fsub binary64 value (fdiv binary64 uncertainty (of_Z binary64 2))) in
         let upperBound :=
           fround binary32
             (fadd binary64 value (fdiv binary64 uncertainty (of_Z binary64 2))) in
         let* drawn := uniformDist lowerBound upperBound in
         lift (store cells i drawn))
      (block (heapPointer buffer)) in
  ret (mkBuffer (rewritten (heapPointer buffer) cells) (size buffer)).

Definition characteriseRAO (RAOBuffer : Buffer)
    (heaveDisplacementFilePath waveElevationFilePath : string)
    (heaveMeasurementUncertainty waveElevationMeasurementUncertainty : float)
    (measurementPeriod : float) : M (Z * Buffer) :=
  let heaveDisplacementBuffer := mkBuffer None 0 in
  let waveElevationBuffer := mkBuffer None 0 in
  let heaveSpectrumBuffer := mkBuffer None 0 in
  let waveSpectrumBuffer := mkBuffer None 0 in
  let RETURN (returnValue : Z) (RAOBuffer : Buffer) : M (Z * Buffer) :=
    freeHeapBuffer heaveDisplacementBuffer;;
    freeHeapBuffer waveElevationBuffer;;
    freeHeapBuffer heaveSpectrumBuffer;;
    freeHeapBuffer waveSpectrumBuffer;;
    ret (returnValue, RAOBuffer) in
  let* (returnCode, heaveDisplacementBuffer) :=
    by_reference (readFloatsFromFileToHeapBuffer heaveDisplacementFilePath)
      heaveDisplacementBuffer in
  if failed returnCode then
    printf (MsgHeaveDisplacementUnreadable heaveDisplacementFilePath);;
    RETURN 1 RAOBuffer
  else
  let* (returnCode, waveElevationBuffer) :=
    by_reference (readFloatsFromFileToHeapBuffer waveElevationFilePath)
      waveElevationBuffer in
  if failed returnCode then
    printf (MsgWaveElevationUnreadable waveElevationFilePath);;
    RETURN 1 RAOBuffer
  else
  if negb (size heaveDisplacementBuffer =? size waveElevationBuffer) then
    printf (MsgLengthMismatch (size heaveDisplacementBuffer) (size waveElevationBuffer));;
    RETURN 1 RAOBuffer
  else
  (* Expand frequency domain buffers to an appropriate size. *)
  let* spectrumBufferSize :=
    lift (roundUpToNextHighestPowerOfTwo (size heaveDisplacementBuffer)) in
  let* (returnCode, heaveSpectrumBuffer) :=
    extendHeapBuffer heaveSpectrumBuffer spectrumBufferSize in
  let* (returnCode, waveSpectrumBuffer) :=
    if failed returnCode then ret (returnCode, waveSpectrumBuffer)
    else extendHeapBuffer waveSpectrumBuffer spectrumBufferSize in
  let* (returnCode, RAOBuffer) :=
    if failed returnCode then ret (returnCode, RAOBuffer)
    else extendHeapBuffer RAOBuffer spectrumBufferSize in
  if failed returnCode then RETURN 1 RAOBuffer
  else
  let* heaveDisplacementBuffer :=
    applyUncertainty heaveDisplacementBuffer heaveMeasurementUncertainty in
  let* waveElevationBuffer :=
    applyUncertainty waveElevationBuffer waveElevationMeasurementUncertainty in
  let* (returnCode, cells) :=
    calculatePowerSpectrum (block (heapPointer heaveSpectrumBuffer))
      (block (heapPointer heaveDisplacementBuffer)) (size heaveDisplacementBuffer) in
  let heaveSpectrumBuffer :=
    mkBuffer (rewritten (heapPointer heaveSpectrumBuffer) cells)
      (size heaveSpectrumBuffer) in
  if failed returnCode then
    printf MsgHeavePowerSpectrumFailed;;
    RETURN 1 RAOBuffer
  else
  let* (returnCode, cells) :=
    calculatePowerSpectrum (block (heapPointer waveSpectrumBuffer))
      (block (heapPointer waveElevationBuffer)) (size waveElevationBuffer) in
  let waveSpectrumBuffer :=
    mkBuffer (rewritten (heapPointer waveSpectrumBuffer) cells)
      (size waveSpectrumBuffer) in
  if failed returnCode then
    printf MsgWavePowerSpectrumFailed;;
    RETURN 1 RAOBuffer
  else
  let* cells :=
    lift (calculateRAO (block (heapPointer RAOBuffer))
            (block (heapPointer heaveSpectrumBuffer))
            (block (heapPointer waveSpectrumBuffer)) (size RAOBuffer)) in
  RETURN 0 (mkBuffer (rewritten (heapPointer RAOBuffer) cells) (size RAOBuffer)).

Definition estimateWaveSpectrum (waveSpectrumEstimateBuffer RAOBuffer : Buffer)
    (heaveAccelerationFilePath : string)
    (accelerometerResolution accelerometerTimestep : float) : M (Z * Buffer) :=
  let oceanHeaveBuffer := mkBuffer None 0 in
  let heaveSpectrumBuffer := mkBuffer None 0 in
  let RETURN (returnValue : Z) (waveSpectrumEstimateBuffer : Buffer) : M (Z * Buffer) :=
    freeHeapBuffer oceanHeaveBuffer;;
    freeHeapBuffer heaveSpectrumBuffer;;
    ret (returnValue, waveSpectrumEstimateBuffer) in
  let* (returnCode, oceanHeaveBuffer) :=
    by_reference (readFloatsFromFileToHeapBuffer heaveAccelerationFilePath)
      oceanHeaveBuffer in
  if failed returnCode then
    printf (MsgHeaveAccelerationUnreadable heaveAccelerationFilePath);;
    RETURN 1 waveSpectrumEstimateBuffer
  else
  if size oceanHeaveBuffer >? SIZE_MAX / 2 then
    printf (MsgTooManyValues (size oceanHeaveBuffer) (SIZE_MAX / 2));;
    RETURN 1 waveSpectrumEstimateBuffer
  else
  (* Insert measurement uncertainty information. *)
  let* oceanHeaveBuffer := applyUncertainty oceanHeaveBuffer accelerometerResolution in
  (* Integrate acceleration to position. *)
  let* oceanHeaveBuffer :=
    lift (numericalIntegration oceanHeaveBuffer accelerometerTimestep) in
  let* (returnCode, oceanHeaveBuffer) :=
    if size oceanHeaveBuffer <? size RAOBuffer then
      (* Zero pad heave buffer *)
      extendHeapBuffer oceanHeaveBuffer (size RAOBuffer)
    else ret (0, oceanHeaveBuffer) in
  if failed returnCode then RETURN 1 waveSpectrumEstimateBuffer
  else
  (* Extend other buffers to an appropriate size for element-wise arithmetic. *)
  let* (returnCode, heaveSpectrumBuffer) :=
    extendHeapBuffer heaveSpectrumBuffer (size RAOBuffer) in
  let* (returnCode, waveSpectrumEstimateBuffer) :=
    if failed returnCode then ret (returnCode, waveSpectrumEstimateBuffer)
    else extendHeapBuffer waveSpectrumEstimateBuffer (size RAOBuffer) in
  if failed returnCode then RETURN 1 waveSpectrumEstimateBuffer
  else
  (* Calculate heave power spectrum from integrated accelerometer data. *)
  let* (returnCode, cells) :=
    calculatePowerSpectrum (block (heapPointer heaveSpectrumBuffer))
      (block (heapPointer oceanHeaveBuffer)) (size heaveSpectrumBuffer) in
  let heaveSpectrumBuffer :=
    mkBuffer (rewritten (heapPointer heaveSpectrumBuffer) cells)
      (size heaveSpectrumBuffer) in
  if failed returnCode then
    printf MsgHeaveMotionSpectrumFailed;;
    RETURN 1 waveSpectrumEstimateBuffer
  else
  let* cells :=
    lift (calculateWaveEnergySpectrum (block (heapPointer waveSpectrumEstimateBuffer))
            (block (heapPointer heaveSpectrumBuffer))
            (block (heapPointer RAOBuffer)) (size RAOBuffer)) in
  RETURN 0
    (mkBuffer (rewritten (heapPointer waveSpectrumEstimateBuffer) cells)
       (size waveSpectrumEstimateBuffer)).
End Sources.

(** ** Reference recursions

    Closed forms that the loops of the sources are proved to compute. *)

(** The positions the loop of [numericalIntegration] leaves in the block, as
    a recursion over the accelerations: each step integrates from the state
    and the acceleration of the step before. *)
Fixpoint positions_from (integrate : State -> float -> float -> float -> State)
    (dt : float) (oldState : State) (oldAcceleration : float)
    (accelerations : list float) : list float :=
  match accelerations with
  | [] => []
  | newAcceleration :: accelerations' =>
      let newState := integrate oldState newAcceleration oldAcceleration dt in
      position newState ::
        positions_from integrate dt (mkState (position newState) (speed newState))
          newAcceleration accelerations'
  end.

(** ** Classes of binary32 values *)

(** The two zeros. *)
Definition is_zero (f : float) : bool :=
  match f with
  | S754_zero _ => true
  | _ => false
  end.

(** The zeros and the finite values: neither an infinity nor a NaN. *)
Definition is_finite (f : float) : bool :=
  match f with
  | S754_zero _ | S754_finite _ _ _ => true
  | _ => false
  end.

Definition zero_complex (c : Complex) : bool :=
  is_zero (real c) && is_zero (imaginary c).

(** The state the combining loop of [dit2FFT] keeps on a block of zeros, for
    the [N] output cells from offset [Fo] of a block that was [F0] before the
    call: same length, zeros in these cells, the other cells as in [F0]. *)
Definition zeros_in (Fo N : Z) (F0 cur : list Complex) : Prop :=
  length cur = length F0 /\
  (forall i c, Fo <= Z.of_nat i < Fo + N -> cur !! i = Some c -> zero_complex c = true) /\
  (forall i, Z.of_nat i < Fo \/ Fo + N <= Z.of_nat i -> cur !! i = F0 !! i).

(** Files for a calibration of four values per record, the heave twice the
    elevation, and an acceleration record of three values. *)
Definition files_calibration (path : string) : option (list float) :=
  if String.eqb path "testingHeave.csv"%string then
    Some [f32_one; f32_two; f32_one; S754_zero false]
  else if String.eqb path "testingWaveElevation.csv"%string then
    Some [f32_half; f32_one; f32_half; S754_zero false]
  else if String.eqb path "oceanHeaveAcceleration.csv"%string then
    Some [f32_one; f32_one; f32_two]
  else None.

(** ** main.c : the command line and the report *)

Definition kMaximumPrintLinesInOutput : Z := 9.

Record CommandLineArguments := mkArguments {
  heaveDisplacementFilePath : string;
  heaveMeasurementUncertainty : float;
  waveElevationFilePath : string;
  waveElevationUncertainty : float;
  heaveAccelerationFilePath : string;
  accelerometerResolution : float;
  timestep : float
}.

(** What one call of [getopt(argc, argv, ":d:D:e:E:a:A:t:h")] hands to the
    loop of [getCommandLineArguments]: its return value, and [optarg] and
    [optopt] as the call leaves them. The calls of a run are a list; the call
    after the last one returns [EOF]. *)
Record GetoptCall := mkGetopt { opt : ascii; optarg : string; optopt : ascii }.

(** The lines [main] and [getCommandLineArguments] print, one constructor
    per [printf] and one for the text of [printUsage]. *)
Inductive ConsoleLine :=
  | LineInvalidTimestep (value : float)
  | LineUsage
  | LineMissingArgument (option : ascii)
  | LineInvalidOption (option : ascii)
  | LineWaveSpectrum
  | LineBin (frequency density : float).

(** A function returns, or ends the process through [exit]. *)
Inductive Completion (A : Type) :=
  | Returns (a : A)
  | Exits (status : Z).

Arguments Returns {A} a.
Arguments Exits {A} status.

Section Program.
Variable size_bits : positive.
Variable allocator : nat -> AllocOutcome.
Variable filesystem : string -> option (list float).
Variable pipes : string -> option FILE.
Variable libUncertainFloatUniformDist : nat -> float -> float -> float.
Variable integrate : State -> float -> float -> float -> State.
Variable cosf : float -> float.
Variable sinf : float -> float.
Variable acos : double -> double.
(** stdlib.h *)
Variable atof : string -> double.

Local Open Scope M_scope.

Fixpoint getCommandLineArguments (calls : list GetoptCall)
    (arguments : CommandLineArguments)
  : list ConsoleLine * Completion (Z * CommandLineArguments) :=
  match calls with
  | [] => ([], Returns (0, arguments))
  | call :: calls' =>
      let a := arguments in
      if Ascii.eqb (opt call) "d" then
        getCommandLineArguments calls'
          (mkArguments (optarg call) (heaveMeasurementUncertainty a)
             (waveElevationFilePath a) (waveElevationUncertainty a)
             (heaveAccelerationFilePath a) (accelerometerResolution a) (timestep a))
      else if Ascii.eqb (opt call) "D" then
        getCommandLineArguments calls'
          (mkArguments (heaveDisplacementFilePath a)
             (fround binary32 (atof (optarg call)))
             (waveElevationFilePath a) (waveElevationUncertainty a)
             (heaveAccelerationFilePath a) (accelerometerResolution a) (timestep a))
      else if Ascii.eqb (opt call) "e" then
        getCommandLineArguments calls'
          (mkArguments (heaveDisplacementFilePath a) (heaveMeasurementUncertainty a)
             (optarg call) (waveElevationUncertainty a)
             (heaveAccelerationFilePath a) (accelerometerResolution a) (timestep a))
      else if Ascii.eqb (opt call) "E" then
        getCommandLineArguments calls'
          (mkArguments (heaveDisplacementFilePath a) (heaveMeasurementUncertainty a)
             (waveElevationFilePath a) (fround binary32 (atof (optarg call)))
             (heaveAccelerationFilePath a) (accelerometerResolution a) (timestep a))
      else if Ascii.eqb (opt call) "a" then
        getCommandLineArguments calls'
          (mkArguments (heaveDisplacementFilePath a) (heaveMeasurementUncertainty a)
             (waveElevationFilePath a) (waveElevationUncertainty a)
             (optarg call) (accelerometerResolution a) (timestep a))
      else if Ascii.eqb (opt call) "A" then
        getCommandLineArguments calls'
          (mkArguments (heaveDisplacementFilePath a) (heaveMeasurementUncertainty a)
             (waveElevationFilePath a) (waveElevationUncertainty a)
             (heaveAccelerationFilePath a) (fround binary32 (atof (optarg call)))
             (timestep a))
      else if Ascii.eqb (opt call) "t" then
        let a :=
          mkArguments (heaveDisplacementFilePath a) (heaveMeasurementUncertainty a)
            (waveElevationFilePath a) (waveElevationUncertainty a)
            (heaveAccelerationFilePath a) (accelerometerResolution a)
            (fround binary32 (atof (optarg call))) in
        if SFeqb (timestep a) (S754_zero false) then
          ([LineInvalidTimestep (timestep a); LineUsage], Returns (1, a))
        else getCommandLineArguments calls' a
      else if Ascii.eqb (opt call) "h" then ([LineUsage], Exits 0)
      else if Ascii.eqb (opt call) ":" then
        ([LineMissingArgument (optopt call)], Returns (1, a))
      else if Ascii.eqb (opt call) "?" then
        ([LineInvalidOption (optopt call); LineUsage], Returns (1, a))
      else getCommandLineArguments calls' a
  end.

(** The loop [for (size_t i = 0; i <= size / 2; i += arrayInterval)] of
    [main]. Each unit of fuel pays for one iteration. *)
Fixpoint report_loop (fuel : nat) (i arrayInterval : Z) (timestep : float)
    (RAOsize size : Z) (cells : list float) : option (list ConsoleLine) :=
  if i <=? size / 2 then
    match fuel with
    | O => None
    | S fuel' =>
        let deltaF :=
          fdiv binary32 (of_Z binary32 1)
            (fmul binary32 timestep (of_Z binary32 RAOsize)) in
        let frequency := fmul binary32 deltaF (of_Z binary32 i) in
        density ← load cells i;
        lines ← report_loop fuel' (wrap size_bits (i + arrayInterval)) arrayInterval
                   timestep RAOsize size cells;
        Some (LineBin frequency density :: lines)
    end
  else Some [].

(** The value of the literal [0.1] stored in a [float]. *)
Definition f32_tenth : float :=
  fround binary32 (fdiv binary64 (of_Z binary64 1) (of_Z binary64 10)).

Definition main (calls : list GetoptCall)
  : World -> option (list ConsoleLine * Completion Z * World) :=
  let RAOBuffer := mkBuffer None 0 in
  let waveSpectrumEstimateBuffer := mkBuffer None 0 in
  let arguments :=
    mkArguments "testingHeave.csv" f32_tenth "testingWaveElevation.csv" f32_tenth
      "oceanHeaveAcceleration.csv" f32_tenth f32_tenth in
  let EXIT_PROGRAM (printed : list ConsoleLine) (returnValue : Z)
    : M (list ConsoleLine * Completion Z) :=
    freeHeapBuffer RAOBuffer;;
    freeHeapBuffer waveSpectrumEstimateBuffer;;
    ret (printed, Returns returnValue) in
  match getCommandLineArguments calls arguments with
  | (printed, Exits status) => ret (printed, Exits status)
  | (printed, Returns (returnCode, arguments)) =>
      if failed returnCode then EXIT_PROGRAM printed 1
      else
      let* (returnCode, RAOBuffer) :=
        characteriseRAO size_bits allocator filesystem pipes libUncertainFloatUniformDist
          cosf sinf acos RAOBuffer
          (heaveDisplacementFilePath arguments) (waveElevationFilePath arguments)
          (heaveMeasurementUncertainty arguments) (waveElevationUncertainty arguments)
          (timestep arguments) in
      if failed returnCode then EXIT_PROGRAM printed 1
      else
      let* (returnCode, waveSpectrumEstimateBuffer) :=
        estimateWaveSpectrum size_bits allocator filesystem pipes libUncertainFloatUniformDist
          integrate cosf sinf acos waveSpectrumEstimateBuffer RAOBuffer
          (heaveAccelerationFilePath arguments) (accelerometerResolution arguments)
          (timestep arguments) in
      if failed returnCode then EXIT_PROGRAM printed 1
      else
      match heapPointer waveSpectrumEstimateBuffer with
      | None => EXIT_PROGRAM printed 1
      | Some cells =>
          let maximumIndex := size waveSpectrumEstimateBuffer / 2 in
          let arrayInterval :=
            if maximumIndex >? kMaximumPrintLinesInOutput
            then maximumIndex / (kMaximumPrintLinesInOutput - 1)
            else 1 in
          let* lines :=
            lift (report_loop (S (Z.to_nat maximumIndex)) 0 arrayInterval
                    (timestep arguments) (size RAOBuffer)
                    (size waveSpectrumEstimateBuffer) cells) in
          EXIT_PROGRAM (printed ++ LineWaveSpectrum :: lines) 0
      end
  end.
End Program.

(** * Properties *)

(** ** [size_t] arithmetic and the rounding of sizes *)

Section SizeFacts.
Variable size_bits : positive.
Local Abbreviation w := (Z.pos size_bits).

Lemma SIZE_MAX_half : SIZE_MAX size_bits / 2 = 2 ^ (w - 1) - 1.
Proof.
  unfold SIZE_MAX.
  replace (2 ^ w) with (2 * 2 ^ (w - 1)).
  - assert (0 < 2 ^ (w - 1)) by (apply Z.pow_pos_nonneg; lia).
    symmetry. apply Z.div_unique with (r := 1); lia.
  - rewrite <- Z.pow_succ_r by lia. f_equal. lia.
Qed.

Lemma pow2_half_lt_modulus : 0 < 2 ^ (w - 1) < 2 ^ w.
Proof.
  split.
  - apply Z.pow_pos_nonneg; lia.
  - apply Z.pow_lt_mono_r; lia.
Qed.

Lemma maximumArgument_eq : wrap size_bits (SIZE_MAX size_bits / 2 + 1) = 2 ^ (w - 1).
Proof.
  rewrite SIZE_MAX_half. unfold wrap.
  replace (2 ^ (w - 1) - 1 + 1) with (2 ^ (w - 1)) by lia.
  apply Z.mod_small. pose proof pow2_half_lt_modulus. lia.
Qed.

Lemma wrap_small (n : Z) : 0 <= n <= 2 ^ (w - 1) -> wrap size_bits n = n.
Proof.
  intros Hn. unfold wrap. apply Z.mod_small. pose proof pow2_half_lt_modulus. lia.
Qed.

(** Doubling a power of two below [2 ^ (w - 1)] does not wrap. *)
Lemma wrap_double_pow2 (k : Z) :
  0 <= k < w - 1 -> wrap size_bits (2 ^ k * 2) = 2 ^ (k + 1).
Proof.
  intros Hk.
  replace (2 ^ k * 2) with (2 ^ (k + 1)) by (rewrite Z.pow_add_r by lia; reflexivity).
  apply wrap_small. split.
  - apply Z.pow_nonneg; lia.
  - apply Z.pow_le_mono_r; lia.
Qed.

(** The loop started at [2 ^ k], with [2 ^ (k - 1) < arg] unless [k = 0] and
    with the fuel to reach [2 ^ (w - 1)], stops at the first power of two
    that is not below [arg]. *)
Lemma doubling_loop_spec (fuel : nat) : forall (arg k : Z),
  0 <= k -> arg <= 2 ^ (w - 1) -> k + Z.of_nat fuel >= w - 1 ->
  (k = 0 \/ 2 ^ (k - 1) < arg) ->
  exists j, k <= j <= w - 1 /\
            doubling_loop size_bits fuel arg (2 ^ k) = Some (2 ^ j) /\
            arg <= 2 ^ j /\ (j = 0 \/ 2 ^ (j - 1) < arg).
Proof.
  induction fuel as [|fuel IH]; intros arg k Hk Harg Hfuel Hlow;
    assert (k <= w - 1) as Hkw
      by (destruct Hlow as [->|Hlow]; [lia|];
          assert (2 ^ (k - 1) < 2 ^ (w - 1)) as Hlt by lia;
          apply Z.pow_lt_mono_r_iff in Hlt; lia);
    simpl.
  - destruct (Z.ltb_spec (2 ^ k) arg) as [Hlt|Hge].
    + exfalso. assert (2 ^ (w - 1) <= 2 ^ k) by (apply Z.pow_le_mono_r; lia). lia.
    + exists k. repeat split; first [lia | assumption].
  - destruct (Z.ltb_spec (2 ^ k) arg) as [Hlt|Hge].
    + assert (k < w - 1).
      { destruct (Z.lt_ge_cases k (w - 1)) as [?|Hc]; [assumption|].
        assert (2 ^ (w - 1) <= 2 ^ k) by (apply Z.pow_le_mono_r; lia). lia. }
      rewrite wrap_double_pow2 by lia.
      destruct (IH arg (k + 1)) as (j & Hj & Hrun & Hup & Hmin); try lia.
      { right. replace (k + 1 - 1) with k by lia. assumption. }
      exists j. repeat split; first [lia | assumption].
    + exists k. repeat split; first [lia | assumption].
Qed.

(** Below the limit the rounding returns: the result is [2 ^ j] for the
    least [j] with [arg <= 2 ^ j]. *)
Lemma roundUp_in_range (arg : Z) :
  arg <= SIZE_MAX size_bits / 2 ->
  exists j, 0 <= j <= w - 1 /\
            roundUpToNextHighestPowerOfTwo size_bits arg = Some (2 ^ j) /\
            arg <= 2 ^ j /\ (j = 0 \/ 2 ^ (j - 1) < arg).
Proof.
  intros Harg. rewrite SIZE_MAX_half in Harg.
  unfold roundUpToNextHighestPowerOfTwo. rewrite maximumArgument_eq.
  destruct (Z.geb_spec arg (2 ^ (w - 1))) as [Hge|Hlt]; [lia|].
  change 1 with (2 ^ 0) at 2.
  destruct (doubling_loop_spec (Pos.to_nat size_bits) arg 0) as (j & Hj & Hrun & Hup & Hmin);
    try lia.
  exists j. repeat split; first [lia | assumption].
Qed.

Lemma roundUp_overflow (arg : Z) :
  SIZE_MAX size_bits / 2 < arg -> roundUpToNextHighestPowerOfTwo size_bits arg = Some 0.
Proof.
  intros Harg. rewrite SIZE_MAX_half in Harg.
  unfold roundUpToNextHighestPowerOfTwo. rewrite maximumArgument_eq.
  destruct (Z.geb_spec arg (2 ^ (w - 1))) as [Hge|Hlt]; [reflexivity|lia].
Qed.

Lemma roundUp_zero : roundUpToNextHighestPowerOfTwo size_bits 0 = Some 1.
Proof.
  unfold roundUpToNextHighestPowerOfTwo. rewrite maximumArgument_eq.
  pose proof pow2_half_lt_modulus.
  destruct (Z.geb_spec 0 (2 ^ (w - 1))) as [Hge|Hlt]; [lia|].
  destruct (Pos.to_nat size_bits); reflexivity.
Qed.

(** A power of two below the limit is its own rounding. *)
Lemma roundUp_pow2 (k : Z) :
  0 <= k -> 2 ^ k <= SIZE_MAX size_bits / 2 ->
  roundUpToNextHighestPowerOfTwo size_bits (2 ^ k) = Some (2 ^ k).
Proof.
  intros Hk Hle.
  destruct (roundUp_in_range (2 ^ k) Hle) as (j & Hj & Hrun & Hup & Hmin).
  rewrite Hrun. f_equal. f_equal.
  apply Z.pow_le_mono_r_iff in Hup; try lia.
  destruct Hmin as [->|Hmin]; [lia|].
  apply Z.pow_lt_mono_r_iff in Hmin; lia.
Qed.

(** The result of the rounding is minimal among the powers of two. *)
Lemma pow2_minimal (arg j i : Z) :
  0 <= j -> (j = 0 \/ 2 ^ (j - 1) < arg) -> 0 <= i -> arg <= 2 ^ i -> 2 ^ j <= 2 ^ i.
Proof.
  intros Hj Hmin Hi Hle. apply Z.pow_le_mono_r; [lia|].
  destruct Hmin as [->|Hmin]; [lia|].
  assert (2 ^ (j - 1) < 2 ^ i) as Hlt by lia.
  apply Z.pow_lt_mono_r_iff in Hlt; lia.
Qed.
End SizeFacts.

(** C6. Between 1 and half the largest size the rounding returns the least
    power of two that is not below its argument, so 1 for 1 and 8 for 5 where
    these are in range; above half the largest size it returns the overflow
    value 0. *)
Theorem roundUp_least_power_of_two (size_bits : positive) (n : Z) :
  (1 <= n <= SIZE_MAX size_bits / 2 ->
   exists j, 0 <= j /\
     roundUpToNextHighestPowerOfTwo size_bits n = Some (2 ^ j) /\
     n <= 2 ^ j /\
     forall i, 0 <= i -> n <= 2 ^ i -> 2 ^ j <= 2 ^ i) /\
  (SIZE_MAX size_bits / 2 < n -> roundUpToNextHighestPowerOfTwo size_bits n = Some 0) /\
  (1 <= SIZE_MAX size_bits / 2 -> roundUpToNextHighestPowerOfTwo size_bits 1 = Some 1) /\
  (5 <= SIZE_MAX size_bits / 2 -> roundUpToNextHighestPowerOfTwo size_bits 5 = Some 8).
Proof.
  repeat split.
  - intros [_ Hn].
    destruct (roundUp_in_range size_bits n Hn) as (j & Hj & Hrun & Hup & Hmin).
    exists j. repeat split; try lia; try assumption.
    intros i Hi Hle. apply (pow2_minimal n); lia || assumption.
  - apply roundUp_overflow.
  - intros H1. apply (roundUp_pow2 size_bits 0); [lia|exact H1].
  - intros H5.
    destruct (roundUp_in_range size_bits 5 H5) as (j & Hj & Hrun & Hup & Hmin).
    rewrite Hrun. f_equal.
    assert (2 ^ j <= 2 ^ 3) as Hj3 by (apply (pow2_minimal 5); lia || assumption).
    apply Z.pow_le_mono_r_iff in Hj3; try lia.
    assert (j = 0 \/ j = 1 \/ j = 2 \/ j = 3) as Hcases by lia.
    destruct Hcases as [-> | [-> | [-> | ->]]]; simpl in *; lia.
Qed.

Lemma roundUp_least_power_of_two_witness :
  1 <= 5 <= SIZE_MAX 64 / 2 /\
  exists j, 0 <= j /\
    roundUpToNextHighestPowerOfTwo 64 5 = Some (2 ^ j) /\
    5 <= 2 ^ j /\
    forall i, 0 <= i -> 5 <= 2 ^ i -> 2 ^ j <= 2 ^ i.
Proof.
  assert (1 <= 5 <= SIZE_MAX 64 / 2) as H by (vm_compute; split; discriminate).
  split; [exact H|].
  exact (proj1 (roundUp_least_power_of_two 64 5) H).
Defined.

(** C7, as the code has it. The rounding of 0 is 1, not the overflow value;
    among the sizes the overflow value 0 is returned exactly above half the
    largest size. *)
Theorem roundUp_zero_is_one (size_bits : positive) :
  roundUpToNextHighestPowerOfTwo size_bits 0 = Some 1 /\
  forall n, 0 <= n <= SIZE_MAX size_bits ->
    (roundUpToNextHighestPowerOfTwo size_bits n = Some 0 <-> SIZE_MAX size_bits / 2 < n).
Proof.
  split; [apply roundUp_zero|].
  intros n Hn. split.
  - intros Hzero.
    destruct (Z.lt_ge_cases (SIZE_MAX size_bits / 2) n) as [?|Hle]; [assumption|].
    destruct (roundUp_in_range size_bits n Hle) as (j & Hj & Hrun & _).
    rewrite Hrun in Hzero. injection Hzero as Hzero.
    assert (0 < 2 ^ j) by (apply Z.pow_pos_nonneg; lia). lia.
  - apply roundUp_overflow.
Qed.

Lemma roundUp_zero_is_one_witness :
  0 <= 7 <= SIZE_MAX 64 /\
  (roundUpToNextHighestPowerOfTwo 64 7 = Some 0 <-> SIZE_MAX 64 / 2 < 7).
Proof.
  assert (0 <= 7 <= SIZE_MAX 64) as H by (vm_compute; split; discriminate).
  split; [exact H|].
  exact (proj2 (roundUp_zero_is_one 64) 7 H).
Defined.

(** C7, as the spec has it, fails: the rounding of 0 is not the overflow
    value. *)
Lemma roundUp_zero_not_overflow :
  roundUpToNextHighestPowerOfTwo 64 0 <> Some 0.
Proof. vm_compute. discriminate. Qed.

(** ** Blocks and loops *)

Lemma load_lookup {A : Type} (p : list A) (i : Z) :
  0 <= i -> load p i = p !! Z.to_nat i.
Proof. intros Hi. unfold load. destruct (Z.leb_spec 0 i); [reflexivity|lia]. Qed.

Lemma load_in_range {A : Type} (p : list A) (i : Z) :
  0 <= i < Z.of_nat (length p) -> exists v, load p i = Some v /\ p !! Z.to_nat i = Some v.
Proof.
  intros Hi. rewrite load_lookup by lia.
  destruct (lookup_lt_is_Some_2 p (Z.to_nat i)) as [v Hv]; [lia|].
  exists v. split; assumption.
Qed.

Lemma store_in_range {A : Type} (p : list A) (i : Z) (v : A) :
  0 <= i < Z.of_nat (length p) -> store p i v = Some (<[Z.to_nat i := v]> p).
Proof.
  intros Hi. unfold store.
  destruct (Z.leb_spec 0 i); [|lia].
  destruct (Z.ltb_spec i (Z.of_nat (length p))); [reflexivity|lia].
Qed.

Lemma for_loop_succ {S : Type} (count : nat) (i : Z) (body : Z -> S -> option S) (s : S) :
  for_loop (Datatypes.S count) i body s = body i s ≫= for_loop count (i + 1) body.
Proof. reflexivity. Qed.

(** Two bodies that agree on the indices of the run give the same run. *)
Lemma for_loop_ext {S : Type} (body body' : Z -> S -> option S) (count : nat) :
  forall (first : Z) (s : S),
    (forall i s, first <= i < first + Z.of_nat count -> body i s = body' i s) ->
    for_loop count first body s = for_loop count first body' s.
Proof.
  induction count as [|count IH]; intros first s Hext; [reflexivity|].
  rewrite !for_loop_succ. rewrite Hext by lia.
  destruct (body' first s) as [s'|]; [|reflexivity]. simpl.
  apply IH. intros i s0 Hi. apply Hext. lia.
Qed.

(** A loop whose iteration [i] stores [f i] in cell [i], and which may read
    the cells it has not yet written, fills the cells of its range with [f]
    and leaves the others as they were. *)
Lemma for_loop_fill {A : Type} (body : Z -> list A -> option (list A)) (f : Z -> A)
    (count : nat) :
  forall (first : Z) (cells : list A),
    0 <= first -> first + Z.of_nat count <= Z.of_nat (length cells) ->
    (forall i cur, first <= i < first + Z.of_nat count ->
       length cur = length cells ->
       (forall j, (Z.to_nat i <= j)%nat -> cur !! j = cells !! j) ->
       body i cur = store cur i (f i)) ->
    exists cells', for_loop count first body cells = Some cells' /\
      length cells' = length cells /\
      (forall i, first <= i < first + Z.of_nat count ->
         cells' !! Z.to_nat i = Some (f i)) /\
      (forall j, (j < Z.to_nat first \/ Z.to_nat first + count <= j)%nat ->
         cells' !! j = cells !! j).
Proof.
  induction count as [|count IH]; intros first cells Hfirst Hlen Hbody.
  - exists cells. split; [reflexivity|]. split; [reflexivity|].
    split; [intros i Hi; lia | intros j Hj; reflexivity].
  - rewrite for_loop_succ.
    rewrite Hbody by (reflexivity || lia).
    rewrite store_in_range by lia. simpl.
    destruct (IH (first + 1) (<[Z.to_nat first := f first]> cells))
      as (cells' & Hrun & Hlen' & Hin & Hout).
    + lia.
    + rewrite length_insert. lia.
    + intros i cur Hi Hcur Hsame. apply Hbody.
      * lia.
      * rewrite Hcur. apply length_insert.
      * intros j Hj. rewrite Hsame by lia. apply list_lookup_insert_ne. lia.
    + exists cells'. split; [exact Hrun|]. split.
      { rewrite Hlen'. apply length_insert. }
      split.
      * intros i Hi. destruct (Z.eq_dec i first) as [->|Hne].
        -- rewrite Hout by lia. apply list_lookup_insert_eq. lia.
        -- apply Hin. lia.
      * intros j Hj. rewrite Hout by lia. apply list_lookup_insert_ne. lia.
Qed.

(** ** waveEstimation.c *)

Lemma elementWiseDivide_spec (result numerator denominator : list float) (N : Z) :
  0 <= N ->
  N <= Z.of_nat (length numerator) -> N <= Z.of_nat (length denominator) ->
  N <= Z.of_nat (length result) ->
  exists result',
    elementWiseDivide result numerator denominator N = Some result' /\
    length result' = length result /\
    (forall i n d, (i < Z.to_nat N)%nat ->
       numerator !! i = Some n -> denominator !! i = Some d ->
       result' !! i =
         Some (if SFeqb d (S754_zero false) then S754_infinity false
               else fdiv binary32 n d)) /\
    (forall i, (Z.to_nat N <= i)%nat -> result' !! i = result !! i).
Proof.
  intros HN Hnum Hden Hres. unfold elementWiseDivide.
  destruct (for_loop_fill
              (fun i result =>
                 d ← load denominator i;
                 if SFeqb d (S754_zero false) then store result i (S754_infinity false)
                 else n ← load numerator i; store result i (fdiv binary32 n d))
              (fun i =>
                 let n := default (S754_zero false) (numerator !! Z.to_nat i) in
                 let d := default (S754_zero false) (denominator !! Z.to_nat i) in
                 if SFeqb d (S754_zero false) then S754_infinity false
                 else fdiv binary32 n d)
              (Z.to_nat N) 0 result) as (result' & Hrun & Hlen & Hin & Hout).
  - lia.
  - lia.
  - intros i cur Hi _ _.
    destruct (load_in_range denominator i) as (d & Hd & Hd'); [lia|].
    destruct (load_in_range numerator i) as (n & Hn & Hn'); [lia|].
    rewrite Hd, Hd', Hn'. simpl.
    destruct (SFeqb d (S754_zero false)); [reflexivity|].
    rewrite Hn. reflexivity.
  - exists result'. split; [exact Hrun|]. split; [exact Hlen|]. split.
    + intros i n d Hi Hn Hd.
      specialize (Hin (Z.of_nat i)). rewrite Nat2Z.id in Hin.
      rewrite Hin by lia. rewrite Hn, Hd. reflexivity.
    + intros i Hi. apply Hout. lia.
Qed.

(** C4. On two sequences of [N] bins each, every bin of the result is
    +infinity where the denominator compares equal to zero and the quotient
    elsewhere; against a denominator that is zero in every bin the result is
    +infinity in every bin. *)
Theorem elementWiseDivide_ratio (result numerator denominator : list float) (N : Z) :
  N = Z.of_nat (length numerator) -> N = Z.of_nat (length denominator) ->
  N <= Z.of_nat (length result) ->
  exists result',
    elementWiseDivide result numerator denominator N = Some result' /\
    length result' = length result /\
    (forall i n d,
       numerator !! i = Some n -> denominator !! i = Some d ->
       result' !! i =
         Some (if SFeqb d (S754_zero false) then S754_infinity false
               else fdiv binary32 n d)) /\
    (Forall (fun d => SFeqb d (S754_zero false) = true) denominator ->
     take (Z.to_nat N) result' = replicate (Z.to_nat N) (S754_infinity false)).
Proof.
  intros Hnum Hden Hres.
  destruct (elementWiseDivide_spec result numerator denominator N)
    as (result' & Hrun & Hlen & Hin & Hout); try lia.
  exists result'. split; [exact Hrun|]. split; [exact Hlen|]. split.
  - intros i n d Hn Hd. apply Hin; [|assumption|assumption].
    apply lookup_lt_Some in Hn. lia.
  - intros Hzero. apply list_eq. intros i.
    destruct (Nat.lt_ge_cases i (Z.to_nat N)) as [Hi|Hi].
    + rewrite lookup_take_lt by lia.
      destruct (lookup_lt_is_Some_2 numerator i) as [n Hn]; [lia|].
      destruct (lookup_lt_is_Some_2 denominator i) as [d Hd]; [lia|].
      rewrite (Hin i n d Hi Hn Hd).
      rewrite Forall_lookup in Hzero. rewrite (Hzero i d Hd).
      symmetry. apply lookup_replicate_2. lia.
    + rewrite lookup_take_ge by lia.
      symmetry. apply lookup_ge_None_2. rewrite length_replicate. lia.
Qed.

Lemma elementWiseDivide_ratio_witness :
  exists result',
    elementWiseDivide [S754_zero false; S754_zero false] [f32_one; f32_two]
      [f32_two; S754_zero false] 2 = Some result' /\
    length result' = 2%nat /\
    (forall i n d,
       [f32_one; f32_two] !! i = Some n -> [f32_two; S754_zero false] !! i = Some d ->
       result' !! i =
         Some (if SFeqb d (S754_zero false) then S754_infinity false
               else fdiv binary32 n d)) /\
    (Forall (fun d => SFeqb d (S754_zero false) = true) [f32_two; S754_zero false] ->
     take (Z.to_nat 2) result' = replicate (Z.to_nat 2) (S754_infinity false)).
Proof.
  apply (elementWiseDivide_ratio [S754_zero false; S754_zero false] [f32_one; f32_two]
           [f32_two; S754_zero false] 2); simpl; lia.
Defined.

(** A loop whose iterations all have a result and keep an invariant has a
    result, which satisfies the invariant. *)
Lemma for_loop_invariant {S : Type} (P : S -> Prop) (body : Z -> S -> option S)
    (count : nat) :
  forall (first : Z) (s : S),
    P s ->
    (forall i s, first <= i < first + Z.of_nat count -> P s ->
       exists s', body i s = Some s' /\ P s') ->
    exists s', for_loop count first body s = Some s' /\ P s'.
Proof.
  induction count as [|count IH]; intros first s Hs Hbody.
  - exists s. split; [reflexivity|assumption].
  - rewrite for_loop_succ.
    destruct (Hbody first s) as (s1 & Hrun & Hs1); [lia|assumption|].
    rewrite Hrun. simpl. apply IH; [assumption|].
    intros i s0 Hi. apply Hbody. lia.
Qed.

(** ** signalProcessing.c *)

Lemma periodogram_spec (S F : list float) (N : Z) :
  0 <= N -> N <= Z.of_nat (length F) -> N <= Z.of_nat (length S) ->
  exists S',
    periodogram S F N = Some S' /\
    length S' = length S /\
    (forall i f, (i < Z.to_nat N)%nat -> F !! i = Some f ->
       S' !! i = Some (fmul binary32 f f)) /\
    (forall i, (Z.to_nat N <= i)%nat -> S' !! i = S !! i).
Proof.
  intros HN HF HS. unfold periodogram.
  destruct (for_loop_fill
              (fun i S => f ← load F i; store S i (fmul binary32 f f))
              (fun i => let f := default (S754_zero false) (F !! Z.to_nat i) in
                        fmul binary32 f f)
              (Z.to_nat N) 0 S) as (S' & Hrun & Hlen & Hin & Hout).
  - lia.
  - lia.
  - intros i cur Hi _ _.
    destruct (load_in_range F i) as (f & Hf & Hf'); [lia|].
    rewrite Hf, Hf'. reflexivity.
  - exists S'. split; [exact Hrun|]. split; [exact Hlen|]. split.
    + intros i f Hi Hf.
      specialize (Hin (Z.of_nat i)). rewrite Nat2Z.id in Hin.
      rewrite Hin by lia. rewrite Hf. reflexivity.
    + intros i Hi. apply Hout. lia.
Qed.

Section TransformFacts.
Variable size_bits : positive.
Variables cosf sinf : float -> float.
Variable acos : double -> double.
Local Abbreviation w := (Z.pos size_bits).

(** One butterfly on a block that holds both cells has a result of the
    same length. *)
Lemma butterfly_total (Fo N k : Z) (F : list Complex) :
  0 <= Fo -> 0 <= k < N / 2 -> N <= 2 ^ (w - 1) ->
  Fo + N <= Z.of_nat (length F) ->
  exists F', butterfly size_bits cosf sinf acos Fo N k F = Some F' /\
             length F' = length F.
Proof.
  intros HFo Hk HN HF.
  assert (2 * (N / 2) <= N /\ N / 2 <= N) by (Z.div_mod_to_equations; lia).
  unfold butterfly. rewrite (wrap_small size_bits (k + N / 2)) by lia.
  destruct (load_in_range F (Fo + k)) as (p & Hp & _); [lia|].
  destruct (load_in_range F (Fo + (k + N / 2))) as (q & Hq & _); [lia|].
  rewrite Hp, Hq. simpl.
  rewrite store_in_range by lia. simpl.
  rewrite store_in_range by (rewrite length_insert; lia).
  eexists. split; [reflexivity|]. rewrite !length_insert. reflexivity.
Qed.

(** On a power of two [2 ^ n], with more than [n] units of fuel, with the
    [2 ^ n] output cells inside the block of [F] and the [2 ^ n] strided
    input cells inside the block of [x], the transform has a result. *)
Lemma dit2FFT_total (x : list Complex) (n : nat) :
  forall (fuel : nat) (F : list Complex) (Fo xo stride : Z),
    (n < fuel)%nat ->
    0 <= Fo -> Fo + 2 ^ Z.of_nat n <= Z.of_nat (length F) ->
    0 <= xo -> 0 <= stride ->
    xo + (2 ^ Z.of_nat n - 1) * stride < Z.of_nat (length x) ->
    2 ^ Z.of_nat n * stride <= 2 ^ (w - 1) ->
    2 ^ Z.of_nat n <= 2 ^ (w - 1) ->
    exists F',
      dit2FFT size_bits cosf sinf acos fuel F Fo x xo (2 ^ Z.of_nat n) stride = Some F' /\
      length F' = length F.
Proof.
  induction n as [|n IH]; intros fuel F Fo xo stride Hfuel HFo HF Hxo Hstride Hx Hwrap HN;
    (destruct fuel as [|fuel]; [lia|]); simpl dit2FFT.
  - change (2 ^ Z.of_nat 0) with 1 in *. simpl.
    destruct (load_in_range x xo) as (x0 & Hx0 & _); [lia|].
    rewrite Hx0. simpl. rewrite store_in_range by lia.
    eexists. split; [reflexivity|]. apply length_insert.
  - assert (2 ^ Z.of_nat (S n) = 2 * 2 ^ Z.of_nat n) as Hpow
      by (rewrite Nat2Z.inj_succ, Z.pow_succ_r by lia; reflexivity).
    assert (0 < 2 ^ Z.of_nat n) as Hpos by (apply Z.pow_pos_nonneg; lia).
    rewrite Hpow in *.
    assert (2 * 2 ^ Z.of_nat n / 2 = 2 ^ Z.of_nat n) as Hhalf
      by (rewrite Z.mul_comm; apply Z.div_mul; lia).
    rewrite Hhalf.
    destruct (Z.eqb_spec (2 * 2 ^ Z.of_nat n) 1) as [?|_]; [lia|].
    assert (wrap size_bits (2 * stride) = 2 * stride) as Hstride2.
    { apply wrap_small. split; [lia|]. nia. }
    rewrite Hstride2.
    destruct (IH fuel F Fo xo (2 * stride)) as (F1 & HF1 & Hlen1); try lia; try nia.
    rewrite HF1. simpl.
    destruct (IH fuel F1 (Fo + 2 ^ Z.of_nat n) (xo + stride) (2 * stride))
      as (F2 & HF2 & Hlen2); try lia; try nia.
    rewrite HF2. simpl.
    destruct (for_loop_invariant (fun cur => length cur = length F)
                (butterfly size_bits cosf sinf acos Fo (2 * 2 ^ Z.of_nat n))
                (Z.to_nat (2 ^ Z.of_nat n)) 0 F2) as (F3 & HF3 & Hlen3).
    + congruence.
    + intros i cur Hi Hcur.
      destruct (butterfly_total Fo (2 * 2 ^ Z.of_nat n) i cur) as (cur' & Hrun & Hlen');
        try lia.
      exists cur'. split; [exact Hrun|congruence].
    + exists F3. split; assumption.
Qed.
End TransformFacts.

(** ** Computations on the world *)

Lemma bind_Some {A B : Type} (m : M A) (k : A -> M B) (wd wd' : World) (a : A)
    (r : option (B * World)) :
  m wd = Some (a, wd') -> k a wd' = r -> bind m k wd = r.
Proof. intros H <-. unfold bind. rewrite H. reflexivity. Qed.

Lemma lift_Some {A : Type} (o : option A) (a : A) (wd : World) :
  o = Some a -> lift o wd = Some (a, wd).
Proof. intros ->. reflexivity. Qed.

Lemma bind_cong {A B : Type} (m : M A) (k k' : A -> M B) (wd : World) :
  (forall a wd', k a wd' = k' a wd') -> bind m k wd = bind m k' wd.
Proof. intros H. unfold bind. destruct (m wd) as [[a wd']|]; [apply H|reflexivity]. Qed.

(** Runs the first computation of a sequence, given a tactic that proves
    what it yields. *)
Ltac mstep tac := eapply bind_Some; [tac | cbv beta iota].

Section MFacts.
Variable size_bits : positive.
Variable allocator : nat -> AllocOutcome.
Variables cosf sinf : float -> float.
Variable acos : double -> double.
Local Abbreviation w := (Z.pos size_bits).

Lemma calloc_granted {A : Type} (zero : A) (nmemb : Z) (wd : World) :
  granted (allocator (allocations wd)) = true ->
  calloc allocator zero nmemb wd =
    Some (Some (replicate (Z.to_nat nmemb) zero),
          mkWorld (S (allocations wd)) (draws wd) (trace wd ++ [EvCalloc nmemb true])).
Proof. intros Hg. unfold calloc. rewrite Hg. reflexivity. Qed.

Lemma fft_spec (F x : list float) (N sz : Z) (wd : World) :
  granted (allocator (allocations wd)) = true ->
  granted (allocator (S (allocations wd))) = true ->
  roundUpToNextHighestPowerOfTwo size_bits N = Some sz ->
  N <= SIZE_MAX size_bits / 2 ->
  0 <= N <= Z.of_nat (length x) ->
  sz <= Z.of_nat (length F) ->
  exists Fcplx F',
    fft size_bits allocator cosf sinf acos F x N wd =
      Some ((0, F'),
            mkWorld (S (S (allocations wd))) (draws wd)
              (trace wd ++ [EvCalloc sz true; EvCalloc sz true; EvFree; EvFree])) /\
    length F' = length F /\
    Z.of_nat (length Fcplx) = sz /\
    (forall i c, Fcplx !! i = Some c -> F' !! i = Some (complexMagnitude c)) /\
    (forall i, (Z.to_nat sz <= i)%nat -> F' !! i = F !! i).
Proof.
  intros Hg1 Hg2 Hround HN Hx HF.
  destruct (roundUp_in_range size_bits N HN) as (j & Hj & Hrun & Hup & _).
  rewrite Hround in Hrun. injection Hrun as ->.
  assert (0 < 2 ^ j) as Hpos by (apply Z.pow_pos_nonneg; lia).
  assert (2 ^ j <= 2 ^ (w - 1)) as Hmax by (apply Z.pow_le_mono_r; lia).
  set (czero := mkComplex (S754_zero false) (S754_zero false)).
  (* the copy of the samples into the padded block *)
  destruct (for_loop_invariant
              (fun cur : list Complex => Z.of_nat (length cur) = 2 ^ j)
              (fun i paddedX =>
                 v ← load x i; c ← load paddedX i;
                 store paddedX i (mkComplex v (imaginary c)))
              (Z.to_nat N) 0 (replicate (Z.to_nat (2 ^ j)) czero))
    as (paddedX & HpaddedX & HlenX).
  { rewrite length_replicate. lia. }
  { intros i cur Hi Hcur.
    destruct (load_in_range x i) as (v & Hv & _); [lia|].
    destruct (load_in_range cur i) as (c & Hc & _); [lia|].
    rewrite Hv, Hc. simpl. rewrite store_in_range by lia.
    eexists. split; [reflexivity|]. rewrite length_insert. exact Hcur. }
  (* the transform *)
  destruct (dit2FFT_total size_bits cosf sinf acos paddedX (Z.to_nat j)
              (S (Pos.to_nat size_bits)) (replicate (Z.to_nat (2 ^ j)) czero) 0 0 1)
    as (Fcplx & HFcplx & HlenF); rewrite ?Z2Nat.id, ?length_replicate by lia; try lia.
  rewrite Z2Nat.id in HFcplx by lia. rewrite length_replicate in HlenF.
  (* the magnitudes *)
  destruct (for_loop_fill
              (fun i F => c ← load Fcplx i; store F i (complexMagnitude c))
              (fun i => complexMagnitude (default czero (Fcplx !! Z.to_nat i)))
              (Z.to_nat (2 ^ j)) 0 F) as (F' & HF' & HlenF' & Hin & Hout); try lia.
  { intros i cur Hi _ _.
    destruct (load_in_range Fcplx i) as (c & Hc & Hc'); [lia|].
    rewrite Hc, Hc'. reflexivity. }
  exists Fcplx, F'. split; [|split; [exact HlenF'|split; [lia|split]]].
  - unfold fft.
    mstep ltac:(apply lift_Some; exact Hround).
    mstep ltac:(apply calloc_granted; exact Hg1).
    mstep ltac:(apply calloc_granted; exact Hg2).
    mstep ltac:(apply lift_Some; exact HpaddedX).
    mstep ltac:(apply lift_Some; exact HFcplx).
    mstep ltac:(apply lift_Some; exact HF').
    unfold bind, free, emit, ret. simpl. rewrite <- !app_assoc. reflexivity.
  - intros i c Hc.
    assert (i < length Fcplx)%nat as Hi by (apply lookup_lt_Some in Hc; exact Hc).
    specialize (Hin (Z.of_nat i)). rewrite Nat2Z.id in Hin.
    rewrite Hin by lia. rewrite Hc. reflexivity.
  - intros i Hi. apply Hout. lia.
Qed.

Lemma calculatePowerSpectrum_spec (powerSpectrum x : list float) (N sz : Z) (wd : World) :
  granted (allocator (allocations wd)) = true ->
  granted (allocator (S (allocations wd))) = true ->
  granted (allocator (S (S (allocations wd)))) = true ->
  roundUpToNextHighestPowerOfTwo size_bits N = Some sz ->
  N <= SIZE_MAX size_bits / 2 ->
  0 <= N <= Z.of_nat (length x) ->
  sz <= Z.of_nat (length powerSpectrum) ->
  exists F S,
    fft size_bits allocator cosf sinf acos (replicate (Z.to_nat sz) (S754_zero false)) x N
      (mkWorld (Datatypes.S (allocations wd)) (draws wd)
         (trace wd ++ [EvCalloc sz true])) =
      Some ((0, F),
            mkWorld (3 + allocations wd) (draws wd)
              (trace wd ++ [EvCalloc sz true; EvCalloc sz true; EvCalloc sz true;
                            EvFree; EvFree])) /\
    Z.of_nat (length F) = sz /\
    calculatePowerSpectrum size_bits allocator cosf sinf acos powerSpectrum x N wd =
      Some ((0, S),
            mkWorld (3 + allocations wd) (draws wd)
              (trace wd ++ [EvCalloc sz true; EvCalloc sz true; EvCalloc sz true;
                            EvFree; EvFree; EvFree])) /\
    length S = length powerSpectrum /\
    (forall i f, F !! i = Some f -> S !! i = Some (fmul binary32 f f)) /\
    (forall i, (Z.to_nat sz <= i)%nat -> S !! i = powerSpectrum !! i).
Proof.
  intros Hg1 Hg2 Hg3 Hround HN Hx Hps.
  assert (0 <= sz) as Hsz.
  { destruct (roundUp_in_range size_bits N HN) as (j & Hj & Hrun & _).
    rewrite Hround in Hrun. injection Hrun as ->. apply Z.pow_nonneg. lia. }
  destruct (fft_spec (replicate (Z.to_nat sz) (S754_zero false)) x N sz
              (mkWorld (S (allocations wd)) (draws wd) (trace wd ++ [EvCalloc sz true])))
    as (Fcplx & F & Hfft & HlenF & _ & _ & _); try assumption.
  { rewrite length_replicate. lia. }
  rewrite length_replicate in HlenF. simpl in Hfft. rewrite <- app_assoc in Hfft.
  destruct (periodogram_spec powerSpectrum F sz) as (S & HS & HlenS & Hin & Hout);
    try lia.
  exists F, S. split; [exact Hfft|]. split; [lia|]. split; [|split; [exact HlenS|split]].
  - unfold calculatePowerSpectrum.
    mstep ltac:(apply lift_Some; exact Hround).
    mstep ltac:(apply calloc_granted; exact Hg1).
    mstep ltac:(exact Hfft).
    change (failed 0) with false. cbv iota.
    mstep ltac:(apply lift_Some; exact HS).
    unfold bind, free, emit, ret. simpl. rewrite <- !app_assoc. reflexivity.
  - intros i f Hf. apply Hin; [|exact Hf]. apply lookup_lt_Some in Hf. lia.
  - exact Hout.
Qed.
End MFacts.

(** C5. For a series of [N] samples whose rounded size [sz] is defined, the
    power spectrum is computed and fills exactly [sz] bins of its buffer; bin
    [i] is the square of bin [i] of the magnitude spectrum that [fft] gives
    for the same [N] samples, with no other factor and no change to the
    samples. *)
Theorem calculatePowerSpectrum_squares_magnitudes
    (size_bits : positive) (allocator : nat -> AllocOutcome)
    (cosf sinf : float -> float) (acos : double -> double)
    (powerSpectrum timeSeriesData : list float) (N sz : Z) (wd : World) :
  granted (allocator (allocations wd)) = true ->
  granted (allocator (S (allocations wd))) = true ->
  granted (allocator (S (S (allocations wd)))) = true ->
  0 <= N <= SIZE_MAX size_bits / 2 ->
  roundUpToNextHighestPowerOfTwo size_bits N = Some sz ->
  N <= Z.of_nat (length timeSeriesData) ->
  sz <= Z.of_nat (length powerSpectrum) ->
  exists (F S : list float) (wd1 wd2 : World),
    fft size_bits allocator cosf sinf acos (replicate (Z.to_nat sz) (S754_zero false))
      timeSeriesData N
      (mkWorld (Datatypes.S (allocations wd)) (draws wd) (trace wd ++ [EvCalloc sz true])) =
      Some ((0, F), wd1) /\
    calculatePowerSpectrum size_bits allocator cosf sinf acos powerSpectrum
      timeSeriesData N wd = Some ((0, S), wd2) /\
    Z.of_nat (length F) = sz /\
    length S = length powerSpectrum /\
    (forall i f, F !! i = Some f -> S !! i = Some (fmul binary32 f f)) /\
    take (Z.to_nat sz) S = map (fun f => fmul binary32 f f) F /\
    drop (Z.to_nat sz) S = drop (Z.to_nat sz) powerSpectrum.
Proof.
  intros Hg1 Hg2 Hg3 HN Hround Hx Hps.
  destruct (calculatePowerSpectrum_spec size_bits allocator cosf sinf acos
              powerSpectrum timeSeriesData N sz wd)
    as (F & S & Hfft & HlenF & Hrun & HlenS & Hin & Hout); try assumption; try lia.
  exists F, S. do 2 eexists.
  split; [exact Hfft|]. split; [exact Hrun|]. split; [exact HlenF|].
  split; [exact HlenS|]. split; [exact Hin|]. split.
  - apply list_eq. intros i. rewrite list_lookup_fmap.
    destruct (F !! i) as [f|] eqn:Hf.
    + rewrite lookup_take_lt by (apply lookup_lt_Some in Hf; lia).
      apply Hin. exact Hf.
    + apply lookup_ge_None in Hf. rewrite lookup_take_ge by lia. reflexivity.
  - apply list_eq. intros i. rewrite !lookup_drop. apply Hout. lia.
Qed.

Lemma calculatePowerSpectrum_squares_magnitudes_witness :
  exists (F S : list float) (wd1 wd2 : World),
    fft 64 allocator_zeroing cosf_series sinf_series acos_minus_one
      (replicate (Z.to_nat 4) (S754_zero false)) [f32_one; f32_two; f32_one] 3
      (mkWorld 1 0 [EvCalloc 4 true]) = Some ((0, F), wd1) /\
    calculatePowerSpectrum 64 allocator_zeroing cosf_series sinf_series acos_minus_one
      (replicate 4 f32_one) [f32_one; f32_two; f32_one] 3 world0 = Some ((0, S), wd2) /\
    Z.of_nat (length F) = 4 /\
    length S = 4%nat /\
    (forall i f, F !! i = Some f -> S !! i = Some (fmul binary32 f f)) /\
    take (Z.to_nat 4) S = map (fun f => fmul binary32 f f) F /\
    drop (Z.to_nat 4) S = drop (Z.to_nat 4) (replicate 4 f32_one).
Proof.
  apply (calculatePowerSpectrum_squares_magnitudes 64 allocator_zeroing cosf_series
           sinf_series acos_minus_one (replicate 4 f32_one) [f32_one; f32_two; f32_one]
           3 4 world0); try reflexivity; simpl; try lia.
  vm_compute. split; discriminate.
Defined.

(** C10. On a series of no samples the power spectrum does not fail where
    the allocator grants its three requests: the rounded size of 0 is 1, the
    return code is 0, nothing is printed, and the one bin written holds 0.0. *)
Theorem calculatePowerSpectrum_empty_series
    (size_bits : positive) (allocator : nat -> AllocOutcome)
    (cosf sinf : float -> float) (acos : double -> double)
    (bin : float) (beyond timeSeriesData : list float) (wd : World) :
  granted (allocator (allocations wd)) = true ->
  granted (allocator (S (allocations wd))) = true ->
  granted (allocator (S (S (allocations wd)))) = true ->
  roundUpToNextHighestPowerOfTwo size_bits 0 = Some 1 /\
  calculatePowerSpectrum size_bits allocator cosf sinf acos (bin :: beyond)
    timeSeriesData 0 wd =
    Some ((0, S754_zero false :: beyond),
          mkWorld (3 + allocations wd) (draws wd)
            (trace wd ++ [EvCalloc 1 true; EvCalloc 1 true; EvCalloc 1 true;
                          EvFree; EvFree; EvFree])).
Proof.
  intros Hg1 Hg2 Hg3. split; [apply roundUp_zero|].
  unfold calculatePowerSpectrum.
  mstep ltac:(apply lift_Some; apply roundUp_zero).
  mstep ltac:(apply calloc_granted; exact Hg1).
  unfold fft.
  mstep ltac:(mstep ltac:(apply lift_Some; apply roundUp_zero);
              mstep ltac:(apply calloc_granted; exact Hg2);
              mstep ltac:(apply calloc_granted; exact Hg3);
              reflexivity).
  unfold bind, free, emit, ret. simpl. rewrite <- !app_assoc. reflexivity.
Qed.

Lemma calculatePowerSpectrum_empty_series_witness :
  roundUpToNextHighestPowerOfTwo 64 0 = Some 1 /\
  calculatePowerSpectrum 64 allocator_recycling cosf_series sinf_series acos_minus_one
    [f32_two] [] 0 world0 =
    Some ((0, [S754_zero false]),
          mkWorld 3 0 [EvCalloc 1 true; EvCalloc 1 true; EvCalloc 1 true;
                       EvFree; EvFree; EvFree]).
Proof.
  apply (calculatePowerSpectrum_empty_series 64 allocator_recycling cosf_series sinf_series
           acos_minus_one f32_two [] [] world0); reflexivity.
Defined.

(** ** utils.c : ingestion *)

Section IngestionFacts.
Variable size_bits : positive.
Variable allocator : nat -> AllocOutcome.
Variable filesystem : string -> option (list float).
Variable pipes : string -> option FILE.
Local Abbreviation w := (Z.pos size_bits).

Lemma modulus_pos : 0 < 2 ^ w.
Proof. apply Z.pow_pos_nonneg; lia. Qed.

(** The counting loop counts the values and the failed read after them,
    unless the count wraps to 0 first. *)
Lemma count_values_spec (stream : list float) : forall count,
  0 <= count < 2 ^ w ->
  count_values size_bits stream count =
    if count + 1 + Z.of_nat (length stream) <? 2 ^ w
    then count + 1 + Z.of_nat (length stream)
    else 0.
Proof.
  induction stream as [|v stream IH]; intros count Hcount; simpl count_values.
  - unfold wrap. simpl length.
    destruct (Z.ltb_spec (count + 1 + Z.of_nat 0) (2 ^ w)) as [Hlt|Hge].
    + rewrite Z.mod_small by lia.
      destruct (Z.eqb_spec (count + 1) 0); lia.
    + replace (count + 1) with (2 ^ w) by lia.
      rewrite Z.mod_same by lia. reflexivity.
  - unfold wrap.
    destruct (Z.eq_dec (count + 1) (2 ^ w)) as [Heq|Hne].
    + rewrite Heq, Z.mod_same by lia. simpl.
      destruct (Z.ltb_spec (2 ^ w + Z.of_nat (S (length stream))) (2 ^ w)); [|reflexivity].
      lia.
    + rewrite Z.mod_small by lia.
      destruct (Z.eqb_spec (count + 1) 0); [lia|].
      rewrite IH by lia. simpl length.
      replace (count + 1 + 1 + Z.of_nat (length stream))
        with (count + 1 + Z.of_nat (S (length stream))) by lia.
      reflexivity.
Qed.

(** The size found for a file is its number of values, capped at the
    largest size. *)
Lemma determineBufferSize_spec (stream : list float) :
  determineBufferSize size_bits stream =
    Z.min (Z.of_nat (length stream)) (SIZE_MAX size_bits).
Proof.
  pose proof modulus_pos.
  unfold determineBufferSize. rewrite count_values_spec by lia.
  unfold wrap, SIZE_MAX.
  destruct (Z.ltb_spec (0 + 1 + Z.of_nat (length stream)) (2 ^ w)) as [Hlt|Hge].
  - rewrite Z.mod_small by lia. lia.
  - replace (0 - 1) with (-1 * 2 ^ w + (2 ^ w - 1)) by lia.
    rewrite Z.add_comm, Z.mod_add by lia. rewrite Z.mod_small by lia. lia.
Qed.

(** The reading loop copies the next [count] values into the cells from
    [i] on. *)
Lemma getFloatsFromCSV_loop_copies (count : nat) : forall (i : nat) (stream cells : list float),
  (i + count <= length cells)%nat -> (count <= length stream)%nat ->
  getFloatsFromCSV_loop count (Z.of_nat i) stream cells =
    Some (0, take i cells ++ take count stream ++ drop (i + count) cells).
Proof.
  induction count as [|count IH]; intros i stream cells Hcells Hstream.
  - simpl. rewrite Nat.add_0_r, take_drop. reflexivity.
  - destruct stream as [|v stream]; [simpl in Hstream; lia|].
    simpl getFloatsFromCSV_loop.
    rewrite store_in_range by lia. simpl. rewrite Nat2Z.id.
    replace (Z.of_nat i + 1) with (Z.of_nat (S i)) by lia.
    rewrite IH by (rewrite ?length_insert; simpl in *; lia).
    f_equal. f_equal.
    rewrite (take_S_r _ _ v) by (apply list_lookup_insert_eq; lia).
    rewrite take_insert_ge by lia.
    rewrite drop_insert_lt by lia.
    rewrite <- app_assoc. simpl.
    replace (S (i + count))%nat with (i + S count)%nat by lia. reflexivity.
Qed.

(** The reading loop on a stream that ends early: the values it holds are
    copied, the cells after them are left as they were, and the loop reports
    the failed read. *)
Lemma getFloatsFromCSV_loop_short (count : nat) : forall (i : nat) (stream cells : list float),
  (i + count <= length cells)%nat -> (length stream < count)%nat ->
  getFloatsFromCSV_loop count (Z.of_nat i) stream cells =
    Some (1, take i cells ++ stream ++ drop (i + length stream) cells).
Proof.
  induction count as [|count IH]; intros i stream cells Hcells Hstream; [lia|].
  destruct stream as [|v stream].
  - simpl. rewrite Nat.add_0_r, take_drop. reflexivity.
  - simpl getFloatsFromCSV_loop.
    rewrite store_in_range by lia. simpl. rewrite Nat2Z.id.
    replace (Z.of_nat i + 1) with (Z.of_nat (S i)) by lia.
    rewrite IH by (rewrite ?length_insert; simpl in *; lia).
    f_equal. f_equal.
    rewrite (take_S_r _ _ v) by (apply list_lookup_insert_eq; lia).
    rewrite take_insert_ge by lia.
    rewrite drop_insert_lt by lia.
    rewrite <- app_assoc. simpl.
    replace (S (i + length stream))%nat with (i + S (length stream))%nat by lia.
    reflexivity.
Qed.

(** Ingestion through a pointer that is not null, of a stream that opens
    and holds at least one value on the first pass. The block requested has
    the size found. Where it is refused the call reports the lack of memory.
    Where it is granted, the second pass fills it when it finds as many
    values again; when it finds fewer, the call reports the failed read and
    leaves the block in the buffer, with the values read so far. *)
Lemma readFloats_opened (filePath : string) (file : FILE) (buf : Buffer) (wd : World) :
  fopen filesystem pipes filePath = Some file -> firstPass file <> [] ->
  let sz := Z.min (Z.of_nat (length (firstPass file))) (SIZE_MAX size_bits) in
  readFloatsFromFileToHeapBuffer size_bits allocator filesystem pipes filePath
    (Some buf) wd =
    if granted (allocator (allocations wd)) then
      if (Z.to_nat sz <=? length (secondPass file))%nat then
        Some ((0, Some (mkBuffer (Some (take (Z.to_nat sz) (secondPass file))) sz)),
              mkWorld (S (allocations wd)) (draws wd) (trace wd ++ [EvCalloc sz true]))
      else
        Some ((1, Some (mkBuffer
                          (Some (secondPass file ++
                                 replicate (Z.to_nat sz - length (secondPass file))
                                   (S754_zero false)))
                          sz)),
              mkWorld (S (allocations wd)) (draws wd)
                (trace wd ++ [EvCalloc sz true; EvPrintf (MsgFailedToRead filePath)]))
    else
      Some ((1, Some (mkBuffer None sz)),
            mkWorld (S (allocations wd)) (draws wd)
              (trace wd ++ [EvCalloc sz false; EvPrintf MsgOutOfHeapMemory])).
Proof.
  intros Hfile Hstream sz.
  assert (1 <= Z.of_nat (length (firstPass file))) as Hlen
    by (destruct (firstPass file); [congruence|simpl; lia]).
  assert (1 <= SIZE_MAX size_bits) as Hmax.
  { unfold SIZE_MAX. assert (2 ^ 1 <= 2 ^ w) by (apply Z.pow_le_mono_r; lia). lia. }
  unfold readFloatsFromFileToHeapBuffer. rewrite Hfile.
  rewrite determineBufferSize_spec. fold sz. cbn [size heapPointer].
  destruct (Z.eqb_spec sz 0) as [Hz|_]; [lia|].
  unfold bind at 1. unfold calloc.
  destruct (granted (allocator (allocations wd))).
  - cbv beta iota.
    destruct (Nat.leb_spec (Z.to_nat sz) (length (secondPass file))) as [Hfull|Hshort].
    + mstep ltac:(apply lift_Some; unfold getFloatsFromCSV; simpl;
                  rewrite (getFloatsFromCSV_loop_copies (Z.to_nat sz) 0)
                    by (rewrite ?length_replicate; lia);
                  simpl; reflexivity).
      change (failed 0) with false. cbv iota. unfold bind, fclose, lift, ret.
      rewrite drop_replicate, Nat.sub_diag, app_nil_r. reflexivity.
    + mstep ltac:(apply lift_Some; unfold getFloatsFromCSV; simpl;
                  rewrite (getFloatsFromCSV_loop_short (Z.to_nat sz) 0)
                    by (rewrite ?length_replicate; lia);
                  simpl; reflexivity).
      change (failed 1) with true. cbv iota.
      unfold bind, fclose, lift, printf, emit, ret. simpl.
      rewrite drop_replicate, <- app_assoc. reflexivity.
  - cbv beta iota. unfold bind, fclose, lift, printf, emit, ret. simpl.
    rewrite <- app_assoc. reflexivity.
Qed.

(** Ingestion into a local buffer of a regular file that holds at least one
    value: the block requested has the size found; where it is granted it
    receives the values, and where it is not the call reports the lack of
    memory. *)
Lemma readFloats_spec (filePath : string) (stream : list float) (buf : Buffer)
    (wd : World) :
  filesystem filePath = Some stream -> stream <> [] ->
  let sz := Z.min (Z.of_nat (length stream)) (SIZE_MAX size_bits) in
  by_reference
    (readFloatsFromFileToHeapBuffer size_bits allocator filesystem pipes filePath)
    buf wd =
    if granted (allocator (allocations wd)) then
      Some ((0, mkBuffer (Some (take (Z.to_nat sz) stream)) sz),
            mkWorld (S (allocations wd)) (draws wd) (trace wd ++ [EvCalloc sz true]))
    else
      Some ((1, mkBuffer None sz),
            mkWorld (S (allocations wd)) (draws wd)
              (trace wd ++ [EvCalloc sz false; EvPrintf MsgOutOfHeapMemory])).
Proof.
  intros Hfile Hstream sz.
  unfold by_reference, bind.
  rewrite (readFloats_opened filePath (mkFILE stream stream))
    by (unfold fopen; rewrite ?Hfile; (reflexivity || assumption)).
  cbn [firstPass secondPass]. fold sz.
  destruct (granted (allocator (allocations wd))); [|reflexivity].
  destruct (Nat.leb_spec (Z.to_nat sz) (length stream)) as [_|Hshort]; [reflexivity|].
  subst sz. lia.
Qed.
End IngestionFacts.

(** ** main.c : the guards of the two pipelines *)

(** C8. Two calibration files that are read in full and differ in their
    number of values make [characteriseRAO] fail with the report of the
    mismatch, which carries both lengths. After the two ingestions the call
    only prints and frees: no allocation is requested, no buffer is extended,
    and the RAO buffer is returned as it was passed. *)
Theorem characteriseRAO_length_mismatch
    (size_bits : positive) (allocator : nat -> AllocOutcome)
    (filesystem : string -> option (list float))
    (pipes : string -> option FILE)
    (libUncertainFloatUniformDist : nat -> float -> float -> float)
    (cosf sinf : float -> float) (acos : double -> double)
    (RAOBuffer : Buffer) (heaveDisplacementFilePath waveElevationFilePath : string)
    (heave elevation : list float)
    (heaveMeasurementUncertainty waveElevationMeasurementUncertainty : float)
    (measurementPeriod : float) (wd : World) :
  filesystem heaveDisplacementFilePath = Some heave ->
  filesystem waveElevationFilePath = Some elevation ->
  heave <> [] -> elevation <> [] ->
  Z.of_nat (length heave) <= SIZE_MAX size_bits ->
  Z.of_nat (length elevation) <= SIZE_MAX size_bits ->
  length heave <> length elevation ->
  granted (allocator (allocations wd)) = true ->
  granted (allocator (S (allocations wd))) = true ->
  characteriseRAO size_bits allocator filesystem pipes libUncertainFloatUniformDist
    cosf sinf acos RAOBuffer heaveDisplacementFilePath waveElevationFilePath
    heaveMeasurementUncertainty waveElevationMeasurementUncertainty measurementPeriod wd =
    Some ((1, RAOBuffer),
          mkWorld (2 + allocations wd) (draws wd)
            (trace wd ++
             [EvCalloc (Z.of_nat (length heave)) true;
              EvCalloc (Z.of_nat (length elevation)) true;
              EvPrintf (MsgLengthMismatch (Z.of_nat (length heave))
                          (Z.of_nat (length elevation)));
              EvFree; EvFree; EvFree; EvFree])).
Proof.
  intros Hheave Helev Hh He Hhmax Hemax Hne Hg1 Hg2.
  unfold characteriseRAO.
  mstep ltac:(rewrite (readFloats_spec size_bits allocator filesystem pipes _ heave)
                by assumption;
              rewrite Hg1; reflexivity).
  change (failed 0) with false. cbv iota.
  mstep ltac:(rewrite (readFloats_spec size_bits allocator filesystem pipes _ elevation)
                by assumption;
              cbn [allocations]; rewrite Hg2; reflexivity).
  change (failed 0) with false. cbv iota. cbn [size].
  rewrite !Z.min_l by assumption.
  destruct (Z.eqb_spec (Z.of_nat (length heave)) (Z.of_nat (length elevation))) as [Heq|_];
    [lia|].
  unfold bind, printf, freeHeapBuffer, free, emit, ret. simpl.
  rewrite <- !app_assoc. reflexivity.
Qed.

(** C9. An acceleration stream whose first pass finds more values than half
    the largest size never reaches the size guard of [estimateWaveSpectrum].
    The block the ingestion requests, that many values of [sizeof(float)]
    bytes each, is larger than [SIZE_MAX] bytes. A [calloc] that refuses
    such a request makes the ingestion fail: the call returns 1 after the
    reports of the lack of memory and of the unreadable file, and the report
    of too many values is not printed. No uncertainty sample is drawn, no
    other block is requested, and the estimate buffer is returned as it was
    passed, whatever the integrator and the transform would compute. *)
Theorem estimateWaveSpectrum_oversized_out_of_memory
    (size_bits : positive) (allocator : nat -> AllocOutcome)
    (filesystem : string -> option (list float))
    (pipes : string -> option FILE)
    (libUncertainFloatUniformDist : nat -> float -> float -> float)
    (integrate : State -> float -> float -> float -> State)
    (cosf sinf : float -> float) (acos : double -> double)
    (waveSpectrumEstimateBuffer RAOBuffer : Buffer) (heaveAccelerationFilePath : string)
    (file : FILE)
    (accelerometerResolution accelerometerTimestep : float) (wd : World) :
  fopen filesystem pipes heaveAccelerationFilePath = Some file ->
  SIZE_MAX size_bits / 2 < Z.of_nat (length (firstPass file)) ->
  let found := Z.min (Z.of_nat (length (firstPass file))) (SIZE_MAX size_bits) in
  (SIZE_MAX size_bits < found * sizeof_float ->
   granted (allocator (allocations wd)) = false) ->
  SIZE_MAX size_bits < found * sizeof_float /\
  estimateWaveSpectrum size_bits allocator filesystem pipes libUncertainFloatUniformDist
    integrate cosf sinf acos waveSpectrumEstimateBuffer RAOBuffer
    heaveAccelerationFilePath accelerometerResolution accelerometerTimestep wd =
    Some ((1, waveSpectrumEstimateBuffer),
          mkWorld (1 + allocations wd) (draws wd)
            (trace wd ++
             [EvCalloc found false;
              EvPrintf MsgOutOfHeapMemory;
              EvPrintf (MsgHeaveAccelerationUnreadable heaveAccelerationFilePath);
              EvFree; EvFree])).
Proof.
  intros Hfile Hlen found Hcalloc.
  pose proof (SIZE_MAX_half size_bits) as Hhalf.
  pose proof (pow2_half_lt_modulus size_bits) as Hpow.
  assert (2 ^ Z.pos size_bits = 2 * 2 ^ (Z.pos size_bits - 1)) as Hdouble.
  { replace (Z.pos size_bits) with (Z.succ (Z.pos size_bits - 1)) at 1 by lia.
    apply Z.pow_succ_r. lia. }
  assert (firstPass file <> []) as Hne by (intros Hnil; rewrite Hnil in Hlen; simpl in Hlen; lia).
  assert (SIZE_MAX size_bits < found * sizeof_float) as Hbytes
    by (subst found; unfold sizeof_float, SIZE_MAX in *; lia).
  split; [exact Hbytes|].
  specialize (Hcalloc Hbytes).
  unfold estimateWaveSpectrum.
  mstep ltac:(unfold by_reference;
              mstep ltac:(rewrite (readFloats_opened size_bits allocator filesystem pipes
                                     _ file) by assumption;
                          rewrite Hcalloc; reflexivity);
              reflexivity).
  change (failed 1) with true. cbv iota.
  unfold bind, printf, freeHeapBuffer, free, emit, ret. simpl.
  rewrite <- !app_assoc. reflexivity.
Qed.

Lemma characteriseRAO_length_mismatch_witness :
  characteriseRAO 64 allocator_zeroing files_small no_pipes uniform_midpoint
    cosf_series sinf_series acos_minus_one (mkBuffer None 0)
    "testingHeave.csv" "testingWaveElevation.csv" f32_half f32_half f32_one world0 =
    Some ((1, mkBuffer None 0),
          mkWorld 2 0
            [EvCalloc 4 true; EvCalloc 3 true; EvPrintf (MsgLengthMismatch 4 3);
             EvFree; EvFree; EvFree; EvFree]).
Proof.
  apply (characteriseRAO_length_mismatch 64 allocator_zeroing files_small no_pipes uniform_midpoint
           cosf_series sinf_series acos_minus_one (mkBuffer None 0)
           "testingHeave.csv" "testingWaveElevation.csv"
           [f32_one; f32_two; f32_one; S754_zero false] [f32_half; f32_one; f32_half]
           f32_half f32_half f32_one world0);
    try reflexivity; try discriminate; vm_compute; discriminate.
Defined.

Lemma estimateWaveSpectrum_oversized_out_of_memory_witness :
  SIZE_MAX 16 < 32768 * sizeof_float /\
  estimateWaveSpectrum 16 allocator_exhausted files_oversized no_pipes uniform_midpoint
    integrate_trapezoidal cosf_series sinf_series acos_minus_one
    (mkBuffer None 0) (mkBuffer (Some [f32_one]) 1)
    "oceanHeaveAcceleration.csv" f32_half f32_one world0 =
    Some ((1, mkBuffer None 0),
          mkWorld 1 0
            [EvCalloc 32768 false; EvPrintf MsgOutOfHeapMemory;
             EvPrintf (MsgHeaveAccelerationUnreadable "oceanHeaveAcceleration.csv");
             EvFree; EvFree]).
Proof.
  apply (estimateWaveSpectrum_oversized_out_of_memory 16 allocator_exhausted
           files_oversized no_pipes uniform_midpoint integrate_trapezoidal cosf_series
           sinf_series acos_minus_one (mkBuffer None 0) (mkBuffer (Some [f32_one]) 1)
           "oceanHeaveAcceleration.csv"
           (mkFILE (replicate (Z.to_nat 32768) f32_one) (replicate (Z.to_nat 32768) f32_one))
           f32_half f32_one world0);
    [reflexivity | vm_compute; reflexivity | intros _; reflexivity].
Defined.

(** ** utils.c : extension of a buffer *)

Section ExtensionFacts.
Variable allocator : nat -> AllocOutcome.

(** Extension to a size that is not larger changes nothing. *)
Lemma extendHeapBuffer_noop (buf : Buffer) (newSize : Z) (wd : World) :
  newSize <= size buf ->
  extendHeapBuffer allocator buf newSize wd = Some ((0, buf), wd).
Proof.
  intros Hle. unfold extendHeapBuffer.
  destruct (Z.leb_spec newSize (size buf)); [reflexivity|lia].
Qed.

(** Extension to a larger size, where the block is granted, sets the size
    and keeps the cells of the old block; the cells after them are those
    the allocator left in the block. *)
Lemma extendHeapBuffer_grows (buf : Buffer) (newSize : Z) (wd : World) :
  size buf < newSize ->
  granted (allocator (allocations wd)) = true ->
  exists cells,
    extendHeapBuffer allocator buf newSize wd =
      Some ((0, mkBuffer (Some cells) newSize),
            mkWorld (S (allocations wd)) (draws wd)
              (trace wd ++ [EvReallocarray newSize true])) /\
    (Z.of_nat (length (block (heapPointer buf))) <= newSize ->
     Z.of_nat (length cells) = Z.max 0 newSize /\
     take (length (block (heapPointer buf))) cells = block (heapPointer buf)).
Proof.
  intros Hlt Hg. unfold extendHeapBuffer.
  destruct (Z.leb_spec newSize (size buf)); [lia|].
  unfold bind, reallocarray.
  destruct (allocator (allocations wd)) as [|junk]; [discriminate|].
  eexists. split; [reflexivity|]. intros Hfits.
  rewrite take_ge by lia. split.
  - rewrite length_app, length_map, length_seq. lia.
  - apply take_app_length.
Qed.
End ExtensionFacts.

(** C1, on the failing input. A buffer of one cell extended to three cells
    through an allocator that recycles cells holding 1.0: the call succeeds,
    the old cell is kept, and the two new cells hold 1.0, not 0.0. *)
Theorem extendHeapBuffer_new_cells_not_zeroed :
  extendHeapBuffer allocator_recycling (mkBuffer (Some [f32_two]) 1) 3 world0 =
    Some ((0, mkBuffer (Some [f32_two; f32_one; f32_one]) 3),
          mkWorld 1 0 [EvReallocarray 3 true]) /\
  [f32_two; f32_one; f32_one] !! 1%nat <> Some (S754_zero false) /\
  SFeqb f32_one (S754_zero false) = false.
Proof. repeat split; discriminate. Qed.

(** ** utils.c : the integrator *)

(** C2, as the code has it. On a series that starts with [a0] the first
    iteration calls [integrate] on the state at rest with [a0] as the new
    acceleration and zero as the old one, and the loop goes on from the state
    that call returns; with the trapezoidal step the first speed is
    [0 + dt * (0 + a0) / 2]. *)
Theorem integration_first_step_old_acceleration_zero
    (integrate : State -> float -> float -> float -> State)
    (dt a0 : float) (rest : list float) (count : nat) :
  let rest_state := mkState (S754_zero false) (S754_zero false) in
  let newState := integrate rest_state a0 (S754_zero false) dt in
  integration_step integrate dt 0 (a0 :: rest, rest_state, S754_zero false) =
    Some (position newState :: rest, mkState (position newState) (speed newState), a0) /\
  integration_loop integrate dt (S count) (a0 :: rest) =
    for_loop count 1 (integration_step integrate dt)
      (position newState :: rest, mkState (position newState) (speed newState), a0) /\
  speed (integrate_trapezoidal rest_state a0 (S754_zero false) dt) =
    fadd binary32 (S754_zero false)
      (fdiv binary32 (fmul binary32 dt (fadd binary32 (S754_zero false) a0)) f32_two).
Proof. repeat split. Qed.

(** C2, as the spec has it, fails: on the series [1.0] with time step 1.0
    the first speed is 0.5, which is neither [dt * a0] nor what the
    trapezoidal step gives from [a0] as both accelerations. *)
Lemma integration_first_step_not_own_acceleration :
  integration_loop integrate_trapezoidal f32_one 1 [f32_one] =
    Some ([f32_quarter], mkState f32_quarter f32_half, f32_one) /\
  f32_half <> fmul binary32 f32_one f32_one /\
  f32_half <>
    speed (integrate_trapezoidal (mkState (S754_zero false) (S754_zero false))
             f32_one f32_one f32_one).
Proof. repeat split; vm_compute; discriminate. Qed.

(** ** main.c : the estimation pipeline *)

(** The invariant rule of [for_loop_invariant] for a body that acts on the
    world. *)
Lemma for_loopM_invariant {S : Type} (P : S -> World -> Prop) (body : Z -> S -> M S)
    (count : nat) :
  forall (first : Z) (s : S) (wd : World),
    P s wd ->
    (forall i s wd, first <= i < first + Z.of_nat count -> P s wd ->
       exists s' wd', body i s wd = Some (s', wd') /\ P s' wd') ->
    exists s' wd', for_loopM count first body s wd = Some (s', wd') /\ P s' wd'.
Proof.
  induction count as [|count IH]; intros first s wd Hs Hbody.
  - exists s, wd. split; [reflexivity|assumption].
  - simpl for_loopM.
    destruct (Hbody first s wd) as (s1 & wd1 & Hrun & Hs1); [lia|assumption|].
    unfold bind at 1. rewrite Hrun. apply IH; [assumption|].
    intros i s0 wd0 Hi. apply Hbody. lia.
Qed.

Section PipelineFacts.
Variable size_bits : positive.
Variable allocator : nat -> AllocOutcome.
Variable libUncertainFloatUniformDist : nat -> float -> float -> float.
Variable integrate : State -> float -> float -> float -> State.
Variables cosf sinf : float -> float.
Variable acos : double -> double.

(** The perturbation of a buffer that owns [size] cells has a result,
    which owns as many cells; it requests no block. *)
Lemma applyUncertainty_total (cells : list float) (uncertainty : float) (wd : World) :
  exists cells' wd',
    applyUncertainty libUncertainFloatUniformDist
      (mkBuffer (Some cells) (Z.of_nat (length cells))) uncertainty wd =
      Some (mkBuffer (Some cells') (Z.of_nat (length cells)), wd') /\
    length cells' = length cells /\
    allocations wd' = allocations wd.
Proof.
  unfold applyUncertainty. cbn [size heapPointer block].
  rewrite Nat2Z.id.
  match goal with
  | |- context [for_loopM _ _ ?body _] =>
      destruct (for_loopM_invariant
                  (fun cur wd' => length cur = length cells /\
                                  allocations wd' = allocations wd)
                  body (length cells) 0 cells wd)
        as (cells' & wd' & Hrun & Hlen & Halloc)
  end.
  - split; reflexivity.
  - intros i cur wd0 Hi [Hcur Halloc].
    destruct (load_in_range cur i) as (v & Hv & _); [lia|].
    do 2 eexists. split.
    { mstep ltac:(apply lift_Some; exact Hv).
      mstep ltac:(unfold uniformDist; reflexivity).
      apply lift_Some. apply store_in_range. lia. }
    split; [rewrite length_insert; exact Hcur | exact Halloc].
  - exists cells', wd'. split; [|split; assumption].
    mstep ltac:(exact Hrun). reflexivity.
Qed.

(** The removal of the mean from a buffer that owns [size] cells has a
    result, which owns as many cells. *)
Lemma subtractMean_total (cells : list float) :
  exists cells',
    subtractMean (mkBuffer (Some cells) (Z.of_nat (length cells))) =
      Some (mkBuffer (Some cells') (Z.of_nat (length cells))) /\
    length cells' = length cells.
Proof.
  unfold subtractMean. cbn [size heapPointer block rewritten].
  rewrite Nat2Z.id.
  destruct (for_loop_invariant (fun _ : float => True)
              (fun i total => v ← load cells i; Some (fadd binary32 total v))
              (length cells) 0 (S754_zero false)) as (total & Htotal & _).
  - exact I.
  - intros i t Hi _.
    destruct (load_in_range cells i) as (v & Hv & _); [lia|].
    rewrite Hv. eexists. split; [reflexivity|exact I].
  - rewrite Htotal. simpl.
    match goal with
    | |- context [for_loop _ _ ?body cells] =>
        destruct (for_loop_invariant (fun cur : list float => length cur = length cells)
                    body (length cells) 0 cells) as (cells' & Hrun & Hlen)
    end.
    + reflexivity.
    + intros i cur Hi Hcur.
      destruct (load_in_range cur i) as (v & Hv & _); [lia|].
      rewrite Hv. simpl. rewrite store_in_range by lia.
      eexists. split; [reflexivity|]. rewrite length_insert. exact Hcur.
    + rewrite Hrun. simpl. exists cells'. split; [reflexivity|exact Hlen].
Qed.

(** The double integration of a buffer that owns [size] cells, at least
    one, has a result, which owns as many cells. *)
Lemma numericalIntegration_total (cells : list float) (dt : float) :
  cells <> [] ->
  exists cells',
    numericalIntegration integrate (mkBuffer (Some cells) (Z.of_nat (length cells))) dt =
      Some (mkBuffer (Some cells') (Z.of_nat (length cells))) /\
    length cells' = length cells.
Proof.
  intros Hne. unfold numericalIntegration, integration_loop.
  cbn [size heapPointer block rewritten]. rewrite Nat2Z.id.
  destruct cells as [|a0 rest] eqn:Hcells; [congruence|]. rewrite <- Hcells in *.
  replace (load cells 0) with (Some a0) by (rewrite Hcells; reflexivity). simpl mbind.
  destruct (for_loop_invariant
              (fun s : list float * State * float => length (s.1.1) = length cells)
              (integration_step integrate dt) (length cells) 0
              (cells, mkState (S754_zero false) (S754_zero false), S754_zero false))
    as ([[cells1 st] acc] & Hrun & Hlen).
  - reflexivity.
  - intros i [[cur st] acc] Hi Hcur. simpl in Hcur. unfold integration_step.
    destruct (load_in_range cur i) as (v & Hv & _); [lia|].
    rewrite Hv. simpl. rewrite store_in_range by lia. simpl.
    eexists. split; [reflexivity|]. simpl. rewrite length_insert. exact Hcur.
  - rewrite Hrun. simpl in Hlen |- *. rewrite <- Hlen.
    destruct (subtractMean_total cells1) as (cells' & Hmean & Hlen').
    rewrite Hmean. exists cells'. split; [reflexivity|]. congruence.
Qed.

(** The transform reads the first [N] samples of its input and no other:
    it cannot tell a block from the block cut after [N] cells. *)
Lemma fft_reads_prefix (F x : list float) (N : Z) (wd : World) :
  0 <= N ->
  fft size_bits allocator cosf sinf acos F x N wd =
  fft size_bits allocator cosf sinf acos F (take (Z.to_nat N) x) N wd.
Proof.
  intros HN. unfold fft, bind, lift, calloc.
  destruct (roundUpToNextHighestPowerOfTwo size_bits N) as [sz|]; [|reflexivity].
  destruct (granted (allocator (allocations wd))); [|reflexivity].
  cbn [allocations].
  destruct (granted (allocator (S (allocations wd)))); [|reflexivity].
  rewrite (for_loop_ext
             (fun i paddedX =>
                v ← load x i; c ← load paddedX i;
                store paddedX i (mkComplex v (imaginary c)))
             (fun i paddedX =>
                v ← load (take (Z.to_nat N) x) i; c ← load paddedX i;
                store paddedX i (mkComplex v (imaginary c)))); [reflexivity|].
  intros i s Hi. rewrite !load_lookup by lia.
  rewrite lookup_take_lt by lia. reflexivity.
Qed.

Lemma calculatePowerSpectrum_reads_prefix (powerSpectrum x : list float) (N : Z)
    (wd : World) :
  0 <= N ->
  calculatePowerSpectrum size_bits allocator cosf sinf acos powerSpectrum x N wd =
  calculatePowerSpectrum size_bits allocator cosf sinf acos powerSpectrum
    (take (Z.to_nat N) x) N wd.
Proof.
  intros HN. unfold calculatePowerSpectrum.
  apply bind_cong. intros sz wd1. apply bind_cong. intros [fs|] wd2; [|reflexivity].
  unfold bind. rewrite <- fft_reads_prefix by exact HN. reflexivity.
Qed.
End PipelineFacts.

Section EstimationFacts.
Variable size_bits : positive.
Variable allocator : nat -> AllocOutcome.
Variable filesystem : string -> option (list float).
Variable pipes : string -> option FILE.
Variable libUncertainFloatUniformDist : nat -> float -> float -> float.
Variable integrate : State -> float -> float -> float -> State.
Variables cosf sinf : float -> float.
Variable acos : double -> double.

Hypothesis allocator_grants : forall request, granted (allocator request) = true.

(** Extension of a buffer that owns [size] cells to a size of at least 1,
    by an allocator that grants: the buffer owns [max size newSize] cells
    afterwards, the old ones first. *)
Lemma extendHeapBuffer_total (buf : Buffer) (newSize : Z) (wd : World) :
  Z.of_nat (length (block (heapPointer buf))) = size buf -> 1 <= newSize ->
  exists cells wd',
    extendHeapBuffer allocator buf newSize wd =
      Some ((0, mkBuffer (Some cells) (Z.max (size buf) newSize)), wd') /\
    Z.of_nat (length cells) = Z.max (size buf) newSize /\
    take (length (block (heapPointer buf))) cells = block (heapPointer buf).
Proof.
  intros Hwf Hnew.
  destruct (Z.le_gt_cases newSize (size buf)) as [Hle|Hgt].
  - rewrite extendHeapBuffer_noop by exact Hle.
    destruct buf as [[cells|] sz]; simpl in *; [|lia].
    exists cells, wd. rewrite Z.max_l by lia.
    split; [reflexivity|]. split; [exact Hwf|]. apply take_ge. lia.
  - destruct (extendHeapBuffer_grows allocator buf newSize wd)
      as (cells & Hrun & Hcells); [lia|apply allocator_grants|].
    destruct Hcells as [Hlen Htake]; [lia|].
    exists cells. eexists. rewrite Z.max_r by lia.
    split; [exact Hrun|]. split; [lia|exact Htake].
Qed.
End EstimationFacts.

(** C3, as the code has it. On an acceleration file that is accepted, with
    an RAO whose size is a power of two and an allocator that grants, the
    estimate is computed: the position series is the series read, perturbed
    and integrated; its buffer is extended to the size of the RAO when it is
    shorter and keeps its samples; the power spectrum that is divided by the
    RAO is the power spectrum of the first [length rao] cells of that buffer
    and of no other, so that a position series longer than the RAO is cut at
    the size of the RAO. *)
Theorem estimateWaveSpectrum_reads_RAO_size_samples
    (size_bits : positive) (allocator : nat -> AllocOutcome)
    (filesystem : string -> option (list float))
    (pipes : string -> option FILE)
    (libUncertainFloatUniformDist : nat -> float -> float -> float)
    (integrate : State -> float -> float -> float -> State)
    (cosf sinf : float -> float) (acos : double -> double)
    (waveSpectrumEstimateBuffer : Buffer) (heaveAccelerationFilePath : string)
    (acceleration rao : list float) (k : Z)
    (accelerometerResolution accelerometerTimestep : float) (wd : World) :
  (forall request, granted (allocator request) = true) ->
  filesystem heaveAccelerationFilePath = Some acceleration ->
  acceleration <> [] ->
  Z.of_nat (length acceleration) <= SIZE_MAX size_bits / 2 ->
  0 <= k -> Z.of_nat (length rao) = 2 ^ k -> 2 ^ k <= SIZE_MAX size_bits / 2 ->
  Z.of_nat (length (block (heapPointer waveSpectrumEstimateBuffer))) =
    size waveSpectrumEstimateBuffer ->
  let n := length acceleration in
  let R := length rao in
  exists (perturbed position extended junk spectrum target estimate : list float)
         (wd1 wd2 wd3 wd4 : World),
    applyUncertainty libUncertainFloatUniformDist
      (mkBuffer (Some acceleration) (Z.of_nat n)) accelerometerResolution
      (mkWorld (S (allocations wd)) (draws wd) (trace wd ++ [EvCalloc (Z.of_nat n) true])) =
      Some (mkBuffer (Some perturbed) (Z.of_nat n), wd1) /\
    numericalIntegration integrate (mkBuffer (Some perturbed) (Z.of_nat n))
      accelerometerTimestep = Some (mkBuffer (Some position) (Z.of_nat n)) /\
    length position = n /\
    length extended = Nat.max n R /\
    take n extended = position /\
    ((R <= n)%nat -> extended = position) /\
    calculatePowerSpectrum size_bits allocator cosf sinf acos junk
      (take R extended) (Z.of_nat R) wd2 = Some ((0, spectrum), wd3) /\
    length spectrum = R /\
    calculateWaveEnergySpectrum target spectrum rao (Z.of_nat R) = Some estimate /\
    estimateWaveSpectrum size_bits allocator filesystem pipes libUncertainFloatUniformDist
      integrate cosf sinf acos waveSpectrumEstimateBuffer
      (mkBuffer (Some rao) (Z.of_nat R)) heaveAccelerationFilePath
      accelerometerResolution accelerometerTimestep wd =
      Some ((0, mkBuffer (Some estimate)
                  (Z.max (size waveSpectrumEstimateBuffer) (Z.of_nat R))), wd4).
Proof.
  intros Hgrants Hfile Hne Hlen Hk Hrao HR Hwf n R. subst n R.
  pose proof (SIZE_MAX_half size_bits) as Hhalf.
  pose proof (pow2_half_lt_modulus size_bits) as Hpow.
  assert (0 < 2 ^ k) as HRpos by (apply Z.pow_pos_nonneg; lia).
  assert (Z.min (Z.of_nat (length acceleration)) (SIZE_MAX size_bits) = Z.of_nat (length acceleration)) as Hmin
    by (unfold SIZE_MAX in *; lia).
  (* the stages *)
  destruct (applyUncertainty_total libUncertainFloatUniformDist acceleration
              accelerometerResolution
              (mkWorld (S (allocations wd)) (draws wd)
                 (trace wd ++ [EvCalloc (Z.of_nat (length acceleration)) true])))
    as (perturbed & wd1 & Hperturb & Hlenp & _).
  assert (perturbed <> []) as Hnep
    by (intros ->; destruct acceleration; [congruence|discriminate]).
  destruct (numericalIntegration_total integrate perturbed accelerometerTimestep Hnep)
    as (position & Hintegrate & Hlenpos).
  rewrite Hlenp in Hintegrate, Hlenpos.
  destruct (extendHeapBuffer_total allocator Hgrants
              (mkBuffer (Some position) (Z.of_nat (length acceleration))) (Z.of_nat (length rao)) wd1)
    as (extended & wd1' & Hextend & Hlenext & Hkeep);
    [simpl; lia | lia |]. cbn [size heapPointer block] in *.
  rewrite Hlenpos in Hkeep.
  destruct (extendHeapBuffer_total allocator Hgrants (mkBuffer None 0) (Z.of_nat (length rao)) wd1')
    as (junk & wd1'' & Hjunk & Hlenjunk & _); [reflexivity | lia |].
  cbn [size] in *.
  destruct (extendHeapBuffer_total allocator Hgrants waveSpectrumEstimateBuffer
              (Z.of_nat (length rao)) wd1'')
    as (target & wd2 & Htarget & Hlentarget & _); [exact Hwf | lia |].
  assert (roundUpToNextHighestPowerOfTwo size_bits (Z.of_nat (length rao)) = Some (Z.of_nat (length rao)))
    as Hround by (rewrite Hrao; apply roundUp_pow2; assumption).
  destruct (calculatePowerSpectrum_spec size_bits allocator cosf sinf acos junk extended
              (Z.of_nat (length rao)) (Z.of_nat (length rao)) wd2)
    as (F & spectrum & _ & _ & Hspectrum & Hlenspec & _ & _);
    try apply Hgrants; try exact Hround; try lia.
  destruct (elementWiseDivide_spec target spectrum rao (Z.of_nat (length rao)))
    as (estimate & Hdivide & _); try lia.
  exists perturbed, position, extended, junk, spectrum, target, estimate, wd1, wd2.
  do 2 eexists.
  split; [exact Hperturb|]. split; [exact Hintegrate|]. split; [exact Hlenpos|].
  split; [lia|]. split; [exact Hkeep|]. split.
  { intros HRn. rewrite <- Hkeep. symmetry. apply take_ge. lia. }
  split.
  { rewrite <- (Nat2Z.id (length rao)) at 1.
    rewrite <- calculatePowerSpectrum_reads_prefix by lia. exact Hspectrum. }
  split; [lia|]. split; [exact Hdivide|].
  unfold estimateWaveSpectrum.
  mstep ltac:(rewrite (readFloats_spec size_bits allocator filesystem pipes _ acceleration)
                by assumption;
              rewrite Hgrants, Hmin, Nat2Z.id, take_ge by lia; reflexivity).
  change (failed 0) with false. cbv iota. cbn [size].
  destruct (Z.gtb_spec (Z.of_nat (length acceleration)) (SIZE_MAX size_bits / 2));
    [lia|].
  mstep ltac:(exact Hperturb).
  mstep ltac:(apply lift_Some; exact Hintegrate).
  cbn [size].
  assert ((if Z.of_nat (length acceleration) <? Z.of_nat (length rao)
           then extendHeapBuffer allocator
                  (mkBuffer (Some position) (Z.of_nat (length acceleration)))
                  (Z.of_nat (length rao))
           else ret (0, mkBuffer (Some position) (Z.of_nat (length acceleration)))) wd1 =
          Some ((0, mkBuffer (Some extended)
                      (Z.max (Z.of_nat (length acceleration)) (Z.of_nat (length rao)))),
                wd1')) as Hocean.
  { destruct (Z.ltb_spec (Z.of_nat (length acceleration)) (Z.of_nat (length rao)));
      [exact Hextend|].
    rewrite extendHeapBuffer_noop in Hextend by (simpl; lia). exact Hextend. }
  mstep ltac:(exact Hocean).
  change (failed 0) with false. cbv iota.
  mstep ltac:(exact Hjunk).
  change (failed 0) with false. cbv iota.
  mstep ltac:(exact Htarget).
  change (failed 0) with false. cbv iota. cbn [size heapPointer block rewritten].
  rewrite Z.max_r by lia.
  mstep ltac:(exact Hspectrum).
  change (failed 0) with false. cbv iota.
  mstep ltac:(apply lift_Some; exact Hdivide).
  unfold bind, freeHeapBuffer, free, emit, ret. simpl. reflexivity.
Qed.

Lemma estimateWaveSpectrum_reads_RAO_size_samples_witness :
  exists (estimate : list float) (wd' : World),
    estimateWaveSpectrum 64 allocator_zeroing files_small no_pipes uniform_midpoint
      integrate_trapezoidal cosf_series sinf_series acos_minus_one
      (mkBuffer None 0) (mkBuffer (Some [f32_one]) 1)
      "oceanHeaveAcceleration.csv" (S754_zero false) f32_one world0 =
      Some ((0, mkBuffer (Some estimate) 1), wd').
Proof.
  destruct (estimateWaveSpectrum_reads_RAO_size_samples 64 allocator_zeroing files_small no_pipes
              uniform_midpoint integrate_trapezoidal cosf_series sinf_series
              acos_minus_one (mkBuffer None 0) "oceanHeaveAcceleration.csv"
              [f32_one; f32_one] [f32_one] 0 (S754_zero false) f32_one world0)
    as (perturbed & position & extended & junk & spectrum & target & estimate &
        wd1 & wd2 & wd3 & wd4 & _ & _ & _ & _ & _ & _ & _ & _ & _ & Hrun).
  - intros request. reflexivity.
  - reflexivity.
  - discriminate.
  - vm_compute. discriminate.
  - lia.
  - reflexivity.
  - vm_compute. discriminate.
  - reflexivity.
  - exists estimate, wd4. exact Hrun.
Defined.

(** C3, as the spec has it, fails. With an RAO of one bin and an
    acceleration file of two values, the position series is [-0.5; 0.5]. The
    estimate is 0.25, the power spectrum of the first sample alone divided by
    the RAO; the sample at index 1 can take any value without change to that
    power spectrum; the power spectrum of the whole series has 0 in bin 0,
    which divided by the RAO is not the estimate. *)
Lemma estimateWaveSpectrum_drops_samples_beyond_RAO :
  numericalIntegration integrate_trapezoidal (mkBuffer (Some [f32_one; f32_one]) 2) f32_one =
    Some (mkBuffer (Some [SFopp f32_half; f32_half]) 2) /\
  fst <$> estimateWaveSpectrum 64 allocator_zeroing files_small no_pipes uniform_midpoint
            integrate_trapezoidal cosf_series sinf_series acos_minus_one
            (mkBuffer None 0) (mkBuffer (Some [f32_one]) 1)
            "oceanHeaveAcceleration.csv" (S754_zero false) f32_one world0 =
    Some (0, mkBuffer (Some [f32_quarter]) 1) /\
  fst <$> calculatePowerSpectrum 64 allocator_zeroing cosf_series sinf_series
            acos_minus_one [S754_zero false] [SFopp f32_half; f32_half] 1 world0 =
    Some (0, [f32_quarter]) /\
  (forall (v : float) (wd : World),
     calculatePowerSpectrum 64 allocator_zeroing cosf_series sinf_series
       acos_minus_one [S754_zero false] [SFopp f32_half; v] 1 wd =
     calculatePowerSpectrum 64 allocator_zeroing cosf_series sinf_series
       acos_minus_one [S754_zero false] [SFopp f32_half; f32_half] 1 wd) /\
  fst <$> calculatePowerSpectrum 64 allocator_zeroing cosf_series sinf_series
            acos_minus_one [S754_zero false; S754_zero false]
            [SFopp f32_half; f32_half] 2 world0 =
    Some (0, [S754_zero false; f32_one]) /\
  fdiv binary32 (S754_zero false) f32_one <> fdiv binary32 f32_quarter f32_one.
Proof.
  split; [vm_compute; reflexivity|].
  split; [vm_compute; reflexivity|].
  split; [vm_compute; reflexivity|].
  split.
  { intros v wd.
    rewrite (calculatePowerSpectrum_reads_prefix _ _ _ _ _ _ [SFopp f32_half; v]) by lia.
    rewrite (calculatePowerSpectrum_reads_prefix _ _ _ _ _ _ [SFopp f32_half; f32_half])
      by lia.
    reflexivity. }
  split; [vm_compute; reflexivity|].
  vm_compute. discriminate.
Qed.

(** * Further properties of the sources *)

(** ** utils.c : buffers and ingestion *)

(** X1. The three outcomes of an extension. To a size that is not larger it
    changes nothing and requests nothing. To a larger size, where the block is
    refused, it returns 1, reports the lack of memory and leaves the buffer
    empty, with a null pointer and size 0; where the block is granted, it
    returns 0, sets the size and keeps the old cells at their indices. *)
Theorem extendHeapBuffer_outcomes
    (allocator : nat -> AllocOutcome) (buf : Buffer) (newSize : Z) (wd : World) :
  (newSize <= size buf ->
   extendHeapBuffer allocator buf newSize wd = Some ((0, buf), wd)) /\
  (size buf < newSize -> granted (allocator (allocations wd)) = false ->
   extendHeapBuffer allocator buf newSize wd =
     Some ((1, mkBuffer None 0),
           mkWorld (S (allocations wd)) (draws wd)
             (trace wd ++ [EvReallocarray newSize false; EvPrintf MsgOutOfHeapMemory]))) /\
  (size buf < newSize -> granted (allocator (allocations wd)) = true ->
   Z.of_nat (length (block (heapPointer buf))) <= newSize ->
   exists cells,
     extendHeapBuffer allocator buf newSize wd =
       Some ((0, mkBuffer (Some cells) newSize),
             mkWorld (S (allocations wd)) (draws wd)
               (trace wd ++ [EvReallocarray newSize true])) /\
     Z.of_nat (length cells) = Z.max 0 newSize /\
     forall i v, block (heapPointer buf) !! i = Some v -> cells !! i = Some v).
Proof.
  split; [apply extendHeapBuffer_noop|]. split.
  - intros Hlt Hg. unfold extendHeapBuffer.
    destruct (Z.leb_spec newSize (size buf)); [lia|].
    unfold bind, reallocarray, printf, emit, ret.
    destruct (allocator (allocations wd)); [|discriminate].
    simpl. rewrite <- app_assoc. reflexivity.
  - intros Hlt Hg Hfits.
    destruct (extendHeapBuffer_grows allocator buf newSize wd Hlt Hg)
      as (cells & Hrun & Hcells).
    destruct (Hcells Hfits) as [Hlen Hkeep].
    exists cells. split; [exact Hrun|]. split; [exact Hlen|].
    intros i v Hv. rewrite <- Hkeep in Hv.
    apply lookup_take_Some in Hv. tauto.
Qed.

Lemma extendHeapBuffer_outcomes_witness :
  extendHeapBuffer allocator_zeroing (mkBuffer (Some [f32_one; f32_two]) 2) 1 world0 =
    Some ((0, mkBuffer (Some [f32_one; f32_two]) 2), world0) /\
  exists cells,
    extendHeapBuffer allocator_zeroing (mkBuffer (Some [f32_one; f32_two]) 2) 4 world0 =
      Some ((0, mkBuffer (Some cells) 4), mkWorld 1 0 [EvReallocarray 4 true]) /\
    Z.of_nat (length cells) = Z.max 0 4 /\
    forall i v, [f32_one; f32_two] !! i = Some v -> cells !! i = Some v.
Proof.
  split.
  - apply (proj1 (extendHeapBuffer_outcomes allocator_zeroing
                    (mkBuffer (Some [f32_one; f32_two]) 2) 1 world0)).
    simpl. lia.
  - apply (proj2 (proj2 (extendHeapBuffer_outcomes allocator_zeroing
                           (mkBuffer (Some [f32_one; f32_two]) 2) 4 world0)));
      [simpl; lia | reflexivity | simpl; lia].
Defined.

(** X2. The size found for a file is the number of its values, but never
    more than the largest size: the counting loop stops when its counter
    wraps to 0. *)
Theorem determineBufferSize_counts_up_to_SIZE_MAX
    (size_bits : positive) (stream : list float) :
  determineBufferSize size_bits stream =
    Z.min (Z.of_nat (length stream)) (SIZE_MAX size_bits) /\
  0 <= determineBufferSize size_bits stream <= SIZE_MAX size_bits /\
  (determineBufferSize size_bits stream = 0 <-> stream = []).
Proof.
  pose proof (modulus_pos size_bits) as Hpos.
  assert (2 ^ 1 <= 2 ^ Z.pos size_bits) as Hone by (apply Z.pow_le_mono_r; lia).
  rewrite determineBufferSize_spec. unfold SIZE_MAX.
  split; [reflexivity|]. split; [lia|]. split.
  - intros Hzero. destruct stream; [reflexivity|simpl in Hzero; lia].
  - intros ->. simpl. lia.
Qed.

(** X3. Ingestion round trip. A file that opens and holds between 1 and
    [SIZE_MAX] values, read with a granted block, gives return code 0 and a
    buffer whose size is the number of values and whose cells are the values
    in file order; the only thing done to the world is the request of that one
    block. *)
Theorem readFloats_round_trip
    (size_bits : positive) (allocator : nat -> AllocOutcome)
    (filesystem : string -> option (list float))
    (pipes : string -> option FILE)
    (filePath : string) (stream : list float) (buf : Buffer) (wd : World) :
  filesystem filePath = Some stream ->
  stream <> [] ->
  Z.of_nat (length stream) <= SIZE_MAX size_bits ->
  granted (allocator (allocations wd)) = true ->
  readFloatsFromFileToHeapBuffer size_bits allocator filesystem pipes filePath
    (Some buf) wd =
    Some ((0, Some (mkBuffer (Some stream) (Z.of_nat (length stream)))),
          mkWorld (S (allocations wd)) (draws wd)
            (trace wd ++ [EvCalloc (Z.of_nat (length stream)) true])).
Proof.
  intros Hfile Hne Hlen Hg.
  rewrite (readFloats_opened size_bits allocator filesystem pipes filePath
             (mkFILE stream stream))
    by (unfold fopen; rewrite ?Hfile; (reflexivity || assumption)).
  cbn [firstPass secondPass].
  rewrite Hg, Z.min_l by exact Hlen.
  rewrite Nat2Z.id, Nat.leb_refl, take_ge by lia. reflexivity.
Qed.

Lemma readFloats_round_trip_witness :
  readFloatsFromFileToHeapBuffer 64 allocator_recycling files_small no_pipes
    "testingWaveElevation.csv" (Some (mkBuffer None 0)) world0 =
    Some ((0, Some (mkBuffer (Some [f32_half; f32_one; f32_half]) 3)),
          mkWorld 1 0 [EvCalloc 3 true]).
Proof.
  apply (readFloats_round_trip 64 allocator_recycling files_small no_pipes
           "testingWaveElevation.csv" [f32_half; f32_one; f32_half]
           (mkBuffer None 0) world0);
    [reflexivity | discriminate | vm_compute; discriminate | reflexivity].
Defined.

Ltac not_printed :=
  rewrite ?not_elem_of_cons; repeat split; try discriminate; apply not_elem_of_nil.

(** X4. How the ingestion fails. Through a null pointer it reports the
    null pointer and returns 1 when the stream is open, and has no defined
    outcome when the stream is null too, which it closes all the same.
    Through a pointer to a buffer it always returns, with 0 or 1, and fails
    in four ways only: the stream does not open (nothing requested, buffer
    untouched), the first pass finds no value (nothing requested, size set
    to 0), the block is refused (null pointer, size set to the number of
    values), or the second pass finds fewer values than the first (the block
    stays in the buffer, with the values read so far followed by zeros).
    The second pass of a regular file never fails: for such a file the
    failed-to-read report is not printed. *)
Theorem readFloats_failures
    (size_bits : positive) (allocator : nat -> AllocOutcome)
    (filesystem : string -> option (list float))
    (pipes : string -> option FILE)
    (filePath : string) (buf : Buffer) (wd : World) :
  let ingest := readFloatsFromFileToHeapBuffer size_bits allocator filesystem pipes in
  let found (file : FILE) :=
    Z.min (Z.of_nat (length (firstPass file))) (SIZE_MAX size_bits) in
  (forall file, fopen filesystem pipes filePath = Some file ->
   ingest filePath None wd =
     Some ((1, None),
           mkWorld (allocations wd) (draws wd) (trace wd ++ [EvPrintf MsgNullPointer]))) /\
  (fopen filesystem pipes filePath = None -> ingest filePath None wd = None) /\
  (fopen filesystem pipes filePath = None ->
   ingest filePath (Some buf) wd =
     Some ((1, Some buf),
           mkWorld (allocations wd) (draws wd)
             (trace wd ++ [EvPrintf (MsgCouldNotOpen filePath)]))) /\
  (forall file, fopen filesystem pipes filePath = Some file -> firstPass file = [] ->
   ingest filePath (Some buf) wd =
     Some ((1, Some (mkBuffer (heapPointer buf) 0)),
           mkWorld (allocations wd) (draws wd)
             (trace wd ++ [EvPrintf (MsgNoDataFound filePath)]))) /\
  (forall file, fopen filesystem pipes filePath = Some file -> firstPass file <> [] ->
   granted (allocator (allocations wd)) = false ->
   ingest filePath (Some buf) wd =
     Some ((1, Some (mkBuffer None (found file))),
           mkWorld (S (allocations wd)) (draws wd)
             (trace wd ++ [EvCalloc (found file) false; EvPrintf MsgOutOfHeapMemory]))) /\
  (forall file, fopen filesystem pipes filePath = Some file -> firstPass file <> [] ->
   granted (allocator (allocations wd)) = true ->
   (length (secondPass file) < Z.to_nat (found file))%nat ->
   ingest filePath (Some buf) wd =
     Some ((1, Some (mkBuffer
                       (Some (secondPass file ++
                              replicate (Z.to_nat (found file) - length (secondPass file))
                                (S754_zero false)))
                       (found file))),
           mkWorld (S (allocations wd)) (draws wd)
             (trace wd ++
              [EvCalloc (found file) true; EvPrintf (MsgFailedToRead filePath)]))) /\
  (exists returnCode buf' wd',
     ingest filePath (Some buf) wd = Some ((returnCode, Some buf'), wd') /\
     (returnCode = 0 \/ returnCode = 1) /\
     (returnCode = 0 <->
      exists file,
        fopen filesystem pipes filePath = Some file /\ firstPass file <> [] /\
        granted (allocator (allocations wd)) = true /\
        (Z.to_nat (found file) <= length (secondPass file))%nat)) /\
  (forall values returnCode buf' wd',
     filesystem filePath = Some values ->
     ingest filePath (Some buf) wd = Some ((returnCode, buf'), wd') ->
     EvPrintf (MsgFailedToRead filePath) ∉ drop (length (trace wd)) (trace wd')).
Proof.
  intros ingest found. subst ingest found. cbv beta.
  assert (forall l : list Event, drop (length (trace wd)) (trace wd ++ l) = l) as Hdrop
    by (intros l; rewrite drop_app_length; reflexivity).
  assert (fopen filesystem pipes filePath = None ->
          readFloatsFromFileToHeapBuffer size_bits allocator filesystem pipes filePath
            (Some buf) wd =
            Some ((1, Some buf),
                  mkWorld (allocations wd) (draws wd)
                    (trace wd ++ [EvPrintf (MsgCouldNotOpen filePath)]))) as Hmissing.
  { intros Hfile. unfold readFloatsFromFileToHeapBuffer. rewrite Hfile. reflexivity. }
  assert (forall file, fopen filesystem pipes filePath = Some file -> firstPass file = [] ->
          readFloatsFromFileToHeapBuffer size_bits allocator filesystem pipes filePath
            (Some buf) wd =
            Some ((1, Some (mkBuffer (heapPointer buf) 0)),
                  mkWorld (allocations wd) (draws wd)
                    (trace wd ++ [EvPrintf (MsgNoDataFound filePath)]))) as Hempty.
  { intros file Hfile Hnil. unfold readFloatsFromFileToHeapBuffer. rewrite Hfile, Hnil.
    rewrite determineBufferSize_spec. cbn [length size heapPointer Z.of_nat].
    rewrite Z.min_l by (pose proof (modulus_pos size_bits); unfold SIZE_MAX; lia).
    reflexivity. }
  split; [|split; [|split; [exact Hmissing|split; [exact Hempty|split; [|split; [|split]]]]]].
  - intros file Hfile. unfold readFloatsFromFileToHeapBuffer. rewrite Hfile. reflexivity.
  - intros Hfile. unfold readFloatsFromFileToHeapBuffer. rewrite Hfile. reflexivity.
  - intros file Hfile Hne Hg.
    rewrite (readFloats_opened size_bits allocator filesystem pipes filePath file)
      by assumption.
    rewrite Hg. reflexivity.
  - intros file Hfile Hne Hg Hshort.
    rewrite (readFloats_opened size_bits allocator filesystem pipes filePath file)
      by assumption.
    rewrite Hg.
    destruct (Nat.leb_spec
                (Z.to_nat (Z.min (Z.of_nat (length (firstPass file))) (SIZE_MAX size_bits)))
                (length (secondPass file)));
      [lia|reflexivity].
  - destruct (fopen filesystem pipes filePath) as [file|] eqn:Hfile.
    + destruct (firstPass file) as [|v values] eqn:Hfirst.
      * do 3 eexists. split; [apply (Hempty file); [reflexivity|exact Hfirst]|].
        split; [right; reflexivity|].
        split; [discriminate|].
        intros (file' & [= <-] & Hne & _). congruence.
      * assert (firstPass file <> []) as Hne by (rewrite Hfirst; discriminate).
        rewrite (readFloats_opened size_bits allocator filesystem pipes filePath file)
          by assumption.
        destruct (granted (allocator (allocations wd))) eqn:Hg.
        -- destruct (Nat.leb_spec
                       (Z.to_nat
                          (Z.min (Z.of_nat (length (firstPass file))) (SIZE_MAX size_bits)))
                       (length (secondPass file)))
             as [Hfull|Hshort].
           ++ do 3 eexists. split; [reflexivity|]. split; [left; reflexivity|].
              split; [|reflexivity].
              intros _. exists file. repeat split; assumption.
           ++ do 3 eexists. split; [reflexivity|]. split; [right; reflexivity|].
              split; [discriminate|].
              intros (file' & [= <-] & _ & _ & Hfull). lia.
        -- do 3 eexists. split; [reflexivity|]. split; [right; reflexivity|].
           split; [discriminate|].
           intros (file' & _ & _ & Hg' & _). discriminate.
    + do 3 eexists. split; [apply Hmissing; reflexivity|]. split; [right; reflexivity|].
      split; [discriminate|].
      intros (file' & Hfile' & _). discriminate.
  - intros values returnCode buf' wd' Hfile Hrun.
    assert (fopen filesystem pipes filePath = Some (mkFILE values values)) as Hopen
      by (unfold fopen; rewrite Hfile; reflexivity).
    destruct values as [|v values].
    + rewrite (Hempty _ Hopen eq_refl) in Hrun. injection Hrun as _ _ <-.
      simpl trace. rewrite Hdrop. not_printed.
    + rewrite (readFloats_opened size_bits allocator filesystem pipes filePath _ _ _ Hopen)
        in Hrun by discriminate.
      cbn [firstPass secondPass] in Hrun.
      destruct (granted (allocator (allocations wd))).
      * destruct (Nat.leb_spec
                    (Z.to_nat (Z.min (Z.of_nat (length (v :: values))) (SIZE_MAX size_bits)))
                    (length (v :: values))) as [_|Hshort]; [|lia].
        injection Hrun as _ _ <-. simpl trace. rewrite Hdrop. not_printed.
      * injection Hrun as _ _ <-. simpl trace. rewrite Hdrop. not_printed.
Qed.

Lemma readFloats_failures_witness :
  readFloatsFromFileToHeapBuffer 64 allocator_zeroing files_small pipes_closed
    "/dev/stdin" (Some (mkBuffer None 0)) world0 =
    Some ((1, Some (mkBuffer
                      (Some [S754_zero false; S754_zero false; S754_zero false]) 3)),
          mkWorld 1 0 [EvCalloc 3 true; EvPrintf (MsgFailedToRead "/dev/stdin")]).
Proof.
  apply (proj1 (proj2 (proj2 (proj2 (proj2 (proj2
           (readFloats_failures 64 allocator_zeroing files_small pipes_closed
              "/dev/stdin" (mkBuffer None 0) world0))))))
           (mkFILE [f32_one; f32_two; f32_half] []));
    [reflexivity | discriminate | reflexivity | vm_compute; lia].
Defined.

(** ** utils.c : mean removal and integration *)

(** The summing loop over the cells after a prefix is the left-to-right sum
    of these cells. *)
Lemma sum_loop_fold (rest : list float) : forall (pre : list float) (total : float),
  for_loop (length rest) (Z.of_nat (length pre))
    (fun i total => v ← load (pre ++ rest) i; Some (fadd binary32 total v)) total =
    Some (fold_left (fadd binary32) rest total).
Proof.
  induction rest as [|a rest IH]; intros pre total; [reflexivity|].
  simpl length. rewrite for_loop_succ.
  rewrite load_lookup by lia. rewrite Nat2Z.id, list_lookup_middle by reflexivity.
  simpl. replace (Z.of_nat (length pre) + 1) with (Z.of_nat (length (pre ++ [a])))
    by (rewrite length_app; simpl; lia).
  replace (pre ++ a :: rest) with ((pre ++ [a]) ++ rest)
    by (rewrite <- app_assoc; reflexivity).
  apply IH.
Qed.

(** X5. Mean removal in closed form. On a buffer that owns its [size] cells
    every cell loses the same value: the sum of the cells, accumulated in
    binary32 from the first cell to the last, divided by the size converted
    to binary32. The size and the number of cells do not change; an empty
    buffer stays empty. *)
Theorem subtractMean_closed_form (cells : list float) :
  let mean :=
    fdiv binary32 (fold_left (fadd binary32) cells (S754_zero false))
      (of_Z binary32 (Z.of_nat (length cells))) in
  subtractMean (mkBuffer (Some cells) (Z.of_nat (length cells))) =
    Some (mkBuffer (Some (map (fun v => fsub binary32 v mean) cells))
            (Z.of_nat (length cells))).
Proof.
  intros mean. unfold subtractMean. cbn [size heapPointer block rewritten].
  rewrite Nat2Z.id.
  pose proof (sum_loop_fold cells [] (S754_zero false)) as Hsum.
  cbn [length app] in Hsum. change (Z.of_nat 0) with 0 in Hsum. rewrite Hsum. simpl mbind. fold mean.
  destruct (for_loop_fill
              (fun i cells => v ← load cells i; store cells i (fsub binary32 v mean))
              (fun i => fsub binary32 (default (S754_zero false) (cells !! Z.to_nat i)) mean)
              (length cells) 0 cells) as (cells' & Hrun & Hlen & Hin & _); try lia.
  { intros i cur Hi Hcur Hsame.
    destruct (load_in_range cur i) as (v & Hv & Hv'); [lia|].
    rewrite Hv. simpl. rewrite <- Hsame, Hv' by lia. reflexivity. }
  rewrite Hrun. simpl. do 2 f_equal. f_equal.
  apply list_eq. intros i. rewrite list_lookup_fmap.
  destruct (cells !! i) as [v|] eqn:Hv.
  - specialize (Hin (Z.of_nat i)). rewrite Nat2Z.id, Hv in Hin.
    apply Hin. apply lookup_lt_Some in Hv. lia.
  - apply lookup_ge_None. apply lookup_ge_None in Hv. lia.
Qed.

(** The loop of [numericalIntegration] over the cells after a prefix of cells
    already overwritten. *)
Lemma integration_loop_from
    (integrate : State -> float -> float -> float -> State) (dt : float)
    (rest : list float) : forall (pre : list float) (oldState : State) (oldAcceleration : float),
  exists finalState lastAcceleration,
    for_loop (length rest) (Z.of_nat (length pre)) (integration_step integrate dt)
      (pre ++ rest, oldState, oldAcceleration) =
      Some (pre ++ positions_from integrate dt oldState oldAcceleration rest,
            finalState, lastAcceleration).
Proof.
  induction rest as [|a rest IH]; intros pre oldState oldAcceleration.
  - simpl. rewrite !app_nil_r. do 2 eexists. reflexivity.
  - simpl length. rewrite for_loop_succ. unfold integration_step at 2.
    rewrite load_lookup by lia. rewrite Nat2Z.id, list_lookup_middle by reflexivity.
    simpl mbind. rewrite store_in_range by (rewrite length_app; simpl; lia).
    simpl mbind. rewrite Nat2Z.id.
    rewrite insert_app_r_alt, Nat.sub_diag by lia. cbn [insert list_insert].
    set (newState := integrate oldState a oldAcceleration dt).
    replace (Z.of_nat (length pre) + 1)
      with (Z.of_nat (length (pre ++ [position newState])))
      by (rewrite length_app; simpl; lia).
    replace (pre ++ position newState :: rest) with ((pre ++ [position newState]) ++ rest)
      by (rewrite <- app_assoc; reflexivity).
    destruct (IH (pre ++ [position newState])
                (mkState (position newState) (speed newState)) a)
      as (finalState & lastAcceleration & Hrun).
    rewrite Hrun. exists finalState, lastAcceleration.
    simpl positions_from. fold newState. rewrite <- app_assoc. reflexivity.
Qed.

Lemma positions_from_length
    (integrate : State -> float -> float -> float -> State) (dt : float)
    (accelerations : list float) : forall (oldState : State) (oldAcceleration : float),
  length (positions_from integrate dt oldState oldAcceleration accelerations) =
    length accelerations.
Proof.
  induction accelerations as [|a accelerations IH]; intros oldState oldAcceleration;
    [reflexivity|].
  simpl. f_equal. apply IH.
Qed.

(** X6. Integration in closed form. On a buffer that owns its [size] cells,
    at least one, the positions written over the accelerations are those of
    the recursion that starts at rest with old acceleration zero and, at
    every later sample, integrates from the state of the sample before with
    that sample's own acceleration as the old one: overwriting the block in
    place does not disturb the accelerations still to be read. The mean of
    the positions is then removed. *)
Theorem numericalIntegration_closed_form
    (integrate : State -> float -> float -> float -> State)
    (cells : list float) (dt : float) :
  cells <> [] ->
  numericalIntegration integrate (mkBuffer (Some cells) (Z.of_nat (length cells))) dt =
    subtractMean
      (mkBuffer
         (Some (positions_from integrate dt
                  (mkState (S754_zero false) (S754_zero false)) (S754_zero false) cells))
         (Z.of_nat (length cells))) /\
  length (positions_from integrate dt
            (mkState (S754_zero false) (S754_zero false)) (S754_zero false) cells) =
    length cells.
Proof.
  intros Hne. split.
  - unfold numericalIntegration, integration_loop.
    cbn [size heapPointer block rewritten]. rewrite Nat2Z.id.
    destruct cells as [|a0 rest] eqn:Hcells; [congruence|]. rewrite <- Hcells.
    replace (load cells 0) with (Some a0) by (rewrite Hcells; reflexivity). simpl mbind.
    destruct (integration_loop_from integrate dt cells []
                (mkState (S754_zero false) (S754_zero false)) (S754_zero false))
      as (finalState & lastAcceleration & Hrun).
    cbn [length app] in Hrun. change (Z.of_nat 0) with 0 in Hrun. rewrite Hrun. reflexivity.
  - apply positions_from_length.
Qed.

Lemma numericalIntegration_closed_form_witness :
  numericalIntegration integrate_trapezoidal
    (mkBuffer (Some [f32_one; f32_two]) (Z.of_nat (length [f32_one; f32_two]))) f32_half =
    subtractMean
      (mkBuffer
         (Some (positions_from integrate_trapezoidal f32_half
                  (mkState (S754_zero false) (S754_zero false)) (S754_zero false)
                  [f32_one; f32_two]))
         (Z.of_nat (length [f32_one; f32_two]))).
Proof.
  apply (proj1 (numericalIntegration_closed_form integrate_trapezoidal
                  [f32_one; f32_two] f32_half ltac:(discriminate))).
Defined.

(** ** main.c : the uncertainty of the measurements *)

Section UncertaintyFacts.
Variable libUncertainFloatUniformDist : nat -> float -> float -> float.
Variable uncertainty : float.

Let lowerBound (value : float) : float :=
  fround binary32 (fsub binary64 value (fdiv binary64 uncertainty (of_Z binary64 2))).
Let upperBound (value : float) : float :=
  fround binary32 (fadd binary64 value (fdiv binary64 uncertainty (of_Z binary64 2))).

(** The loop of [applyUncertainty] over the cells after a prefix of cells
    already replaced. *)
Lemma applyUncertainty_loop_from (rest : list float) : forall (pre : list float) (wd : World),
  for_loopM (length rest) (Z.of_nat (length pre))
    (fun i cells =>
       bind (lift (load cells i)) (fun value =>
       bind (uniformDist libUncertainFloatUniformDist (lowerBound value) (upperBound value))
         (fun drawn => lift (store cells i drawn))))
    (pre ++ rest) wd =
    Some (pre ++ imap (fun i value =>
                         libUncertainFloatUniformDist (draws wd + i)%nat
                           (lowerBound value) (upperBound value)) rest,
          mkWorld (allocations wd) (draws wd + length rest)
            (trace wd ++
             map (fun value => EvUniformDist (lowerBound value) (upperBound value)) rest)).
Proof.
  induction rest as [|a rest IH]; intros pre wd.
  - simpl. unfold ret. rewrite !app_nil_r, Nat.add_0_r. destruct wd; reflexivity.
  - simpl length. simpl for_loopM.
    mstep ltac:(mstep ltac:(apply lift_Some; rewrite load_lookup by lia;
                            rewrite Nat2Z.id; apply list_lookup_middle; reflexivity);
                mstep ltac:(unfold uniformDist; reflexivity);
                apply lift_Some; apply store_in_range;
                rewrite length_app; simpl; lia).
    rewrite Nat2Z.id, insert_app_r_alt, Nat.sub_diag by lia. cbn [insert list_insert].
    set (drawn := libUncertainFloatUniformDist (draws wd) (lowerBound a) (upperBound a)).
    replace (Z.of_nat (length pre) + 1) with (Z.of_nat (length (pre ++ [drawn])))
      by (rewrite length_app; simpl; lia).
    replace (pre ++ drawn :: rest) with ((pre ++ [drawn]) ++ rest)
      by (rewrite <- app_assoc; reflexivity).
    rewrite IH. cbn [allocations draws trace imap map].
    rewrite <- !app_assoc. cbn [app].
    replace (draws wd + 0)%nat with (draws wd) by lia. fold drawn.
    do 2 f_equal.
    + do 2 f_equal. apply imap_ext. intros i v _. simpl. f_equal. lia.
    + f_equal. lia.
Qed.

Lemma applyUncertainty_imap (cells : list float) (wd : World) :
  applyUncertainty libUncertainFloatUniformDist
    (mkBuffer (Some cells) (Z.of_nat (length cells))) uncertainty wd =
    Some (mkBuffer
            (Some (imap (fun i value =>
                           libUncertainFloatUniformDist (draws wd + i)%nat
                             (lowerBound value) (upperBound value)) cells))
            (Z.of_nat (length cells)),
          mkWorld (allocations wd) (draws wd + length cells)
            (trace wd ++
             map (fun value => EvUniformDist (lowerBound value) (upperBound value)) cells)).
Proof.
  unfold applyUncertainty. cbn [size heapPointer block rewritten]. rewrite Nat2Z.id.
  mstep ltac:(apply (applyUncertainty_loop_from cells [] wd)).
  reflexivity.
Qed.
End UncertaintyFacts.

(** X7. The perturbation in closed form. On a buffer that owns its [size]
    cells, every cell is replaced by one draw of the uncertainty source, the
    draws being made in index order; the support of the draw for a cell is
    the value of that cell minus and plus half the uncertainty, computed in
    binary64 and rounded to binary32. The call makes as many draws as there
    are cells and requests no block. *)
Theorem applyUncertainty_closed_form
    (libUncertainFloatUniformDist : nat -> float -> float -> float)
    (cells : list float) (uncertainty : float) (wd : World) :
  let lowerBound value :=
    fround binary32 (fsub binary64 value (fdiv binary64 uncertainty (of_Z binary64 2))) in
  let upperBound value :=
    fround binary32 (fadd binary64 value (fdiv binary64 uncertainty (of_Z binary64 2))) in
  applyUncertainty libUncertainFloatUniformDist
    (mkBuffer (Some cells) (Z.of_nat (length cells))) uncertainty wd =
    Some (mkBuffer
            (Some (imap (fun i value =>
                           libUncertainFloatUniformDist (draws wd + i)%nat
                             (lowerBound value) (upperBound value)) cells))
            (Z.of_nat (length cells)),
          mkWorld (allocations wd) (draws wd + length cells)
            (trace wd ++
             map (fun value => EvUniformDist (lowerBound value) (upperBound value)) cells)).
Proof.
  intros lowerBound upperBound. apply applyUncertainty_imap.
Qed.

(** ** signalProcessing.c : sizes, bounds and failures of the transform *)

Lemma store_out_of_range {A : Type} (p : list A) (i : Z) (v : A) :
  Z.of_nat (length p) <= i -> store p i v = None.
Proof.
  intros Hi. unfold store.
  destruct (Z.ltb_spec i (Z.of_nat (length p))); [lia|].
  rewrite andb_false_r. reflexivity.
Qed.

(** A run of [a + b] iterations is a run of [a] followed by a run of [b]. *)
Lemma for_loop_add {S : Type} (body : Z -> S -> option S) (a b : nat) :
  forall (first : Z) (s : S),
    for_loop (a + b) first body s =
    for_loop a first body s ≫= for_loop b (first + Z.of_nat a) body.
Proof.
  induction a as [|a IH]; intros first s.
  - simpl. rewrite Z.add_0_r. reflexivity.
  - simpl plus. rewrite !for_loop_succ.
    destruct (body first s) as [s'|]; [|reflexivity]. simpl.
    rewrite IH. replace (first + 1 + Z.of_nat a) with (first + Z.of_nat (Datatypes.S a)) by lia.
    reflexivity.
Qed.

(** The rounding returns for every argument. *)
Lemma roundUp_total (size_bits : positive) (arg : Z) :
  exists sz, roundUpToNextHighestPowerOfTwo size_bits arg = Some sz /\ 0 <= sz.
Proof.
  destruct (Z.le_gt_cases arg (SIZE_MAX size_bits / 2)) as [Hle|Hgt].
  - destruct (roundUp_in_range size_bits arg Hle) as (j & Hj & Hrun & _).
    exists (2 ^ j). split; [exact Hrun|]. apply Z.pow_nonneg. lia.
  - exists 0. split; [apply roundUp_overflow; lia|lia].
Qed.

(** X8. Rounding twice. For a size [n] between 1 and half the largest size
    the rounded size [sz] is its own rounding as long as it does not exceed
    half the largest size; it exceeds it exactly when
    [2 * n > SIZE_MAX / 2 + 1], and then the rounding of [sz] is the overflow
    value 0: a series in the upper quarter of the sizes is padded to a size
    that the rounding itself rejects. *)
Theorem roundUp_twice (size_bits : positive) (n sz : Z) :
  1 <= n <= SIZE_MAX size_bits / 2 ->
  roundUpToNextHighestPowerOfTwo size_bits n = Some sz ->
  (sz <= SIZE_MAX size_bits / 2 -> roundUpToNextHighestPowerOfTwo size_bits sz = Some sz) /\
  (SIZE_MAX size_bits / 2 < sz -> roundUpToNextHighestPowerOfTwo size_bits sz = Some 0) /\
  (SIZE_MAX size_bits / 2 < sz <-> SIZE_MAX size_bits / 2 + 1 < 2 * n).
Proof.
  intros Hn Hround.
  destruct (roundUp_in_range size_bits n (proj2 Hn)) as (j & Hj & Hrun & Hup & Hmin).
  rewrite Hround in Hrun. injection Hrun as ->.
  pose proof (SIZE_MAX_half size_bits) as Hhalf.
  split; [intros Hle; apply roundUp_pow2; [lia|exact Hle]|].
  split; [apply roundUp_overflow|].
  rewrite Hhalf.
  replace (2 ^ (Z.pos size_bits - 1) - 1 + 1) with (2 ^ (Z.pos size_bits - 1)) by lia.
  assert (2 <= Z.pos size_bits) as Hw.
  { destruct (Z.le_gt_cases 2 (Z.pos size_bits)) as [?|Hc]; [assumption|].
    replace (Z.pos size_bits - 1) with 0 in Hhalf by lia. simpl in Hhalf. lia. }
  assert (2 ^ (Z.pos size_bits - 1) = 2 * 2 ^ (Z.pos size_bits - 2)) as Hsplit.
  { replace (Z.pos size_bits - 1) with (Z.succ (Z.pos size_bits - 2)) by lia.
    apply Z.pow_succ_r. lia. }
  split.
  - intros Hbig.
    assert (Z.pos size_bits - 1 <= j) as Hjw.
    { destruct (Z.le_gt_cases (Z.pos size_bits - 1) j) as [?|Hc]; [assumption|].
      assert (2 ^ j <= 2 ^ (Z.pos size_bits - 2)) by (apply Z.pow_le_mono_r; lia).
      assert (0 < 2 ^ (Z.pos size_bits - 2)) by (apply Z.pow_pos_nonneg; lia). lia. }
    destruct Hmin as [->|Hmin]; [lia|].
    assert (2 ^ (Z.pos size_bits - 2) <= 2 ^ (j - 1)) by (apply Z.pow_le_mono_r; lia).
    lia.
  - intros Hbig.
    assert (2 ^ (Z.pos size_bits - 2) < 2 ^ j) as Hlt by lia.
    apply Z.pow_lt_mono_r_iff in Hlt; [|lia|lia].
    assert (2 ^ (Z.pos size_bits - 1) <= 2 ^ j) by (apply Z.pow_le_mono_r; lia).
    lia.
Qed.

Lemma roundUp_twice_witness :
  (4 <= SIZE_MAX 4 / 2 -> roundUpToNextHighestPowerOfTwo 4 4 = Some 4) /\
  (SIZE_MAX 4 / 2 < 8 -> roundUpToNextHighestPowerOfTwo 4 8 = Some 0) /\
  (SIZE_MAX 4 / 2 < 8 <-> SIZE_MAX 4 / 2 + 1 < 2 * 5).
Proof.
  split.
  - apply (proj1 (roundUp_twice 4 3 4 ltac:(vm_compute; split; discriminate)
                                ltac:(reflexivity))).
  - apply (proj2 (roundUp_twice 4 5 8 ltac:(vm_compute; split; discriminate)
                                ltac:(reflexivity))).
Defined.

Section SpectrumBounds.
Variable size_bits : positive.
Variable allocator : nat -> AllocOutcome.
Variables cosf sinf : float -> float.
Variable acos : double -> double.

(** A periodogram of more bins than its output block has cells writes
    outside the block. *)
Lemma periodogram_out_of_bounds (S F : list float) (N : Z) :
  Z.of_nat (length S) < N -> N <= Z.of_nat (length F) ->
  periodogram S F N = None.
Proof.
  intros HS HF. unfold periodogram.
  replace (Z.to_nat N) with (length S + (Z.to_nat N - length S))%nat by lia.
  rewrite for_loop_add.
  destruct (periodogram_spec S F (Z.of_nat (length S))) as (S' & Hrun & Hlen & _); try lia.
  unfold periodogram in Hrun. rewrite Nat2Z.id in Hrun. rewrite Hrun. simpl mbind.
  destruct (Z.to_nat N - length S)%nat as [|b] eqn:Hb; [lia|].
  rewrite for_loop_succ.
  destruct (load_in_range F (0 + Z.of_nat (length S))) as (f & Hf & _); [lia|].
  rewrite Hf. simpl. rewrite store_out_of_range by lia. reflexivity.
Qed.
End SpectrumBounds.

(** X9. A spectrum buffer that is too short. Where the allocator grants its
    requests and the output block holds fewer cells than the rounded size of
    the series, [calculatePowerSpectrum] writes past the end of the block:
    the call has no defined outcome. The caller has to provide the rounded
    size, not the number of samples. *)
Theorem calculatePowerSpectrum_short_buffer
    (size_bits : positive) (allocator : nat -> AllocOutcome)
    (cosf sinf : float -> float) (acos : double -> double)
    (powerSpectrum timeSeriesData : list float) (N sz : Z) (wd : World) :
  granted (allocator (allocations wd)) = true ->
  granted (allocator (S (allocations wd))) = true ->
  granted (allocator (S (S (allocations wd)))) = true ->
  0 <= N <= SIZE_MAX size_bits / 2 ->
  roundUpToNextHighestPowerOfTwo size_bits N = Some sz ->
  N <= Z.of_nat (length timeSeriesData) ->
  Z.of_nat (length powerSpectrum) < sz ->
  calculatePowerSpectrum size_bits allocator cosf sinf acos powerSpectrum
    timeSeriesData N wd = None.
Proof.
  intros Hg1 Hg2 Hg3 HN Hround Hx Hshort.
  destruct (fft_spec size_bits allocator cosf sinf acos
              (replicate (Z.to_nat sz) (S754_zero false)) timeSeriesData N sz
              (mkWorld (S (allocations wd)) (draws wd) (trace wd ++ [EvCalloc sz true])))
    as (Fcplx & F & Hfft & HlenF & _); try assumption; try lia.
  { rewrite length_replicate. lia. }
  rewrite length_replicate in HlenF.
  unfold calculatePowerSpectrum.
  mstep ltac:(apply lift_Some; exact Hround).
  mstep ltac:(apply calloc_granted; exact Hg1).
  mstep ltac:(exact Hfft).
  change (failed 0) with false. cbv iota.
  unfold bind at 1, lift. rewrite periodogram_out_of_bounds by lia. reflexivity.
Qed.

Lemma calculatePowerSpectrum_short_buffer_witness :
  calculatePowerSpectrum 64 allocator_zeroing cosf_series sinf_series acos_minus_one
    (replicate 3 f32_one) [f32_one; f32_two; f32_one] 3 world0 = None.
Proof.
  apply (calculatePowerSpectrum_short_buffer 64 allocator_zeroing cosf_series sinf_series
           acos_minus_one (replicate 3 f32_one) [f32_one; f32_two; f32_one] 3 4 world0);
    try reflexivity; simpl; try lia.
  vm_compute. split; discriminate.
Defined.

(** X10. Refused scratch blocks. When the block of the magnitude spectrum is
    refused, [calculatePowerSpectrum] requests nothing more; when it is
    granted and one of the two blocks of [fft] is refused, both have been
    requested. In either case the call returns 1, reports the lack of memory
    once, leaves the output block as it was, and frees nothing: the blocks
    that were granted are not released. *)
Theorem calculatePowerSpectrum_out_of_memory
    (size_bits : positive) (allocator : nat -> AllocOutcome)
    (cosf sinf : float -> float) (acos : double -> double)
    (powerSpectrum timeSeriesData : list float) (N sz : Z) (wd : World) :
  roundUpToNextHighestPowerOfTwo size_bits N = Some sz ->
  (granted (allocator (allocations wd)) = false ->
   calculatePowerSpectrum size_bits allocator cosf sinf acos powerSpectrum
     timeSeriesData N wd =
     Some ((1, powerSpectrum),
           mkWorld (1 + allocations wd) (draws wd)
             (trace wd ++ [EvCalloc sz false; EvPrintf MsgOutOfHeapMemory]))) /\
  (granted (allocator (allocations wd)) = true ->
   granted (allocator (S (allocations wd))) &&
     granted (allocator (S (S (allocations wd)))) = false ->
   calculatePowerSpectrum size_bits allocator cosf sinf acos powerSpectrum
     timeSeriesData N wd =
     Some ((1, powerSpectrum),
           mkWorld (3 + allocations wd) (draws wd)
             (trace wd ++
              [EvCalloc sz true;
               EvCalloc sz (granted (allocator (S (allocations wd))));
               EvCalloc sz (granted (allocator (S (S (allocations wd)))));
               EvPrintf MsgOutOfHeapMemory]))).
Proof.
  intros Hround. split.
  - intros Hg1. unfold calculatePowerSpectrum.
    mstep ltac:(apply lift_Some; exact Hround).
    unfold bind, calloc, printf, emit, ret. rewrite Hg1. simpl.
    rewrite <- app_assoc. reflexivity.
  - intros Hg1 Hg23. unfold calculatePowerSpectrum.
    mstep ltac:(apply lift_Some; exact Hround).
    mstep ltac:(apply calloc_granted; exact Hg1).
    unfold fft.
    mstep ltac:(mstep ltac:(apply lift_Some; exact Hround);
                unfold bind, calloc, ret; cbn [allocations draws trace];
                instantiate (1 := mkWorld (3 + allocations wd) (draws wd)
                  (trace wd ++
                   [EvCalloc sz true;
                    EvCalloc sz (granted (allocator (S (allocations wd))));
                    EvCalloc sz (granted (allocator (S (S (allocations wd)))))]));
                instantiate (1 := (1, replicate (Z.to_nat sz) (S754_zero false)));
                destruct (granted (allocator (S (allocations wd))));
                destruct (granted (allocator (S (S (allocations wd)))));
                try discriminate; rewrite <- !app_assoc; reflexivity).
    change (failed 1) with true. cbv iota.
    unfold bind, printf, emit, ret. simpl. rewrite <- !app_assoc. reflexivity.
Qed.

Lemma calculatePowerSpectrum_out_of_memory_witness :
  calculatePowerSpectrum 64 (fun _ => AllocFails) cosf_series sinf_series acos_minus_one
    [f32_one; f32_one] [f32_one; f32_two] 2 world0 =
    Some ((1, [f32_one; f32_one]),
          mkWorld 1 0 [EvCalloc 2 false; EvPrintf MsgOutOfHeapMemory]).
Proof.
  apply (proj1 (calculatePowerSpectrum_out_of_memory 64 (fun _ => AllocFails)
                  cosf_series sinf_series acos_minus_one [f32_one; f32_one]
                  [f32_one; f32_two] 2 2 world0 ltac:(reflexivity))).
  reflexivity.
Defined.

(** ** signalProcessing.c : padding *)

(** The loop of [fft] that copies [n] samples into a zeroed block of [m]
    complex cells. *)
Lemma copy_loop_closed_form (x : list float) (n m : nat) :
  (n <= length x)%nat -> (n <= m)%nat ->
  for_loop n 0
    (fun i paddedX =>
       v ← load x i; c ← load paddedX i;
       store paddedX i (mkComplex v (imaginary c)))
    (replicate m (mkComplex (S754_zero false) (S754_zero false))) =
    Some (map (fun v => mkComplex v (S754_zero false)) (take n x) ++
          replicate (m - n) (mkComplex (S754_zero false) (S754_zero false))).
Proof.
  intros Hx Hm.
  set (czero := mkComplex (S754_zero false) (S754_zero false)).
  destruct (for_loop_fill
              (fun i paddedX =>
                 v ← load x i; c ← load paddedX i;
                 store paddedX i (mkComplex v (imaginary c)))
              (fun i => mkComplex (default (S754_zero false) (x !! Z.to_nat i))
                          (S754_zero false))
              n 0 (replicate m czero)) as (cells & Hrun & Hlen & Hin & Hout).
  - lia.
  - rewrite length_replicate. lia.
  - intros i cur Hi Hcur Hsame. rewrite length_replicate in Hcur.
    destruct (load_in_range x i) as (v & Hv & Hv'); [lia|].
    destruct (load_in_range cur i) as (c & Hc & Hc'); [lia|].
    rewrite Hv, Hv', Hc. simpl.
    rewrite Hsame in Hc' by lia.
    apply lookup_replicate_1 in Hc'. destruct Hc' as [-> _]. reflexivity.
  - rewrite Hrun. f_equal. rewrite length_replicate in Hlen.
    apply list_eq. intros i.
    destruct (Nat.lt_ge_cases i n) as [Hi|Hi].
    + rewrite lookup_app_l by (rewrite length_map, length_take; lia).
      rewrite list_lookup_fmap, lookup_take_lt by lia.
      specialize (Hin (Z.of_nat i)). rewrite Nat2Z.id in Hin. rewrite Hin by lia.
      destruct (lookup_lt_is_Some_2 x i) as [v Hv]; [lia|]. rewrite Hv. reflexivity.
    + rewrite Hout by lia.
      rewrite lookup_app_r by (rewrite length_map, length_take; lia).
      rewrite length_map, length_take, Nat.min_l by lia.
      destruct (Nat.lt_ge_cases i m) as [Him|Him].
      * rewrite !lookup_replicate_2 by lia. reflexivity.
      * rewrite !(proj1 (lookup_replicate_None _ _ _)) by lia. reflexivity.
Qed.

(** X11. Implicit zero padding. For a series of [N] samples whose rounded
    size [sz] is at most half the largest size, the transform of the [N]
    samples is the transform of the [sz] samples obtained by writing 0.0
    after them: same return code, same magnitudes, same requests and
    releases, whether the blocks are granted or not. *)
Theorem fft_pads_with_zeros
    (size_bits : positive) (allocator : nat -> AllocOutcome)
    (cosf sinf : float -> float) (acos : double -> double)
    (F x : list float) (N sz : Z) (wd : World) :
  0 <= N <= SIZE_MAX size_bits / 2 ->
  N <= Z.of_nat (length x) ->
  roundUpToNextHighestPowerOfTwo size_bits N = Some sz ->
  sz <= SIZE_MAX size_bits / 2 ->
  fft size_bits allocator cosf sinf acos F x N wd =
  fft size_bits allocator cosf sinf acos F
    (take (Z.to_nat N) x ++ replicate (Z.to_nat (sz - N)) (S754_zero false)) sz wd.
Proof.
  intros HN Hx Hround Hsz.
  destruct (roundUp_in_range size_bits N (proj2 HN)) as (j & Hj & Hrun & Hup & _).
  rewrite Hround in Hrun. injection Hrun as ->.
  assert (roundUpToNextHighestPowerOfTwo size_bits (2 ^ j) = Some (2 ^ j)) as Hround2
    by (apply roundUp_pow2; lia).
  unfold fft, bind, lift, calloc. rewrite Hround, Hround2.
  destruct (granted (allocator (allocations wd))); [|reflexivity].
  cbn [allocations].
  destruct (granted (allocator (S (allocations wd)))); [|reflexivity].
  rewrite (copy_loop_closed_form x (Z.to_nat N) (Z.to_nat (2 ^ j))) by lia.
  rewrite (copy_loop_closed_form _ (Z.to_nat (2 ^ j)) (Z.to_nat (2 ^ j)))
    by (rewrite ?length_app, ?length_take, ?length_replicate; lia).
  rewrite Nat.sub_diag, app_nil_r.
  rewrite (take_ge (_ ++ _))
    by (rewrite ?length_app, ?length_take, ?length_replicate; lia).
  rewrite map_app. change (map ?f (replicate ?n ?v)) with (f <$> replicate n v).
  rewrite fmap_replicate.
  replace (Z.to_nat (2 ^ j - N)) with (Z.to_nat (2 ^ j) - Z.to_nat N)%nat by lia.
  reflexivity.
Qed.

Lemma fft_pads_with_zeros_witness :
  fft 64 allocator_zeroing cosf_series sinf_series acos_minus_one
    (replicate 4 f32_one) [f32_one; f32_two; f32_half] 3 world0 =
  fft 64 allocator_zeroing cosf_series sinf_series acos_minus_one
    (replicate 4 f32_one)
    (take (Z.to_nat 3) [f32_one; f32_two; f32_half] ++
     replicate (Z.to_nat (4 - 3)) (S754_zero false)) 4 world0.
Proof.
  apply (fft_pads_with_zeros 64 allocator_zeroing cosf_series sinf_series acos_minus_one
           (replicate 4 f32_one) [f32_one; f32_two; f32_half] 3 4 world0);
    try reflexivity; try (simpl; lia); vm_compute; try split; discriminate.
Defined.

(** ** signalProcessing.c : the transform of a series of zeros *)

Lemma fmul_finite_zero (a z : float) :
  is_finite a = true -> is_zero z = true -> is_zero (fmul binary32 a z) = true.
Proof. destruct a, z; simpl; intros; congruence. Qed.

Lemma fadd_zero_zero (y z : float) :
  is_zero y = true -> is_zero z = true -> is_zero (fadd binary32 y z) = true.
Proof. destruct y as [[]| | |], z as [[]| | |]; simpl; intros; congruence. Qed.

Lemma fsub_zero_zero (y z : float) :
  is_zero y = true -> is_zero z = true -> is_zero (fsub binary32 y z) = true.
Proof. destruct y as [[]| | |], z as [[]| | |]; simpl; intros; congruence. Qed.

Lemma complexMagnitude_zero (c : Complex) :
  zero_complex c = true -> complexMagnitude c = S754_zero false.
Proof.
  destruct c as [[[]| | |] [[]| | |]]; unfold zero_complex; simpl; intros;
    congruence || reflexivity.
Qed.

Lemma zero_complex_parts (c : Complex) :
  zero_complex c = true <-> is_zero (real c) = true /\ is_zero (imaginary c) = true.
Proof. unfold zero_complex. apply andb_true_iff. Qed.

Section ZeroTransform.
Variable size_bits : positive.
Variables cosf sinf : float -> float.
Variable acos : double -> double.
Local Abbreviation w := (Z.pos size_bits).

(** The largest transform size for which the twiddle factors are known to
    be finite. *)
Variable limit : Z.
Hypothesis twiddles_finite : forall k N,
  0 <= k -> 2 * k < N -> N <= limit ->
  is_finite (cosf (twiddle_angle acos k N)) = true /\
  is_finite (sinf (twiddle_angle acos k N)) = true.

Lemma butterfly_zeros (Fo N k : Z) (F0 cur : list Complex) :
  0 <= Fo -> 0 <= k < N / 2 -> N <= 2 ^ (w - 1) -> N <= limit ->
  Fo + N <= Z.of_nat (length F0) ->
  zeros_in Fo N F0 cur ->
  exists cur', butterfly size_bits cosf sinf acos Fo N k cur = Some cur' /\
               zeros_in Fo N F0 cur'.
Proof.
  intros HFo Hk HN Hlimit HF (Hlen & Hzero & Hframe).
  assert (2 * (N / 2) <= N /\ N / 2 <= N) by (Z.div_mod_to_equations; lia).
  destruct (twiddles_finite k N) as [Hcos Hsin]; try lia.
  unfold butterfly. rewrite (wrap_small size_bits (k + N / 2)) by lia.
  destruct (load_in_range cur (Fo + k)) as (p & Hp & Hp'); [lia|].
  destruct (load_in_range cur (Fo + (k + N / 2))) as (odd & Hodd & Hodd'); [lia|].
  rewrite Hp, Hodd. simpl.
  rewrite store_in_range by lia. simpl.
  rewrite store_in_range by (rewrite length_insert; lia).
  assert (zero_complex p = true) as Zp
    by (apply (Hzero (Z.to_nat (Fo + k)) p); [lia|exact Hp']).
  assert (zero_complex odd = true) as Zodd
    by (apply (Hzero (Z.to_nat (Fo + (k + N / 2))) odd); [lia|exact Hodd']).
  apply zero_complex_parts in Zp, Zodd. destruct Zp as [Zp1 Zp2], Zodd as [Zo1 Zo2].
  set (q := complexMultiply (complexExponent cosf sinf (twiddle_angle acos k N)) odd).
  assert (is_zero (real q) = true /\ is_zero (imaginary q) = true) as [Zq1 Zq2].
  { unfold q, complexMultiply, complexExponent. simpl. split.
    - apply fsub_zero_zero; apply fmul_finite_zero; assumption.
    - apply fadd_zero_zero; apply fmul_finite_zero; assumption. }
  eexists. split; [reflexivity|]. split; [|split].
  - rewrite !length_insert. exact Hlen.
  - intros i c Hi Hc.
    destruct (Nat.eq_dec i (Z.to_nat (Fo + (k + N / 2)))) as [->|Hne1].
    { rewrite list_lookup_insert_eq in Hc by (rewrite length_insert; lia).
      injection Hc as <-. apply zero_complex_parts. simpl.
      split; apply fsub_zero_zero; assumption. }
    rewrite list_lookup_insert_ne in Hc by congruence.
    destruct (Nat.eq_dec i (Z.to_nat (Fo + k))) as [->|Hne2].
    { rewrite list_lookup_insert_eq in Hc by lia.
      injection Hc as <-. apply zero_complex_parts. simpl.
      split; apply fadd_zero_zero; assumption. }
    rewrite list_lookup_insert_ne in Hc by congruence.
    apply (Hzero i c Hi Hc).
  - intros i Hi. rewrite !list_lookup_insert_ne by lia. apply Hframe. exact Hi.
Qed.

(** On an input block of zeros the transform leaves zeros in its output
    cells and does not touch the others. *)
Lemma dit2FFT_zeros (x : list Complex) (n : nat) :
  (forall i c, x !! i = Some c -> zero_complex c = true) ->
  forall (fuel : nat) (F : list Complex) (Fo xo stride : Z),
    (n < fuel)%nat ->
    0 <= Fo -> Fo + 2 ^ Z.of_nat n <= Z.of_nat (length F) ->
    0 <= xo -> 0 <= stride ->
    xo + (2 ^ Z.of_nat n - 1) * stride < Z.of_nat (length x) ->
    2 ^ Z.of_nat n * stride <= 2 ^ (w - 1) ->
    2 ^ Z.of_nat n <= 2 ^ (w - 1) ->
    2 ^ Z.of_nat n <= limit ->
    exists F',
      dit2FFT size_bits cosf sinf acos fuel F Fo x xo (2 ^ Z.of_nat n) stride = Some F' /\
      zeros_in Fo (2 ^ Z.of_nat n) F F'.
Proof.
  intros Hx.
  induction n as [|n IH];
    intros fuel F Fo xo stride Hfuel HFo HF Hxo Hstride Hxs Hwrap HN Hlimit;
    (destruct fuel as [|fuel]; [lia|]); simpl dit2FFT.
  - change (2 ^ Z.of_nat 0) with 1 in *. simpl.
    destruct (load_in_range x xo) as (x0 & Hx0 & Hx0'); [lia|].
    rewrite Hx0. simpl. rewrite store_in_range by lia.
    eexists. split; [reflexivity|]. split; [apply length_insert|]. split.
    + intros i c Hi Hc. replace i with (Z.to_nat Fo) in Hc by lia.
      rewrite list_lookup_insert_eq in Hc by lia. injection Hc as <-.
      destruct x0 as [re im]. apply (Hx _ _ Hx0').
    + intros i Hi. apply list_lookup_insert_ne. lia.
  - assert (2 ^ Z.of_nat (S n) = 2 * 2 ^ Z.of_nat n) as Hpow
      by (rewrite Nat2Z.inj_succ, Z.pow_succ_r by lia; reflexivity).
    assert (0 < 2 ^ Z.of_nat n) as Hpos by (apply Z.pow_pos_nonneg; lia).
    rewrite Hpow in *.
    assert (2 * 2 ^ Z.of_nat n / 2 = 2 ^ Z.of_nat n) as Hhalf
      by (rewrite Z.mul_comm; apply Z.div_mul; lia).
    rewrite Hhalf.
    destruct (Z.eqb_spec (2 * 2 ^ Z.of_nat n) 1) as [?|_]; [lia|].
    assert (wrap size_bits (2 * stride) = 2 * stride) as Hstride2.
    { apply wrap_small. split; [lia|]. nia. }
    rewrite Hstride2.
    destruct (IH fuel F Fo xo (2 * stride)) as (F1 & HF1 & Hlen1 & Hz1 & Hf1);
      try lia; try nia.
    rewrite HF1. simpl.
    destruct (IH fuel F1 (Fo + 2 ^ Z.of_nat n) (xo + stride) (2 * stride))
      as (F2 & HF2 & Hlen2 & Hz2 & Hf2); try lia; try nia.
    rewrite HF2. simpl.
    apply (for_loop_invariant (zeros_in Fo (2 * 2 ^ Z.of_nat n) F)).
    + split; [congruence|]. split.
      * intros i c Hi Hc.
        destruct (Z.lt_ge_cases (Z.of_nat i) (Fo + 2 ^ Z.of_nat n)) as [Hlow|Hhigh].
        -- rewrite Hf2 in Hc by lia. apply (Hz1 i c); [lia|exact Hc].
        -- apply (Hz2 i c); [lia|exact Hc].
      * intros i Hi. rewrite Hf2 by lia. apply Hf1. lia.
    + intros k cur Hk Hcur.
      apply butterfly_zeros; try lia; try assumption.
Qed.
End ZeroTransform.

(** X12. The transform of zeros. For a series whose [N] samples are zeros,
    with the blocks granted and the twiddle factors of the sizes up to the
    rounded size finite, [fft] returns 0 and every one of the [sz] magnitude
    bins is exactly +0.0. *)
Theorem fft_of_zeros
    (size_bits : positive) (allocator : nat -> AllocOutcome)
    (cosf sinf : float -> float) (acos : double -> double)
    (F x : list float) (N sz : Z) (wd : World) :
  granted (allocator (allocations wd)) = true ->
  granted (allocator (S (allocations wd))) = true ->
  0 <= N <= SIZE_MAX size_bits / 2 ->
  roundUpToNextHighestPowerOfTwo size_bits N = Some sz ->
  N <= Z.of_nat (length x) ->
  sz <= Z.of_nat (length F) ->
  (forall i v, (i < Z.to_nat N)%nat -> x !! i = Some v -> is_zero v = true) ->
  (forall k N', 0 <= k -> 2 * k < N' -> N' <= sz ->
     is_finite (cosf (twiddle_angle acos k N')) = true /\
     is_finite (sinf (twiddle_angle acos k N')) = true) ->
  exists F',
    fft size_bits allocator cosf sinf acos F x N wd =
      Some ((0, F'),
            mkWorld (S (S (allocations wd))) (draws wd)
              (trace wd ++ [EvCalloc sz true; EvCalloc sz true; EvFree; EvFree])) /\
    take (Z.to_nat sz) F' = replicate (Z.to_nat sz) (S754_zero false) /\
    drop (Z.to_nat sz) F' = drop (Z.to_nat sz) F.
Proof.
  intros Hg1 Hg2 HN Hround Hx HF Hzeros Htw.
  destruct (roundUp_in_range size_bits N (proj2 HN)) as (j & Hj & Hrun & Hup & _).
  rewrite Hround in Hrun. injection Hrun as ->.
  assert (0 < 2 ^ j) as Hpos by (apply Z.pow_pos_nonneg; lia).
  assert (2 ^ j <= 2 ^ (Z.pos size_bits - 1)) as Hmax by (apply Z.pow_le_mono_r; lia).
  set (czero := mkComplex (S754_zero false) (S754_zero false)).
  pose proof (copy_loop_closed_form x (Z.to_nat N) (Z.to_nat (2 ^ j))
                ltac:(lia) ltac:(lia)) as Hcopy.
  set (paddedX := map (fun v => mkComplex v (S754_zero false)) (take (Z.to_nat N) x) ++
                  replicate (Z.to_nat (2 ^ j) - Z.to_nat N) czero) in Hcopy.
  assert (Z.of_nat (length paddedX) = 2 ^ j) as HlenX.
  { unfold paddedX. rewrite length_app, length_map, length_take, length_replicate. lia. }
  assert (forall i c, paddedX !! i = Some c -> zero_complex c = true) as HzeroX.
  { intros i c Hc. unfold paddedX in Hc. apply lookup_app_Some in Hc.
    destruct Hc as [Hc|[_ Hc]].
    - rewrite list_lookup_fmap in Hc.
      destruct (take (Z.to_nat N) x !! i) as [v|] eqn:Hv; [|discriminate].
      injection Hc as <-. apply lookup_take_Some in Hv. destruct Hv as [Hv Hi].
      apply zero_complex_parts. simpl. split; [apply (Hzeros i v Hi Hv)|reflexivity].
    - apply lookup_replicate_1 in Hc. destruct Hc as [-> _]. reflexivity. }
  destruct (dit2FFT_zeros size_bits cosf sinf acos (2 ^ j) Htw paddedX (Z.to_nat j) HzeroX
              (S (Pos.to_nat size_bits)) (replicate (Z.to_nat (2 ^ j)) czero) 0 0 1)
    as (Fcplx & HFcplx & HlenF & HzeroF & _);
    rewrite ?Z2Nat.id, ?length_replicate by lia; try lia.
  rewrite Z2Nat.id in HFcplx, HzeroF by lia. rewrite length_replicate in HlenF.
  destruct (for_loop_fill
              (fun i F => c ← load Fcplx i; store F i (complexMagnitude c))
              (fun _ => S754_zero false)
              (Z.to_nat (2 ^ j)) 0 F) as (F' & HF' & HlenF' & Hin & Hout); try lia.
  { intros i cur Hi _ _.
    destruct (load_in_range Fcplx i) as (c & Hc & Hc'); [lia|].
    rewrite Hc. simpl. rewrite (complexMagnitude_zero c); [reflexivity|].
    apply (HzeroF (Z.to_nat i) c); [lia|exact Hc']. }
  exists F'. split; [|split].
  - unfold fft.
    mstep ltac:(apply lift_Some; exact Hround).
    mstep ltac:(apply calloc_granted; exact Hg1).
    mstep ltac:(apply calloc_granted; exact Hg2).
    mstep ltac:(apply lift_Some; exact Hcopy).
    mstep ltac:(apply lift_Some; exact HFcplx).
    mstep ltac:(apply lift_Some; exact HF').
    unfold bind, free, emit, ret. simpl. rewrite <- !app_assoc. reflexivity.
  - apply list_eq. intros i.
    destruct (Nat.lt_ge_cases i (Z.to_nat (2 ^ j))) as [Hi|Hi].
    + rewrite lookup_take_lt, lookup_replicate_2 by lia.
      specialize (Hin (Z.of_nat i)). rewrite Nat2Z.id in Hin. apply Hin. lia.
    + rewrite lookup_take_ge by lia. symmetry. apply lookup_replicate_None. lia.
  - apply list_eq. intros i. rewrite !lookup_drop. apply Hout. lia.
Qed.

Lemma fft_of_zeros_witness :
  exists F',
    fft 64 allocator_recycling cosf_series sinf_series acos_minus_one
      [f32_one; f32_one; f32_one] [S754_zero false; S754_zero true] 2 world0 =
      Some ((0, F'),
            mkWorld 2 0 [EvCalloc 2 true; EvCalloc 2 true; EvFree; EvFree]) /\
    take (Z.to_nat 2) F' = replicate (Z.to_nat 2) (S754_zero false) /\
    drop (Z.to_nat 2) F' = drop (Z.to_nat 2) [f32_one; f32_one; f32_one].
Proof.
  apply (fft_of_zeros 64 allocator_recycling cosf_series sinf_series acos_minus_one
           [f32_one; f32_one; f32_one] [S754_zero false; S754_zero true] 2 2 world0);
    try reflexivity; try (simpl; lia).
  - vm_compute. split; discriminate.
  - intros [|[|i]] v Hi Hv; simpl in Hv; try injection Hv as <-; try reflexivity.
    simpl in Hi. lia.
  - intros k N' Hk Hlt Hle.
    assert (k = 0) as -> by lia.
    assert (N' = 1 \/ N' = 2) as [-> | ->] by lia; vm_compute; split; reflexivity.
Defined.

(** ** main.c : the characterisation of the RAO *)

Lemma extendHeapBuffer_keeps_draws (allocator : nat -> AllocOutcome)
    (buf : Buffer) (newSize : Z) (wd wd' : World) (r : Z * Buffer) :
  extendHeapBuffer allocator buf newSize wd = Some (r, wd') -> draws wd' = draws wd.
Proof.
  unfold extendHeapBuffer, bind, reallocarray, printf, emit, ret.
  destruct (newSize <=? size buf); [intros [= _ <-]; reflexivity|].
  destruct (allocator (allocations wd)); simpl; intros [= _ <-]; reflexivity.
Qed.

Lemma characteriseRAO_success_spec
    (size_bits : positive) (allocator : nat -> AllocOutcome)
    (filesystem : string -> option (list float))
    (pipes : string -> option FILE)
    (libUncertainFloatUniformDist : nat -> float -> float -> float)
    (cosf sinf : float -> float) (acos : double -> double)
    (RAOBuffer : Buffer) (heaveDisplacementFilePath waveElevationFilePath : string)
    (heave elevation : list float) (sz : Z)
    (heaveMeasurementUncertainty waveElevationMeasurementUncertainty : float)
    (measurementPeriod : float) (wd : World) :
  (forall request, granted (allocator request) = true) ->
  filesystem heaveDisplacementFilePath = Some heave ->
  filesystem waveElevationFilePath = Some elevation ->
  heave <> [] ->
  length heave = length elevation ->
  Z.of_nat (length heave) <= SIZE_MAX size_bits / 2 ->
  roundUpToNextHighestPowerOfTwo size_bits (Z.of_nat (length heave)) = Some sz ->
  Z.of_nat (length (block (heapPointer RAOBuffer))) = size RAOBuffer ->
  size RAOBuffer <= sz ->
  let n := length heave in
  let bounds (uncertainty value : float) :=
    (fround binary32 (fsub binary64 value (fdiv binary64 uncertainty (of_Z binary64 2))),
     fround binary32 (fadd binary64 value (fdiv binary64 uncertainty (of_Z binary64 2)))) in
  let perturbedHeave :=
    imap (fun i value =>
            libUncertainFloatUniformDist (draws wd + i)%nat
              (bounds heaveMeasurementUncertainty value).1
              (bounds heaveMeasurementUncertainty value).2) heave in
  let perturbedElevation :=
    imap (fun i value =>
            libUncertainFloatUniformDist (draws wd + n + i)%nat
              (bounds waveElevationMeasurementUncertainty value).1
              (bounds waveElevationMeasurementUncertainty value).2) elevation in
  exists (junk1 junk2 heaveSpectrum waveSpectrum rao : list float)
         (wd1 wd2 wd3 wd4 wd' : World),
    (exists j, 0 <= j /\ sz = 2 ^ j) /\
    calculatePowerSpectrum size_bits allocator cosf sinf acos junk1 perturbedHeave
      (Z.of_nat n) wd1 = Some ((0, heaveSpectrum), wd2) /\
    calculatePowerSpectrum size_bits allocator cosf sinf acos junk2 perturbedElevation
      (Z.of_nat n) wd3 = Some ((0, waveSpectrum), wd4) /\
    Z.of_nat (length heaveSpectrum) = sz /\
    Z.of_nat (length waveSpectrum) = sz /\
    characteriseRAO size_bits allocator filesystem pipes libUncertainFloatUniformDist
      cosf sinf acos RAOBuffer heaveDisplacementFilePath waveElevationFilePath
      heaveMeasurementUncertainty waveElevationMeasurementUncertainty
      measurementPeriod wd = Some ((0, mkBuffer (Some rao) sz), wd') /\
    Z.of_nat (length rao) = sz /\
    draws wd' = (draws wd + 2 * n)%nat /\
    (forall i h e,
       heaveSpectrum !! i = Some h -> waveSpectrum !! i = Some e ->
       rao !! i =
         Some (if SFeqb e (S754_zero false) then S754_infinity false
               else fdiv binary32 h e)).
Proof.
  intros Hgrants Hheave Helev Hne Hsame Hlen Hround Hwf Hsize n bounds
    perturbedHeave perturbedElevation.
  pose proof (SIZE_MAX_half size_bits) as Hhalf.
  pose proof (pow2_half_lt_modulus size_bits) as Hpow.
  assert (elevation <> []) as Hne' by (intros ->; destruct heave; [congruence|discriminate]).
  assert (Z.of_nat (length heave) <= SIZE_MAX size_bits) as Hmax
    by (unfold SIZE_MAX in *; lia).
  destruct (roundUp_in_range size_bits (Z.of_nat (length heave)) Hlen)
    as (j & Hj & Hrun & Hup & _).
  rewrite Hround in Hrun. injection Hrun as Hsz.
  assert (1 <= sz) as Hsz1
    by (rewrite Hsz; assert (0 < 2 ^ j) by (apply Z.pow_pos_nonneg; lia); lia).
  assert (1 <= Z.of_nat n) as Hn1 by (subst n; destruct heave; [congruence|simpl; lia]).
  (* the three extensions *)
  set (wdr := mkWorld (S (S (allocations wd))) (draws wd)
                ((trace wd ++ [EvCalloc (Z.of_nat (length heave)) true]) ++
                 [EvCalloc (Z.of_nat (length elevation)) true])).
  destruct (extendHeapBuffer_total allocator Hgrants (mkBuffer None 0) sz wdr)
    as (junk1 & wde1 & Hext1 & Hlen1 & _); [reflexivity|lia|].
  destruct (extendHeapBuffer_total allocator Hgrants (mkBuffer None 0) sz wde1)
    as (junk2 & wde2 & Hext2 & Hlen2 & _); [reflexivity|lia|].
  destruct (extendHeapBuffer_total allocator Hgrants RAOBuffer sz wde2)
    as (target & wde3 & Hext3 & Hlen3 & _); [exact Hwf|lia|].
  cbn [size] in *. rewrite Z.max_r in Hext1, Hlen1, Hext2, Hlen2, Hext3, Hlen3 by lia.
  assert (draws wde3 = draws wd) as Hdraws.
  { rewrite (extendHeapBuffer_keeps_draws _ _ _ _ _ _ Hext3).
    rewrite (extendHeapBuffer_keeps_draws _ _ _ _ _ _ Hext2).
    rewrite (extendHeapBuffer_keeps_draws _ _ _ _ _ _ Hext1). reflexivity. }
  (* the two perturbations *)
  pose proof (applyUncertainty_imap libUncertainFloatUniformDist
                heaveMeasurementUncertainty heave wde3) as Hpert1.
  cbv zeta in Hpert1. rewrite Hdraws in Hpert1.
  set (wdp1 := mkWorld (allocations wde3) (draws wd + length heave) _) in Hpert1.
  pose proof (applyUncertainty_imap libUncertainFloatUniformDist
                waveElevationMeasurementUncertainty elevation wdp1) as Hpert2.
  cbv zeta in Hpert2. cbn [draws wdp1] in Hpert2.
  set (wdp2 := mkWorld _ _ _) in Hpert2.
  fold n in Hpert1, Hpert2.
  (* the two power spectra *)
  assert (length perturbedHeave = n) as HlenH by (apply length_imap).
  assert (length perturbedElevation = n) as HlenE
    by (unfold perturbedElevation; rewrite length_imap; lia).
  destruct (calculatePowerSpectrum_spec size_bits allocator cosf sinf acos junk1
              perturbedHeave (Z.of_nat n) sz wdp2)
    as (F1 & heaveSpectrum & _ & _ & Hps1 & HlenS1 & _ & _);
    try apply Hgrants; try exact Hround; try lia.
  set (wds1 := mkWorld _ _ _) in Hps1.
  destruct (calculatePowerSpectrum_spec size_bits allocator cosf sinf acos junk2
              perturbedElevation (Z.of_nat n) sz wds1)
    as (F2 & waveSpectrum & _ & _ & Hps2 & HlenS2 & _ & _);
    try apply Hgrants; try exact Hround; try lia.
  set (wds2 := mkWorld _ _ _) in Hps2.
  destruct (elementWiseDivide_spec target heaveSpectrum waveSpectrum sz)
    as (rao & Hdivide & Hlenrao & Hbins & _); try lia.
  exists junk1, junk2, heaveSpectrum, waveSpectrum, rao, wdp2, wds1, wds1, wds2.
  eexists.
  split; [exists j; split; [lia|exact Hsz]|].
  split; [exact Hps1|]. split; [exact Hps2|]. split; [lia|]. split; [lia|].
  split; [|split; [lia|split]].
  - unfold characteriseRAO.
    mstep ltac:(rewrite (readFloats_spec size_bits allocator filesystem pipes _ heave)
                  by assumption;
                rewrite Hgrants, Z.min_l, Nat2Z.id, take_ge by lia; reflexivity).
    change (failed 0) with false. cbv iota.
    mstep ltac:(rewrite (readFloats_spec size_bits allocator filesystem pipes _ elevation)
                  by assumption;
                rewrite Hgrants, Z.min_l, Nat2Z.id, take_ge by lia; reflexivity).
    change (failed 0) with false. cbv iota. cbn [size allocations draws trace].
    rewrite <- Hsame, Z.eqb_refl. cbn [negb].
    mstep ltac:(apply lift_Some; exact Hround).
    rewrite Hsame at 2. fold wdr.
    mstep ltac:(exact Hext1).
    change (failed 0) with false. cbv iota.
    mstep ltac:(exact Hext2).
    change (failed 0) with false. cbv iota.
    mstep ltac:(exact Hext3).
    change (failed 0) with false. cbv iota.
    mstep ltac:(exact Hpert1).
    rewrite Hsame.
    mstep ltac:(exact Hpert2).
    cbn [size heapPointer block rewritten]. rewrite <- Hsame.
    mstep ltac:(exact Hps1).
    change (failed 0) with false. cbv iota.
    mstep ltac:(exact Hps2).
    change (failed 0) with false. cbv iota.
    mstep ltac:(apply lift_Some; exact Hdivide).
    unfold bind, freeHeapBuffer, free, emit, ret. simpl. reflexivity.
  - simpl. lia.
  - intros i h e Hh He. apply Hbins; [|exact Hh|exact He].
    apply lookup_lt_Some in Hh. lia.
Qed.

(** X13. The characterisation on success. With two calibration files of
    [n] values each, [n] between 1 and half the largest size, an allocator
    that grants, and an RAO buffer that owns its cells and is not larger than
    the rounded size [sz] of [n]: the call returns 0; the RAO buffer has size
    [sz], a power of two, and owns [sz] cells; each series is perturbed with
    its own [n] draws, heave first; and every RAO bin is the bin of the heave
    power spectrum divided by the bin of the elevation power spectrum, or
    +infinity where the latter compares equal to zero. *)
Theorem characteriseRAO_success
    (size_bits : positive) (allocator : nat -> AllocOutcome)
    (filesystem : string -> option (list float))
    (pipes : string -> option FILE)
    (libUncertainFloatUniformDist : nat -> float -> float -> float)
    (cosf sinf : float -> float) (acos : double -> double)
    (RAOBuffer : Buffer) (heaveDisplacementFilePath waveElevationFilePath : string)
    (heave elevation : list float) (sz : Z)
    (heaveMeasurementUncertainty waveElevationMeasurementUncertainty : float)
    (measurementPeriod : float) (wd : World) :
  (forall request, granted (allocator request) = true) ->
  filesystem heaveDisplacementFilePath = Some heave ->
  filesystem waveElevationFilePath = Some elevation ->
  heave <> [] ->
  length heave = length elevation ->
  Z.of_nat (length heave) <= SIZE_MAX size_bits / 2 ->
  roundUpToNextHighestPowerOfTwo size_bits (Z.of_nat (length heave)) = Some sz ->
  Z.of_nat (length (block (heapPointer RAOBuffer))) = size RAOBuffer ->
  size RAOBuffer <= sz ->
  let n := length heave in
  let bounds (uncertainty value : float) :=
    (fround binary32 (fsub binary64 value (fdiv binary64 uncertainty (of_Z binary64 2))),
     fround binary32 (fadd binary64 value (fdiv binary64 uncertainty (of_Z binary64 2)))) in
  let perturbedHeave :=
    imap (fun i value =>
            libUncertainFloatUniformDist (draws wd + i)%nat
              (bounds heaveMeasurementUncertainty value).1
              (bounds heaveMeasurementUncertainty value).2) heave in
  let perturbedElevation :=
    imap (fun i value =>
            libUncertainFloatUniformDist (draws wd + n + i)%nat
              (bounds waveElevationMeasurementUncertainty value).1
              (bounds waveElevationMeasurementUncertainty value).2) elevation in
  exists (junk1 junk2 heaveSpectrum waveSpectrum rao : list float)
         (wd1 wd2 wd3 wd4 wd' : World),
    (exists j, 0 <= j /\ sz = 2 ^ j) /\
    calculatePowerSpectrum size_bits allocator cosf sinf acos junk1 perturbedHeave
      (Z.of_nat n) wd1 = Some ((0, heaveSpectrum), wd2) /\
    calculatePowerSpectrum size_bits allocator cosf sinf acos junk2 perturbedElevation
      (Z.of_nat n) wd3 = Some ((0, waveSpectrum), wd4) /\
    Z.of_nat (length heaveSpectrum) = sz /\
    Z.of_nat (length waveSpectrum) = sz /\
    characteriseRAO size_bits allocator filesystem pipes libUncertainFloatUniformDist
      cosf sinf acos RAOBuffer heaveDisplacementFilePath waveElevationFilePath
      heaveMeasurementUncertainty waveElevationMeasurementUncertainty
      measurementPeriod wd = Some ((0, mkBuffer (Some rao) sz), wd') /\
    Z.of_nat (length rao) = sz /\
    draws wd' = (draws wd + 2 * n)%nat /\
    (forall i h e,
       heaveSpectrum !! i = Some h -> waveSpectrum !! i = Some e ->
       rao !! i =
         Some (if SFeqb e (S754_zero false) then S754_infinity false
               else fdiv binary32 h e)).
Proof. apply characteriseRAO_success_spec. Qed.

Lemma characteriseRAO_success_witness :
  exists (rao : list float) (wd' : World),
    characteriseRAO 64 allocator_recycling files_calibration no_pipes uniform_midpoint
      cosf_series sinf_series acos_minus_one (mkBuffer None 0)
      "testingHeave.csv" "testingWaveElevation.csv" f32_half f32_half f32_one world0 =
      Some ((0, mkBuffer (Some rao) 4), wd') /\
    Z.of_nat (length rao) = 4 /\
    draws wd' = 8%nat.
Proof.
  destruct (characteriseRAO_success 64 allocator_recycling files_calibration no_pipes
              uniform_midpoint cosf_series sinf_series acos_minus_one (mkBuffer None 0)
              "testingHeave.csv" "testingWaveElevation.csv"
              [f32_one; f32_two; f32_one; S754_zero false]
              [f32_half; f32_one; f32_half; S754_zero false] 4
              f32_half f32_half f32_one world0)
    as (junk1 & junk2 & heaveSpectrum & waveSpectrum & rao & wd1 & wd2 & wd3 & wd4 & wd' &
        _ & _ & _ & _ & _ & Hrun & Hlen & Hdraws & _).
  - intros request. reflexivity.
  - reflexivity.
  - reflexivity.
  - discriminate.
  - reflexivity.
  - vm_compute. discriminate.
  - reflexivity.
  - reflexivity.
  - simpl. lia.
  - exists rao, wd'. split; [exact Hrun|]. split; [exact Hlen|exact Hdraws].
Defined.

(** ** main.c : the command line *)

(** X14. What the parsing of the command line guarantees. Started with a
    timestep that does not compare equal to zero, [getCommandLineArguments]
    returns 0 or 1 whenever it returns; with 0 it has printed nothing and the
    timestep it leaves still does not compare equal to zero, whatever the
    options were; with 1 it has printed a diagnostic. *)
Theorem getCommandLineArguments_timestep_nonzero
    (atof : string -> double) (calls : list GetoptCall) :
  forall (arguments arguments' : CommandLineArguments)
         (printed : list ConsoleLine) (returnCode : Z),
    SFeqb (timestep arguments) (S754_zero false) = false ->
    getCommandLineArguments atof calls arguments =
      (printed, Returns (returnCode, arguments')) ->
    (returnCode = 0 /\ printed = [] /\
     SFeqb (timestep arguments') (S754_zero false) = false) \/
    (returnCode = 1 /\ printed <> []).
Proof.
  induction calls as [|call calls IH]; intros arguments arguments' printed returnCode Hts.
  - simpl. intros [= <- <- <-]. left. auto.
  - simpl getCommandLineArguments.
    repeat match goal with
           | |- context [Ascii.eqb (opt call) ?c] => destruct (Ascii.eqb (opt call) c)
           end;
      try (apply IH; exact Hts);
      try (intros [= <- <- <-]; right; split; [reflexivity|discriminate]);
      try discriminate.
    cbn [timestep].
    destruct (SFeqb (fround binary32 (atof (optarg call))) (S754_zero false)) eqn:Hzero.
    + intros [= <- <- <-]. right. split; [reflexivity|discriminate].
    + apply IH. exact Hzero.
Qed.

Lemma getCommandLineArguments_timestep_nonzero_witness :
  (0 = 0 /\ @nil ConsoleLine = [] /\
   SFeqb (timestep (mkArguments "h.csv" f32_one "e.csv" f32_one "a.csv" f32_one f32_two))
     (S754_zero false) = false) \/
  (0 = 1 /\ @nil ConsoleLine <> []).
Proof.
  apply (getCommandLineArguments_timestep_nonzero (fun _ => f32_two)
           [mkGetopt "d" "h.csv" "d"; mkGetopt "t" "2" "t"]
           (mkArguments "x.csv" f32_one "e.csv" f32_one "a.csv" f32_one f32_one)
           (mkArguments "h.csv" f32_one "e.csv" f32_one "a.csv" f32_one f32_two)
           [] 0); reflexivity.
Defined.

(** ** main.c : the report *)

Section ReportFacts.
Variable size_bits : positive.
Variable timestep : float.
Variables RAOsize size : Z.
Variable cells : list float.

(** The line [main] prints for bin [i]. *)
Let line (i : Z) : ConsoleLine :=
  LineBin
    (fmul binary32
       (fdiv binary32 (of_Z binary32 1) (fmul binary32 timestep (of_Z binary32 RAOsize)))
       (of_Z binary32 i))
    (default (S754_zero false) (cells !! Z.to_nat i)).

(** [count] more iterations from bin [i]: the bins [i], [i + arrayInterval],
    ... are printed in that order. *)
Lemma report_loop_steps (arrayInterval : Z) (count : nat) : forall (fuel : nat) (i : Z),
  0 <= i -> 1 <= arrayInterval -> (count <= fuel)%nat ->
  size / 2 < Z.of_nat (length cells) ->
  size / 2 + arrayInterval < 2 ^ Z.pos size_bits ->
  size / 2 < i + Z.of_nat count * arrayInterval ->
  i + (Z.of_nat count - 1) * arrayInterval <= size / 2 ->
  report_loop size_bits fuel i arrayInterval timestep RAOsize size cells =
    Some (map (fun k => line (i + Z.of_nat k * arrayInterval)) (seq 0 count)).
Proof.
  induction count as [|count IH]; intros fuel i Hi Hstep Hfuel Hcells Hwrap Hend Hlast.
  - destruct fuel; simpl; (destruct (Z.leb_spec i (size / 2)); [lia|reflexivity]).
  - destruct fuel as [|fuel]; [lia|]. simpl report_loop.
    destruct (Z.leb_spec i (size / 2)) as [Hle|Hgt]; [|nia].
    destruct (load_in_range cells i) as (v & Hv & Hv'); [lia|].
    rewrite Hv. simpl mbind.
    assert (wrap size_bits (i + arrayInterval) = i + arrayInterval) as Hw
      by (unfold wrap; apply Z.mod_small; lia).
    rewrite Hw. rewrite IH by (try lia; nia). simpl.
    f_equal. f_equal.
    + unfold line. replace (i + Z.of_nat 0 * arrayInterval) with i by lia.
      rewrite Hv'. reflexivity.
    + rewrite <- seq_shift, map_map. apply map_ext. intros k. f_equal. lia.
Qed.
End ReportFacts.

Lemma report_loop_spec
    (size_bits : positive) (timestep : float) (RAOsize size : Z) (cells : list float) :
  0 <= size <= SIZE_MAX size_bits ->
  size / 2 < Z.of_nat (length cells) ->
  let maximumIndex := size / 2 in
  let arrayInterval :=
    if maximumIndex >? kMaximumPrintLinesInOutput
    then maximumIndex / (kMaximumPrintLinesInOutput - 1)
    else 1 in
  let line i :=
    LineBin
      (fmul binary32
         (fdiv binary32 (of_Z binary32 1)
            (fmul binary32 timestep (of_Z binary32 RAOsize)))
         (of_Z binary32 i))
      (default (S754_zero false) (cells !! Z.to_nat i)) in
  let count := Z.to_nat (maximumIndex / arrayInterval + 1) in
  report_loop size_bits (S (Z.to_nat maximumIndex)) 0 arrayInterval timestep RAOsize
    size cells =
    Some (map (fun k => line (Z.of_nat k * arrayInterval)) (seq 0 count)) /\
  (1 <= count <= 16)%nat /\
  (forall j, 0 <= j -> maximumIndex = 2 ^ j ->
     (count <= 9)%nat /\ Z.of_nat (count - 1) * arrayInterval = maximumIndex).
Proof.
  intros Hsize Hcells maximumIndex arrayInterval line count.
  unfold kMaximumPrintLinesInOutput in *.
  assert (0 <= maximumIndex) as Hmax by (subst maximumIndex; Z.div_mod_to_equations; lia).
  assert (1 <= arrayInterval <= Z.max 1 maximumIndex) as Hint.
  { subst arrayInterval. destruct (Z.gtb_spec maximumIndex 9);
      [Z.div_mod_to_equations; lia|lia]. }
  assert (0 <= maximumIndex / arrayInterval <= maximumIndex) as Hq.
  { split; [apply Z.div_pos; lia|]. apply Z.div_le_upper_bound; nia. }
  assert (arrayInterval * (maximumIndex / arrayInterval) <= maximumIndex <
          arrayInterval * (maximumIndex / arrayInterval + 1)) as Hdiv.
  { pose proof (Z.mul_div_le maximumIndex arrayInterval ltac:(lia)).
    pose proof (Z.mul_succ_div_gt maximumIndex arrayInterval ltac:(lia)). lia. }
  split; [|split].
  - assert (2 * maximumIndex <= size) by (subst maximumIndex; Z.div_mod_to_equations; lia).
    assert (2 ^ 1 <= 2 ^ Z.pos size_bits) by (apply Z.pow_le_mono_r; lia).
    unfold SIZE_MAX in Hsize.
    rewrite (report_loop_steps size_bits timestep RAOsize size cells arrayInterval count);
      fold maximumIndex; try (subst count; rewrite ?Z2Nat.id by lia; lia).
    apply f_equal, map_ext. intros k. reflexivity.
  - subst count. split; [lia|].
    assert (maximumIndex / arrayInterval <= 15); [|lia].
    subst arrayInterval. destruct (Z.gtb_spec maximumIndex 9) as [Hbig|Hsmall].
    + change (9 - 1) with 8 in *.
      apply Z.div_le_upper_bound; [lia|]. Z.div_mod_to_equations. lia.
    + rewrite Z.div_1_r. lia.
  - intros j Hj Hpow. subst count.
    assert (arrayInterval * (maximumIndex / arrayInterval) = maximumIndex /\
            maximumIndex / arrayInterval <= 8) as [Hexact Hle].
    { subst arrayInterval. destruct (Z.gtb_spec maximumIndex 9) as [Hbig|Hsmall].
      - change (9 - 1) with 8 in *.
        assert (4 <= j).
        { destruct (Z.le_gt_cases 4 j) as [?|Hc]; [assumption|].
          assert (2 ^ j <= 2 ^ 3) by (apply Z.pow_le_mono_r; lia).
          change (2 ^ 3) with 8 in *. lia. }
        assert (maximumIndex = 8 * 2 ^ (j - 3)) as Height.
        { rewrite Hpow. replace j with (3 + (j - 3)) at 1 by lia.
          rewrite Z.pow_add_r by lia. reflexivity. }
        assert (0 < 2 ^ (j - 3)) by (apply Z.pow_pos_nonneg; lia).
        assert (maximumIndex / 8 = 2 ^ (j - 3)) as Hq8
          by (rewrite Height, Z.mul_comm; apply Z.div_mul; lia).
        rewrite Hq8.
        assert (maximumIndex / 2 ^ (j - 3) = 8) as ->
          by (rewrite Height; apply Z.div_mul; lia).
        lia.
      - rewrite Z.div_1_r.
        assert (j <= 3).
        { destruct (Z.le_gt_cases j 3) as [?|Hc]; [assumption|].
          assert (2 ^ 4 <= 2 ^ j) by (apply Z.pow_le_mono_r; lia).
          change (2 ^ 4) with 16 in *. lia. }
        assert (j = 0 \/ j = 1 \/ j = 2 \/ j = 3) as Hcases by lia.
        destruct Hcases as [-> | [-> | [-> | ->]]]; simpl in Hpow; lia. }
    split; [lia|].
    replace (Z.of_nat (Z.to_nat (maximumIndex / arrayInterval + 1) - 1))
      with (maximumIndex / arrayInterval) by lia.
    lia.
Qed.

(** X15. The report of [main]. For an estimate buffer of [size] cells and the
    interval [main] computes (the half size divided by 8 when the half size
    exceeds 9, else 1), the loop terminates and prints the bins 0,
    [arrayInterval], [2 * arrayInterval], ... up to the half size, one line
    per bin with its frequency and its density: [size / 2 / arrayInterval + 1]
    lines, never more than 16, and at most 9, ending with the bin at half the
    size, when the half size is a power of two. *)
Theorem report_loop_lines
    (size_bits : positive) (timestep : float) (RAOsize size : Z) (cells : list float) :
  0 <= size <= SIZE_MAX size_bits ->
  size / 2 < Z.of_nat (length cells) ->
  let maximumIndex := size / 2 in
  let arrayInterval :=
    if maximumIndex >? kMaximumPrintLinesInOutput
    then maximumIndex / (kMaximumPrintLinesInOutput - 1)
    else 1 in
  let line i :=
    LineBin
      (fmul binary32
         (fdiv binary32 (of_Z binary32 1)
            (fmul binary32 timestep (of_Z binary32 RAOsize)))
         (of_Z binary32 i))
      (default (S754_zero false) (cells !! Z.to_nat i)) in
  let count := Z.to_nat (maximumIndex / arrayInterval + 1) in
  report_loop size_bits (S (Z.to_nat maximumIndex)) 0 arrayInterval timestep RAOsize
    size cells =
    Some (map (fun k => line (Z.of_nat k * arrayInterval)) (seq 0 count)) /\
  (1 <= count <= 16)%nat /\
  (forall j, 0 <= j -> maximumIndex = 2 ^ j ->
     (count <= 9)%nat /\ Z.of_nat (count - 1) * arrayInterval = maximumIndex).
Proof. apply report_loop_spec. Qed.

Lemma report_loop_lines_witness :
  report_loop 64 (S (Z.to_nat (4 / 2))) 0 1 f32_tenth 4 4
    [f32_one; f32_two; f32_half; f32_one] =
    Some (map (fun k =>
                 LineBin
                   (fmul binary32
                      (fdiv binary32 (of_Z binary32 1)
                         (fmul binary32 f32_tenth (of_Z binary32 4)))
                      (of_Z binary32 (Z.of_nat k * 1)))
                   (default (S754_zero false)
                      ([f32_one; f32_two; f32_half; f32_one] !! Z.to_nat (Z.of_nat k * 1))))
            (seq 0 3)).
Proof.
  apply (proj1 (report_loop_lines 64 f32_tenth 4 4 [f32_one; f32_two; f32_half; f32_one]
                  ltac:(vm_compute; split; discriminate)
                  ltac:(vm_compute; reflexivity))).
Defined.

(** ** main.c : the whole program *)

(** The estimation into an empty buffer, on an accepted acceleration file
    and an RAO whose size is a power of two: the call returns 0 and the
    estimate buffer has the size of the RAO and owns that many cells. *)
Lemma estimateWaveSpectrum_success
    (size_bits : positive) (allocator : nat -> AllocOutcome)
    (filesystem : string -> option (list float))
    (pipes : string -> option FILE)
    (libUncertainFloatUniformDist : nat -> float -> float -> float)
    (integrate : State -> float -> float -> float -> State)
    (cosf sinf : float -> float) (acos : double -> double)
    (path : string) (acceleration rao : list float) (k : Z)
    (resolution dt : float) (wd : World) :
  (forall request, granted (allocator request) = true) ->
  filesystem path = Some acceleration ->
  acceleration <> [] ->
  Z.of_nat (length acceleration) <= SIZE_MAX size_bits / 2 ->
  0 <= k -> Z.of_nat (length rao) = 2 ^ k -> 2 ^ k <= SIZE_MAX size_bits / 2 ->
  exists (estimate : list float) (wd' : World),
    estimateWaveSpectrum size_bits allocator filesystem pipes libUncertainFloatUniformDist
      integrate cosf sinf acos (mkBuffer None 0)
      (mkBuffer (Some rao) (Z.of_nat (length rao))) path resolution dt wd =
      Some ((0, mkBuffer (Some estimate) (Z.of_nat (length rao))), wd') /\
    length estimate = length rao.
Proof.
  intros Hgrants Hfile Hne Hlen Hk Hrao HR.
  pose proof (SIZE_MAX_half size_bits) as Hhalf.
  pose proof (pow2_half_lt_modulus size_bits) as Hpow.
  assert (0 < 2 ^ k) as HRpos by (apply Z.pow_pos_nonneg; lia).
  assert (Z.min (Z.of_nat (length acceleration)) (SIZE_MAX size_bits) =
          Z.of_nat (length acceleration)) as Hmin by (unfold SIZE_MAX in *; lia).
  destruct (applyUncertainty_total libUncertainFloatUniformDist acceleration resolution
              (mkWorld (S (allocations wd)) (draws wd)
                 (trace wd ++ [EvCalloc (Z.of_nat (length acceleration)) true])))
    as (perturbed & wd1 & Hperturb & Hlenp & _).
  assert (perturbed <> []) as Hnep
    by (intros ->; destruct acceleration; [congruence|discriminate]).
  destruct (numericalIntegration_total integrate perturbed dt Hnep)
    as (position & Hintegrate & Hlenpos).
  rewrite Hlenp in Hintegrate, Hlenpos.
  destruct (extendHeapBuffer_total allocator Hgrants
              (mkBuffer (Some position) (Z.of_nat (length acceleration)))
              (Z.of_nat (length rao)) wd1)
    as (extended & wd1' & Hextend & Hlenext & _); [simpl; lia | lia |].
  cbn [size heapPointer block] in *.
  destruct (extendHeapBuffer_total allocator Hgrants (mkBuffer None 0)
              (Z.of_nat (length rao)) wd1')
    as (junk & wd1'' & Hjunk & Hlenjunk & _); [reflexivity | lia |].
  destruct (extendHeapBuffer_total allocator Hgrants (mkBuffer None 0)
              (Z.of_nat (length rao)) wd1'')
    as (target & wd2 & Htarget & Hlentarget & _); [reflexivity | lia |].
  cbn [size] in *.
  rewrite Z.max_r in Hjunk, Hlenjunk, Htarget, Hlentarget by lia.
  assert (roundUpToNextHighestPowerOfTwo size_bits (Z.of_nat (length rao)) =
          Some (Z.of_nat (length rao))) as Hround
    by (rewrite Hrao; apply roundUp_pow2; assumption).
  destruct (calculatePowerSpectrum_spec size_bits allocator cosf sinf acos junk extended
              (Z.of_nat (length rao)) (Z.of_nat (length rao)) wd2)
    as (F & spectrum & _ & _ & Hspectrum & Hlenspec & _ & _);
    try apply Hgrants; try exact Hround; try lia.
  destruct (elementWiseDivide_spec target spectrum rao (Z.of_nat (length rao)))
    as (estimate & Hdivide & Hlenest & _); try lia.
  exists estimate. eexists. split; [|lia].
  unfold estimateWaveSpectrum.
  mstep ltac:(rewrite (readFloats_spec size_bits allocator filesystem pipes _ acceleration)
                by assumption;
              rewrite Hgrants, Hmin, Nat2Z.id, take_ge by lia; reflexivity).
  change (failed 0) with false. cbv iota. cbn [size].
  destruct (Z.gtb_spec (Z.of_nat (length acceleration)) (SIZE_MAX size_bits / 2));
    [lia|].
  mstep ltac:(exact Hperturb).
  mstep ltac:(apply lift_Some; exact Hintegrate).
  cbn [size].
  assert ((if Z.of_nat (length acceleration) <? Z.of_nat (length rao)
           then extendHeapBuffer allocator
                  (mkBuffer (Some position) (Z.of_nat (length acceleration)))
                  (Z.of_nat (length rao))
           else ret (0, mkBuffer (Some position) (Z.of_nat (length acceleration)))) wd1 =
          Some ((0, mkBuffer (Some extended)
                      (Z.max (Z.of_nat (length acceleration)) (Z.of_nat (length rao)))),
                wd1')) as Hocean.
  { destruct (Z.ltb_spec (Z.of_nat (length acceleration)) (Z.of_nat (length rao)));
      [exact Hextend|].
    rewrite extendHeapBuffer_noop in Hextend by (simpl; lia). exact Hextend. }
  mstep ltac:(exact Hocean).
  change (failed 0) with false. cbv iota.
  mstep ltac:(exact Hjunk).
  change (failed 0) with false. cbv iota.
  mstep ltac:(exact Htarget).
  change (failed 0) with false. cbv iota. cbn [size heapPointer block rewritten].
  mstep ltac:(exact Hspectrum).
  change (failed 0) with false. cbv iota.
  mstep ltac:(apply lift_Some; exact Hdivide).
  unfold bind, freeHeapBuffer, free, emit, ret. simpl. reflexivity.
Qed.

(** X16. The program end to end. When the command line is accepted, the
    three files it names open, the two calibration records have the same
    number [n] of values with the rounded size [sz] of [n] at most half the
    largest size, the acceleration record has between 1 and half the largest
    size values, and the allocator grants: [characteriseRAO] returns an RAO of
    [sz] bins, [estimateWaveSpectrum] returns from that RAO an estimate of
    [sz] bins whatever the length of the acceleration record, and [main]
    returns 0 after these two calls, the report and the release of its two
    buffers. The report is the heading followed by between 1 and 9 lines:
    line [k] carries the frequency and the density of bin
    [k * arrayInterval] of that estimate, beginning with bin 0. *)
Theorem main_reports_spectrum
    (size_bits : positive) (allocator : nat -> AllocOutcome)
    (filesystem : string -> option (list float))
    (pipes : string -> option FILE)
    (libUncertainFloatUniformDist : nat -> float -> float -> float)
    (integrate : State -> float -> float -> float -> State)
    (cosf sinf : float -> float) (acos : double -> double)
    (atof : string -> double)
    (calls : list GetoptCall) (printed : list ConsoleLine)
    (arguments : CommandLineArguments)
    (heave elevation acceleration : list float) (sz : Z) (wd : World) :
  (forall request, granted (allocator request) = true) ->
  getCommandLineArguments atof calls
    (mkArguments "testingHeave.csv" f32_tenth "testingWaveElevation.csv" f32_tenth
       "oceanHeaveAcceleration.csv" f32_tenth f32_tenth) =
    (printed, Returns (0, arguments)) ->
  filesystem (heaveDisplacementFilePath arguments) = Some heave ->
  filesystem (waveElevationFilePath arguments) = Some elevation ->
  filesystem (heaveAccelerationFilePath arguments) = Some acceleration ->
  heave <> [] ->
  length heave = length elevation ->
  Z.of_nat (length heave) <= SIZE_MAX size_bits / 2 ->
  roundUpToNextHighestPowerOfTwo size_bits (Z.of_nat (length heave)) = Some sz ->
  sz <= SIZE_MAX size_bits / 2 ->
  acceleration <> [] ->
  Z.of_nat (length acceleration) <= SIZE_MAX size_bits / 2 ->
  let maximumIndex := sz / 2 in
  let arrayInterval :=
    if maximumIndex >? kMaximumPrintLinesInOutput
    then maximumIndex / (kMaximumPrintLinesInOutput - 1)
    else 1 in
  let count := Z.to_nat (maximumIndex / arrayInterval + 1) in
  let frequency (i : Z) :=
    fmul binary32
      (fdiv binary32 (of_Z binary32 1)
         (fmul binary32 (timestep arguments) (of_Z binary32 sz)))
      (of_Z binary32 i) in
  exists (rao estimate : list float) (lines : list ConsoleLine) (wdr wde wd' : World),
    characteriseRAO size_bits allocator filesystem pipes libUncertainFloatUniformDist
      cosf sinf acos (mkBuffer None 0)
      (heaveDisplacementFilePath arguments) (waveElevationFilePath arguments)
      (heaveMeasurementUncertainty arguments) (waveElevationUncertainty arguments)
      (timestep arguments) wd = Some ((0, mkBuffer (Some rao) sz), wdr) /\
    estimateWaveSpectrum size_bits allocator filesystem pipes libUncertainFloatUniformDist
      integrate cosf sinf acos (mkBuffer None 0) (mkBuffer (Some rao) sz)
      (heaveAccelerationFilePath arguments) (accelerometerResolution arguments)
      (timestep arguments) wdr = Some ((0, mkBuffer (Some estimate) sz), wde) /\
    Z.of_nat (length estimate) = sz /\
    main size_bits allocator filesystem pipes libUncertainFloatUniformDist integrate
      cosf sinf acos atof calls wd =
      Some ((printed ++ LineWaveSpectrum :: lines, Returns 0), wd') /\
    trace wd' = trace wde ++ [EvFree; EvFree] /\
    length lines = count /\
    (1 <= count <= 9)%nat /\
    (forall k, (k < count)%nat ->
       exists density,
         estimate !! Z.to_nat (Z.of_nat k * arrayInterval) = Some density /\
         lines !! k = Some (LineBin (frequency (Z.of_nat k * arrayInterval)) density)).
Proof.
  intros Hgrants Hparse Hheave Helev Hacc Hne Hsame Hlen Hround Hsz Hnea Hlena
    maximumIndex arrayInterval count frequency.
  destruct (roundUp_in_range size_bits (Z.of_nat (length heave)) Hlen)
    as (j & Hj & Hrun & Hup & _).
  rewrite Hround in Hrun. injection Hrun as Hszj.
  assert (0 < 2 ^ j) as Hpos by (apply Z.pow_pos_nonneg; lia).
  destruct (characteriseRAO_success_spec size_bits allocator filesystem pipes
              libUncertainFloatUniformDist cosf sinf acos (mkBuffer None 0)
              (heaveDisplacementFilePath arguments) (waveElevationFilePath arguments)
              heave elevation sz (heaveMeasurementUncertainty arguments)
              (waveElevationUncertainty arguments) (timestep arguments) wd)
    as (junk1 & junk2 & hs & ws & rao & wd1 & wd2 & wd3 & wd4 & wdr &
        _ & _ & _ & _ & _ & Hrao & Hlenrao & _ & _);
    try assumption; try reflexivity; try (simpl; lia).
  destruct (estimateWaveSpectrum_success size_bits allocator filesystem pipes
              libUncertainFloatUniformDist integrate cosf sinf acos
              (heaveAccelerationFilePath arguments) acceleration rao j
              (accelerometerResolution arguments) (timestep arguments) wdr)
    as (estimate & wde & Hest & Hlenest); try assumption; try lia.
  rewrite Hlenrao in Hest.
  assert (sz / 2 < Z.of_nat (length estimate)) as Hin
    by (rewrite Hlenest; Z.div_mod_to_equations; lia).
  assert (0 <= sz <= SIZE_MAX size_bits) as Hrange.
  { pose proof (SIZE_MAX_half size_bits). pose proof (pow2_half_lt_modulus size_bits).
    unfold SIZE_MAX in *. lia. }
  destruct (report_loop_spec size_bits (timestep arguments) sz sz estimate Hrange Hin)
    as (Hlines & Hcount & Hpow2).
  cbv zeta in Hlines, Hcount, Hpow2.
  fold maximumIndex in Hlines, Hcount, Hpow2.
  fold arrayInterval in Hlines, Hcount, Hpow2.
  fold count in Hlines, Hcount, Hpow2.
  assert (1 <= arrayInterval) as Hint.
  { subst arrayInterval. unfold kMaximumPrintLinesInOutput.
    destruct (Z.gtb_spec maximumIndex 9); [subst maximumIndex; Z.div_mod_to_equations; lia|lia]. }
  assert (count <= 9)%nat as Hnine.
  { destruct (Z.eq_dec j 0) as [->|Hj0].
    - subst count arrayInterval maximumIndex. rewrite Hszj in *.
      change (2 ^ 0 / 2) with 0 in *.
      rewrite Z.div_0_l by lia. simpl. lia.
    - apply (Hpow2 (j - 1)); [lia|].
      subst maximumIndex.
      rewrite Hszj. replace j with (Z.succ (j - 1)) at 1 by lia.
      rewrite Z.pow_succ_r by lia. rewrite Z.mul_comm. apply Z.div_mul. lia. }
  exists rao, estimate. do 2 eexists. exists wde. eexists.
  split; [exact Hrao|]. split; [exact Hest|]. split; [lia|].
  split; [|split; [|split; [|split; [lia|]]]].
  - unfold main. rewrite Hparse. change (failed 0) with false. cbv iota.
    mstep ltac:(exact Hrao).
    change (failed 0) with false. cbv iota.
    mstep ltac:(exact Hest).
    change (failed 0) with false. cbv iota. cbn [heapPointer size].
    mstep ltac:(apply lift_Some; exact Hlines).
    unfold bind, freeHeapBuffer, free, emit, ret. simpl. reflexivity.
  - simpl. rewrite <- app_assoc. reflexivity.
  - rewrite length_map, length_seq. reflexivity.
  - intros k Hk.
    assert (Z.of_nat k * arrayInterval <= maximumIndex) as Hbound.
    { subst count.
      assert (0 <= maximumIndex) by (subst maximumIndex; Z.div_mod_to_equations; lia).
      assert (0 <= maximumIndex / arrayInterval) by (apply Z.div_pos; lia).
      pose proof (Z.mul_div_le maximumIndex arrayInterval ltac:(lia)). nia. }
    destruct (lookup_lt_is_Some_2 estimate (Z.to_nat (Z.of_nat k * arrayInterval)))
      as [density Hd]; [lia|].
    exists density. split; [exact Hd|].
    rewrite list_lookup_fmap, lookup_seq_lt by exact Hk.
    simpl. rewrite Hd. reflexivity.
Qed.

Lemma main_reports_spectrum_witness :
  exists (rao estimate : list float) (lines : list ConsoleLine) (wdr wde wd' : World),
    estimateWaveSpectrum 64 allocator_recycling files_calibration no_pipes
      uniform_midpoint integrate_trapezoidal cosf_series sinf_series acos_minus_one
      (mkBuffer None 0) (mkBuffer (Some rao) 4) "oceanHeaveAcceleration.csv"
      f32_tenth f32_tenth wdr = Some ((0, mkBuffer (Some estimate) 4), wde) /\
    main 64 allocator_recycling files_calibration no_pipes uniform_midpoint
      integrate_trapezoidal cosf_series sinf_series acos_minus_one (fun _ => f32_two)
      [] world0 =
      Some (([] ++ LineWaveSpectrum :: lines, Returns 0), wd') /\
    length lines = 3%nat /\
    (exists density,
       estimate !! 2%nat = Some density /\
       lines !! 2%nat =
         Some (LineBin
                 (fmul binary32
                    (fdiv binary32 (of_Z binary32 1)
                       (fmul binary32 f32_tenth (of_Z binary32 4)))
                    (of_Z binary32 2))
                 density)).
Proof.
  destruct (main_reports_spectrum 64 allocator_recycling files_calibration no_pipes
              uniform_midpoint integrate_trapezoidal cosf_series sinf_series
              acos_minus_one (fun _ => f32_two) [] []
              (mkArguments "testingHeave.csv" f32_tenth "testingWaveElevation.csv"
                 f32_tenth "oceanHeaveAcceleration.csv" f32_tenth f32_tenth)
              [f32_one; f32_two; f32_one; S754_zero false]
              [f32_half; f32_one; f32_half; S754_zero false]
              [f32_one; f32_one; f32_two] 4 world0)
    as (rao & estimate & lines & wdr & wde & wd' &
        _ & Hest & _ & Hrun & _ & Hlen & _ & Hbins).
  - intros request. reflexivity.
  - reflexivity.
  - reflexivity.
  - reflexivity.
  - reflexivity.
  - discriminate.
  - reflexivity.
  - vm_compute. discriminate.
  - reflexivity.
  - vm_compute. discriminate.
  - discriminate.
  - vm_compute. discriminate.
  - exists rao, estimate, lines, wdr, wde, wd'.
    split; [exact Hest|]. split; [exact Hrun|]. split; [exact Hlen|].
    apply (Hbins 2%nat). vm_compute. lia.
Defined.
